(** * pyvvo: the GLM parser, serializer and model manager of
    [pyvvo/manage_glm.py], embedded in Rocq.

    Python values are modelled by a small universe ([value]); Python
    dictionaries by insertion-ordered association lists ([pydict]);
    exceptions by a result type that keeps the kind of exception raised.
    The manager mutates dictionaries that its caller and its index also
    hold, so the manager part works over an explicit object store. *)

From Stdlib Require Import String Ascii ZArith List Bool Lia.
From stdpp Require Import base option list gmap strings pretty.

Set Warnings "-register-all".

Open Scope string_scope.
Open Scope Z_scope.
Open Scope list_scope.

(** ** Python values *)

(** A dictionary key: the parser uses integer keys (guids) for items and
    nested items, and text keys for fields. *)
Inductive key :=
| KInt (n : Z)
| KStr (s : string).

(** A Python value as the module meets it: text, a number (kept by its
    decimal rendering, on which [str] and [repr] agree), or a dictionary. *)
Inductive value :=
| VStr (s : string)
| VNum (shown : string)
| VDict (d : list (key * value)).

Abbreviation pydict := (list (key * value)).

Global Instance key_eq_dec : EqDecision key.
Proof. solve_decision. Defined.

(** Exceptions.  Every [raise UserWarning(...)] site of the module has its
    own tag, so that a theorem can say which of them fired.  [OutOfModel]
    is not a Python exception: the model returns it where no run of the
    program can arrive (a loop out of fuel, a reference to no object, a
    number used as an index name). *)
Inductive warning :=
| UnimplementedItem
| MultipleClocks
| MalformedModule
| ModuleAlreadyPresent (module_name : string)
| ObjectAlreadyExists (name obj_type : string)
| KeysMustBeStrings
| NoAddMethod (item_type : string)
| NameNeeded
| CannotModify (item_type : string)
| CannotRemoveProperties (item_type : string)
| CannotRemoveUnnamed
| CannotRemove (item_type : string)
| ObjectDoesNotExist (object_type object_name : value)
| ModuleDoesNotExist (module_name : value)
| NonexistentField (k : key)
| UnknownType
| ClockDoesNotExist.

Inductive exn :=
| IndexError
| KeyError
| TypeError
| AttributeError
| ValueError
| UserWarning (w : warning)
| OutOfModel.

Inductive result (A : Type) :=
| Ok (a : A)
| Raise (e : exn).
Arguments Ok {A} a.
Arguments Raise {A} e.

Definition rbind {A B} (r : result A) (f : A -> result B) : result B :=
  match r with
  | Ok a => f a
  | Raise e => Raise e
  end.

Notation "x <- r ;; k" := (rbind r (fun x => k))
  (at level 100, r at next level, right associativity).

(** ** Dictionaries: insertion-ordered, one entry per key *)

Fixpoint dict_get (k : key) (d : pydict) : option value :=
  match d with
  | [] => None
  | (k', v) :: d' => if decide (k = k') then Some v else dict_get k d'
  end.

Definition dict_mem (k : key) (d : pydict) : bool :=
  match dict_get k d with Some _ => true | None => false end.

(** [d[k] = v]: an existing key keeps its place, a new key goes last. *)
Fixpoint dict_set (k : key) (v : value) (d : pydict) : pydict :=
  match d with
  | [] => [(k, v)]
  | (k', v') :: d' =>
      if decide (k = k') then (k, v) :: d' else (k', v') :: dict_set k v d'
  end.

(** [del d[k]] on a key that is present; [d.pop(k)] after a lookup. *)
Fixpoint dict_del (k : key) (d : pydict) : pydict :=
  match d with
  | [] => []
  | (k', v') :: d' =>
      if decide (k = k') then d' else (k', v') :: dict_del k d'
  end.

Definition dict_keys (d : pydict) : list key := map fst d.

(** ** Text primitives *)

Definition chr (n : nat) : ascii := ascii_of_nat n.
Definition LF : ascii := chr 10.
Definition TAB : ascii := chr 9.
Definition CR : ascii := chr 13.
Definition nl : string := String LF "".
Definition tab : string := String TAB "".

(** [s.replace(a, b)] for one-character [a] and [b]. *)
Fixpoint replace_char (a b : ascii) (s : string) : string :=
  match s with
  | EmptyString => EmptyString
  | String c s' =>
      String (if Ascii.eqb c a then b else c) (replace_char a b s')
  end.

(** [s.replace(a, '')] for a one-character [a]. *)
Fixpoint remove_char (a : ascii) (s : string) : string :=
  match s with
  | EmptyString => EmptyString
  | String c s' =>
      if Ascii.eqb c a then remove_char a s' else String c (remove_char a s')
  end.

(** [s.find(c) >= 0] for a one-character [c]. *)
Fixpoint contains_char (a : ascii) (s : string) : bool :=
  match s with
  | EmptyString => false
  | String c s' => Ascii.eqb c a || contains_char a s'
  end.

(** [s.split(c)[0]]: the text before the first [c]. *)
Fixpoint before_char (a : ascii) (s : string) : string :=
  match s with
  | EmptyString => EmptyString
  | String c s' => if Ascii.eqb c a then EmptyString else String c (before_char a s')
  end.

(** [sub in s] for text. *)
Fixpoint substring_of (sub s : string) : bool :=
  String.prefix sub s ||
  match s with
  | EmptyString => false
  | String _ s' => substring_of sub s'
  end.

(** [s[0:n]] *)
Fixpoint take_str (n : nat) (s : string) : string :=
  match n, s with
  | S n', String c s' => String c (take_str n' s')
  | _, _ => EmptyString
  end.

(** [' '.join(l)] *)
Fixpoint join_space (l : list string) : string :=
  match l with
  | [] => ""
  | [x] => x
  | x :: l' => x +:+ " " +:+ join_space l'
  end.

(** ** [str()] and [repr()] on the value universe *)

Definition hex_digit (n : nat) : ascii :=
  if (n <? 10)%nat then chr (48 + n) else chr (87 + n).

(** [repr] of one character inside quotes [q]. *)
Definition repr_char (q c : ascii) : string :=
  let n := nat_of_ascii c in
  if Ascii.eqb c q || Ascii.eqb c "\"%char then String "\"%char (String c "")
  else if Ascii.eqb c TAB then "\t"
  else if Ascii.eqb c LF then "\n"
  else if Ascii.eqb c CR then "\r"
  else if (n <? 32)%nat || (n =? 127)%nat
          || ((128 <=? n)%nat && (n <=? 160)%nat) || (n =? 173)%nat
       then String "\"%char (String "x"%char
              (String (hex_digit (n / 16)) (String (hex_digit (n mod 16)) "")))
  else String c "".

Fixpoint repr_chars (q : ascii) (s : string) : string :=
  match s with
  | EmptyString => EmptyString
  | String c s' => repr_char q c +:+ repr_chars q s'
  end.

Definition DQUOTE : ascii := chr 34.

(** [repr(s)]: single quotes, unless [s] has a single and no double quote. *)
Definition repr_str (s : string) : string :=
  let q := if contains_char "'"%char s && negb (contains_char DQUOTE s)
           then DQUOTE else "'"%char in
  String q (repr_chars q s) +:+ String q "".

Definition repr_key (k : key) : string :=
  match k with
  | KInt n => pretty n
  | KStr s => repr_str s
  end.

Fixpoint py_repr (v : value) : string :=
  match v with
  | VStr s => repr_str s
  | VNum shown => shown
  | VDict d =>
      "{" +:+
      (fix entries (d : pydict) : string :=
         match d with
         | [] => ""
         | (k, v) :: d' =>
             repr_key k +:+ ": " +:+ py_repr v +:+
             match d' with [] => "" | _ => ", " +:+ entries d' end
         end) d
      +:+ "}"
  end.

(** [str(v)] *)
Definition py_str (v : value) : string :=
  match v with
  | VStr s => s
  | _ => py_repr v
  end.

(** A value used where Python needs text ([+] with a [str]). *)
Definition as_str (v : value) : result string :=
  match v with
  | VStr s => Ok s
  | _ => Raise TypeError
  end.

(** ** The tokenizer, [_tokenize_glm] (on the text; reading the file is
    outside the model) *)

(** [re.sub(r'http:\/\/', '', data)]: [skip] counts the characters of a
    match still to be dropped. *)
Fixpoint remove_http_from (skip : nat) (s : string) : string :=
  match s with
  | EmptyString => EmptyString
  | String c s' =>
      match skip with
      | S k => remove_http_from k s'
      | O => if String.prefix "http://" s then remove_http_from 6 s'
             else String c (remove_http_from 0 s')
      end
  end.

Definition remove_http (s : string) : string := remove_http_from 0 s.

(** The whitespace class [\s] of a text pattern, on code points below 256. *)
Definition is_space (c : ascii) : bool :=
  let n := nat_of_ascii c in
  ((9 <=? n)%nat && (n <=? 13)%nat) || ((28 <=? n)%nat && (n <=? 32)%nat)
  || (n =? 133)%nat || (n =? 160)%nat.

(** The comment pattern of [re.sub]: two slashes, any characters up to the
    end of the line ([.] stops at a line feed), then the run of whitespace
    that follows; each match is replaced by the empty text. *)
Inductive comment_mode := Code | InComment | AfterComment.

Fixpoint strip_comments_from (m : comment_mode) (s : string) : string :=
  match s with
  | EmptyString => EmptyString
  | String c s' =>
      let code :=
        if String.prefix "//" s then strip_comments_from InComment s'
        else String c (strip_comments_from Code s') in
      match m with
      | Code => code
      | InComment =>
          if Ascii.eqb c LF then strip_comments_from AfterComment s'
          else strip_comments_from InComment s'
      | AfterComment =>
          if is_space c then strip_comments_from AfterComment s' else code
      end
  end.

Definition strip_comments (s : string) : string := strip_comments_from Code s.

(** The separators of [re.split(r'(;|\}|\{|\s)', data)]. *)
Definition is_delim (c : ascii) : bool :=
  Ascii.eqb c ";"%char || Ascii.eqb c "}"%char || Ascii.eqb c "{"%char
  || is_space c.

(** [re.split] with a capturing group: the pieces and the separators,
    alternating; [cur] is the piece being read. *)
Fixpoint re_split (cur : string) (s : string) : list string :=
  match s with
  | EmptyString => [cur]
  | String c s' =>
      if is_delim c then cur :: String c "" :: re_split "" s'
      else re_split (cur +:+ String c "") s'
  end.

Definition keep_token (x : string) : bool :=
  negb (String.eqb x "") && negb (String.eqb x " ").

Definition _tokenize_glm (input_str : string) : list string :=
  let data := remove_http input_str in
  let data := strip_comments data in
  let data := replace_char TAB " "%char (remove_char CR data) in
  let tokenized := re_split "" data in
  filter (fun x => keep_token x = true) tokenized.

(** ** The tree builder, [_parse_token_list] *)

(** [list_in[a:-b]] for [b > 0]. *)
Definition slice {A} (a b : nat) (l : list A) : list A :=
  take (length l - b - a)%nat (drop a l).

(** [list_to_string]: [reduce] without an initial value raises [TypeError]
    on an empty sequence. *)
Definition list_to_string (list_in : list string) : result string :=
  match list_in with
  | [] => Ok ""
  | _ => match slice 1 1 list_in with
         | [] => Raise TypeError
         | inner => Ok (join_space inner)
         end
  end.

(** [current_leaf_add]: walk down the open items, then assign.  The
    nested dictionaries are updated in place, so the walk rebuilds the
    path. *)
Fixpoint current_leaf_add (key_f : key) (v : value) (tree_f : pydict)
    (guid_stack_f : list Z) : result pydict :=
  match guid_stack_f with
  | [] => Ok (dict_set key_f v tree_f)
  | x :: below =>
      match dict_get (KInt x) tree_f with
      | Some (VDict current) =>
          current' <- current_leaf_add key_f v current below ;;
          Ok (dict_set (KInt x) (VDict current') tree_f)
      | Some _ => Raise TypeError
      | None => Raise KeyError
      end
  end.

Definition terminators : list string := ["{"; ";"; "}"; nl; "shape"].

Definition is_terminator (t : string) : bool :=
  existsb (String.eqb t) terminators.

(** The inner [while]: pop tokens until the last one collected is a
    terminator.  The source pops from the end of the reversed list, that is
    from the front of the token list. *)
Fixpoint collect (full_token token_list : list string)
  : result (list string * list string) :=
  match token_list with
  | [] => Raise IndexError
  | t :: rest =>
      if is_terminator t then Ok (full_token ++ [t], rest)
      else collect (full_token ++ [t]) rest
  end.

Definition last_token (full_token : list string) : string :=
  List.last full_token "".

Definition first_token (full_token : list string) : string :=
  List.hd "" full_token.

(** [while full_token[-1] not in [stop]: full_token.append(token_list.pop())] *)
Fixpoint collect_until (stop : string) (full_token token_list : list string)
  : result (list string * list string) :=
  match token_list with
  | [] =>
      if String.eqb (last_token full_token) stop then Ok (full_token, [])
      else Raise IndexError
  | t :: rest =>
      if String.eqb (last_token full_token) stop
      then Ok (full_token, token_list)
      else collect_until stop (full_token ++ [t]) rest
  end.

Record parser_state := ParserState {
  tree : pydict;
  guid : Z;
  guid_stack : list Z
}.

Definition directive (full_token : list string) (st : parser_state)
  : result parser_state :=
  argument <- list_to_string full_token ;;
  let item :=
    if String.eqb (last_token full_token) ";"
    then [(KStr "omftype", VStr (first_token full_token));
          (KStr "argument", VStr argument)]
    else [(KStr (first_token full_token), VStr argument)] in
  Ok (ParserState (dict_set (KInt (guid st)) (VDict item) (tree st))
        (guid st + 1) (guid_stack st)).

(** [guid_stack.pop()] *)
Definition pop_stack (guid_stack : list Z) : result (list Z) :=
  match guid_stack with
  | [] => Raise IndexError
  | _ => Ok (removelast guid_stack)
  end.

(** One turn of the outer [while] once a full token is collected. *)
Definition dispatch (st : parser_state) (full_token token_list : list string)
  : result (parser_state * list string) :=
  let first := first_token full_token in
  let last := last_token full_token in
  if String.eqb first "#set" then
    st' <- directive full_token st ;; Ok (st', token_list)
  else if String.eqb first "#include" then
    st' <- directive full_token st ;; Ok (st', token_list)
  else if String.eqb first "shape" then
    r <- collect_until nl full_token token_list ;;
    let '(full_token, token_list) := r in
    if (length full_token <? 2)%nat then Raise IndexError else
    let full_token := <[(length full_token - 2)%nat := ""]> full_token in
    body <- list_to_string (removelast full_token) ;;
    tree' <- current_leaf_add (KStr (first_token full_token)) (VStr body)
               (tree st) (guid_stack st) ;;
    Ok (ParserState tree' (guid st + 1) (guid_stack st), token_list)
  else if String.eqb last nl || String.eqb last ";" then
    if bool_decide (guid_stack st = []) && negb (bool_decide (full_token = [nl]))
       && negb (bool_decide (full_token = [";"])) then
      argument <- list_to_string full_token ;;
      Ok (ParserState
            (dict_set (KInt (guid st))
               (VDict [(KStr "omftype", VStr first);
                       (KStr "argument", VStr argument)]) (tree st))
            (guid st + 1) (guid_stack st), token_list)
    else if (1 <? length full_token)%nat then
      v <- list_to_string full_token ;;
      tree' <- current_leaf_add (KStr first) (VStr v) (tree st) (guid_stack st) ;;
      Ok (ParserState tree' (guid st) (guid_stack st), token_list)
    else Ok (st, token_list)
  else if String.eqb last "}" then
    tree' <- (if (1 <? length full_token)%nat then
                v <- list_to_string full_token ;;
                current_leaf_add (KStr first) (VStr v) (tree st) (guid_stack st)
              else Ok (tree st)) ;;
    stack' <- pop_stack (guid_stack st) ;;
    Ok (ParserState tree' (guid st) stack', token_list)
  else if String.eqb first "schedule" then
    r <- collect_until "}" full_token token_list ;;
    let '(full_token, token_list) := r in
    match full_token !! 1%nat with
    | None => Raise IndexError
    | Some name =>
        let item := [(KStr "object", VStr "schedule");
                     (KStr "name", VStr name);
                     (KStr "cron", VStr (join_space (slice 3 2 full_token)))] in
        Ok (ParserState (dict_set (KInt (guid st)) (VDict item) (tree st))
              (guid st + 1) (guid_stack st), token_list)
    end
  else if String.eqb last "{" then
    tree1 <- current_leaf_add (KInt (guid st)) (VDict []) (tree st) (guid_stack st) ;;
    let stack' := guid_stack st ++ [guid st] in
    tree2 <- (if (1 <? length full_token)%nat then
                if (length full_token <? 4)%nat then
                  current_leaf_add (KStr first)
                    (VStr (List.nth (length full_token - 2) full_token ""))
                    tree1 stack'
                else
                  header <- list_to_string full_token ;;
                  current_leaf_add (KStr "omfEmbeddedConfigObject")
                    (VStr (first +:+ " " +:+ header)) tree1 stack'
              else Ok tree1) ;;
    Ok (ParserState tree2 (guid st + 1) stack', token_list)
  else Ok (st, token_list).

(** The outer [while token_list:].  Every turn pops at least one token, so
    the length of the token list is fuel enough ([build_tree_fuel]). *)
Fixpoint build_tree (fuel : nat) (token_list : list string) (st : parser_state)
  : result pydict :=
  match token_list with
  | [] => Ok (tree st)
  | _ =>
      match fuel with
      | O => Raise OutOfModel
      | S fuel' =>
          r <- collect [] token_list ;;
          let '(full_token, token_list) := r in
          r' <- dispatch st full_token token_list ;;
          let '(st', token_list) := r' in
          build_tree fuel' token_list st'
      end
  end.

(** *** The pass over the finished tree that translates the old syntax *)

Definition COLON : ascii := ":"%char.
Definition UNDERSCORE : ascii := "_"%char.
Definition HYPHEN : ascii := "-"%char.

(** [v.replace(a, b)]: text has the method, numbers and dictionaries do
    not. *)
Definition value_replace (a b : ascii) (v : value) : result value :=
  match v with
  | VStr s => Ok (VStr (replace_char a b s))
  | _ => Raise AttributeError
  end.

(** [for line in item: item[line] = item[line].replace(':', '_')] *)
Fixpoint replace_colons (item : pydict) : result pydict :=
  match item with
  | [] => Ok []
  | (line, v) :: item' =>
      v' <- value_replace COLON UNDERSCORE v ;;
      item'' <- replace_colons item' ;;
      Ok ((line, v') :: item'')
  end.

(** [if k in item: item[k] = item[k].replace('-', '_')] *)
Definition replace_hyphens (k : string) (item : pydict) : result pydict :=
  match dict_get (KStr k) item with
  | None => Ok item
  | Some v =>
      v' <- value_replace HYPHEN UNDERSCORE v ;;
      Ok (dict_set (KStr k) v' item)
  end.

(** [v == text] *)
Definition is_text (text : string) (v : value) : bool :=
  match v with
  | VStr s => String.eqb s text
  | _ => false
  end.

Definition is_recorder (obj_type : value) : bool :=
  is_text "recorder" obj_type || is_text "group_recorder" obj_type
  || is_text "collector" obj_type.

(** The body of the loop for one [tree[key]]; the flag says whether the
    key is appended to [objects_to_delete]. *)
Definition legacy_item (item : pydict) : result (pydict * bool) :=
  match dict_get (KStr "object") item with
  | None => Ok (item, false)
  | Some obj =>
      item <- (if negb (dict_mem (KStr "name") item) then
                 match obj with
                 | VStr o =>
                     if contains_char COLON o
                     then Ok (dict_set (KStr "name")
                                (VStr (replace_char COLON UNDERSCORE o)) item)
                     else Ok item
                 | _ => Raise AttributeError
                 end
               else Ok item) ;;
      item <- match obj with
              | VStr o => Ok (dict_set (KStr "object")
                                (VStr (before_char COLON o)) item)
              | _ => Raise AttributeError
              end ;;
      item <- replace_colons item ;;
      let obj_type := default (VStr "") (dict_get (KStr "object") item) in
      let delete := is_recorder obj_type in
      let item :=
        if is_text "fuse" obj_type
           && negb (dict_mem (KStr "mean_replacement_time") item)
        then dict_set (KStr "mean_replacement_time") (VNum "3600.0") item
        else item in
      item <- replace_hyphens "name" item ;;
      item <- replace_hyphens "parent" item ;;
      item <- replace_hyphens "from" item ;;
      item <- replace_hyphens "to" item ;;
      Ok (item, delete)
  end.

(** [for key in list(tree.keys())]: a top-level entry that is not a
    dictionary has no [keys] method. *)
Fixpoint legacy_pass (tree : pydict) : result (pydict * list key) :=
  match tree with
  | [] => Ok ([], [])
  | (k, VDict item) :: tree' =>
      r <- legacy_item item ;;
      let '(item', delete) := r in
      r' <- legacy_pass tree' ;;
      let '(tree'', objects_to_delete) := r' in
      Ok ((k, VDict item') :: tree'',
          if delete then k :: objects_to_delete else objects_to_delete)
  | (k, _) :: _ => Raise AttributeError
  end.

(** The tree as the loop leaves it, before the pass. *)
Definition raw_tree (token_list : list string) : result pydict :=
  build_tree (length token_list) token_list (ParserState [] 0 []).

(** The section of [_parse_token_list] that catches the old format: the
    pass, then [for keys in objects_to_delete: del tree[keys]]. *)
Definition translate_old_format (raw : pydict) : result pydict :=
  r <- legacy_pass raw ;;
  let '(tree, objects_to_delete) := r in
  Ok (fold_left (fun t k => dict_del k t) objects_to_delete tree).

Definition _parse_token_list (token_list : list string) : result pydict :=
  raw <- raw_tree token_list ;;
  translate_old_format raw.

(** [parse(input_str, file_path=False)] *)
Definition parse (input_str : string) : result pydict :=
  _parse_token_list (_tokenize_glm input_str).

(** ** The serializer: [sorted_write], [_dict_to_string],
    [_gather_key_values] *)

(** The whitespace [int()] strips around a numeral (code points below
    256). *)
Definition int_space (c : ascii) : bool :=
  let n := nat_of_ascii c in
  ((9 <=? n)%nat && (n <=? 13)%nat) || (n =? 32)%nat || (n =? 133)%nat
  || (n =? 160)%nat.

Fixpoint lstrip (s : string) : string :=
  match s with
  | String c s' => if int_space c then lstrip s' else s
  | EmptyString => EmptyString
  end.

Definition digit_of (c : ascii) : option Z :=
  let n := nat_of_ascii c in
  if (48 <=? n)%nat && (n <=? 57)%nat then Some (Z.of_nat n - 48) else None.

(** Digits, single underscores allowed between two digits; trailing
    whitespace allowed.  [after_digit] says whether the previous character
    was a digit. *)
Fixpoint int_digits (acc : Z) (after_digit : bool) (s : string) : option Z :=
  match s with
  | EmptyString => if after_digit then Some acc else None
  | String c s' =>
      match digit_of c with
      | Some d => int_digits (10 * acc + d) true s'
      | None =>
          if Ascii.eqb c "_"%char && after_digit then
            match s' with
            | String c' _ =>
                match digit_of c' with
                | Some _ => int_digits acc false s'
                | None => None
                end
            | EmptyString => None
            end
          else if after_digit && String.eqb (lstrip s) "" then Some acc
          else None
      end
  end.

(** [int(s)] for text. *)
Definition py_int (s : string) : result Z :=
  let s := lstrip s in
  let '(sign, digits) :=
    match s with
    | String "-"%char s' => (-1, s')
    | String "+"%char s' => (1, s')
    | _ => (1, s)
    end in
  match int_digits 0 false digits with
  | Some n => Ok (sign * n)
  | None => Raise ValueError
  end.

Definition int_of_key (k : key) : result Z :=
  match k with
  | KInt n => Ok n
  | KStr s => py_int s
  end.

(** [sorted(keys, key=int)]: a stable sort on the integer of each key.
    [sort_keys] inserts a key into the sorted keys that follow it in the
    dictionary, so the key goes before the keys of the same integer. *)
Fixpoint insert_sorted (n : Z) (k : key) (l : list (Z * key)) : list (Z * key) :=
  match l with
  | [] => [(n, k)]
  | (m, k') :: l' =>
      if n <=? m then (n, k) :: l else (m, k') :: insert_sorted n k l'
  end.

Fixpoint sort_keys (keys : list key) : result (list (Z * key)) :=
  match keys with
  | [] => Ok []
  | k :: keys' =>
      sorted <- sort_keys keys' ;;
      n <- int_of_key k ;;
      Ok (insert_sorted n k sorted)
  end.

(** [len(v)] *)
Definition py_len (v : value) : result nat :=
  match v with
  | VStr s => Ok (String.length s)
  | VDict d => Ok (length d)
  | VNum _ => Raise TypeError
  end.

(** [v[x]] for an integer [x] in range of [len(v)]. *)
Definition py_index (v : value) (x : nat) : result value :=
  match v with
  | VStr s => match String.get x s with
              | Some c => Ok (VStr (String c ""))
              | None => Raise IndexError
              end
  | VDict d => match dict_get (KInt (Z.of_nat x)) d with
               | Some v' => Ok v'
               | None => Raise KeyError
               end
  | VNum _ => Raise TypeError
  end.

(** One field of [_gather_key_values], for a text key other than
    [key_to_avoid]. *)
Definition field_line (k : string) (v : value) : result string :=
  if String.eqb k "comment" then
    s <- as_str v ;; Ok (s +:+ nl)
  else if String.eqb k "name" || String.eqb k "parent" then
    n <- py_len v ;;
    if (n <=? 62)%nat then Ok (tab +:+ k +:+ " " +:+ py_str v +:+ ";" +:+ nl)
    else
      s <- as_str v ;;
      Ok (tab +:+ k +:+ " " +:+ take_str 62 s +:+ "; // truncated from "
          +:+ s +:+ nl)
  else Ok (tab +:+ k +:+ " " +:+ py_str v +:+ ";" +:+ nl).

(** The paired declarations of a class: [variable_types[x]] and
    [variable_names[x]] for [x] in [range(n)]. *)
Fixpoint class_lines (types names : value) (x n : nat) : result string :=
  match n with
  | O => Ok ""
  | S n' =>
      t <- py_index types x ;;
      t <- as_str t ;;
      m <- py_index names x ;;
      m <- as_str m ;;
      more <- class_lines types names (S x) n' ;;
      Ok (tab +:+ t +:+ " " +:+ m +:+ ";" +:+ nl +:+ more)
  end.

(** [d[k]] *)
Definition dict_item (k : string) (d : pydict) : result value :=
  match dict_get (KStr k) d with
  | Some v => Ok v
  | None => Raise KeyError
  end.

(** [d[k]] used as text. *)
Definition text_item (k : string) (d : pydict) : result string :=
  v <- dict_item k d ;; as_str v.

(** An optional line of the clock. *)
Definition clock_line (k : string) (d : pydict) : result string :=
  if dict_mem (KStr k) d then
    s <- text_item k d ;; Ok (tab +:+ k +:+ " " +:+ s +:+ ";" +:+ nl)
  else Ok "".

(** A function that falls off its end returns [None]; adding text to it
    raises [TypeError]. *)
Definition not_none (r : option string) : result string :=
  match r with
  | Some s => Ok s
  | None => Raise TypeError
  end.

(** [_dict_to_string].  The source is called on the entries of a tree,
    which are dictionaries; on text its [in] tests are substring tests and
    its lookups raise, on a number [in] raises. *)
Fixpoint _dict_to_string (in_dict : value) : result (option string) :=
  match in_dict with
  | VDict d =>
      let gather (key_to_avoid : string) :=
        (fix gather (entries : pydict) : result string :=
           match entries with
           | [] => Ok ""
           | (KInt _, v) :: entries' =>
               r <- _dict_to_string v ;;
               s <- not_none r ;;
               more <- gather entries' ;;
               Ok (s +:+ more)
           | (KStr k, v) :: entries' =>
               s <- (if String.eqb k key_to_avoid then Ok ""
                     else field_line k v) ;;
               more <- gather entries' ;;
               Ok (s +:+ more)
           end) d in
      if dict_mem (KStr "omftype") d then
        t <- text_item "omftype" d ;;
        a <- text_item "argument" d ;;
        Ok (Some (t +:+ " " +:+ a +:+ ";"))
      else if dict_mem (KStr "module") d then
        m <- text_item "module" d ;;
        fields <- gather "module" ;;
        Ok (Some ("module " +:+ m +:+ " {" +:+ nl +:+ fields +:+ "}" +:+ nl))
      else if dict_mem (KStr "clock") d then
        tz <- clock_line "timezone" d ;;
        st <- clock_line "starttime" d ;;
        sp <- clock_line "stoptime" d ;;
        Ok (Some ("clock {" +:+ nl +:+ tz +:+ st +:+ sp +:+ "}" +:+ nl))
      else if dict_mem (KStr "object") d
              && is_text "schedule" (default (VStr "") (dict_get (KStr "object") d))
      then
        name <- text_item "name" d ;;
        cron <- text_item "cron" d ;;
        Ok (Some ("schedule " +:+ name +:+ " {" +:+ nl +:+ cron +:+ nl
                  +:+ "};" +:+ nl))
      else if dict_mem (KStr "object") d then
        o <- text_item "object" d ;;
        fields <- gather "object" ;;
        Ok (Some ("object " +:+ o +:+ " {" +:+ nl +:+ fields +:+ "};" +:+ nl))
      else if dict_mem (KStr "omfEmbeddedConfigObject") d then
        h <- text_item "omfEmbeddedConfigObject" d ;;
        fields <- gather "omfEmbeddedConfigObject" ;;
        Ok (Some (h +:+ " {" +:+ nl +:+ fields +:+ "};" +:+ nl))
      else if dict_mem (KStr "#include") d then
        a <- text_item "#include" d ;; Ok (Some ("#include " +:+ a))
      else if dict_mem (KStr "#define") d then
        a <- text_item "#define" d ;; Ok (Some ("#define " +:+ a +:+ nl))
      else if dict_mem (KStr "#set") d then
        a <- text_item "#set" d ;; Ok (Some ("#set " +:+ a))
      else if dict_mem (KStr "class") d then
        match dict_get (KStr "variable_types") d,
              dict_get (KStr "variable_names") d with
        | Some types, Some names =>
            n <- py_len types ;;
            n' <- py_len names ;;
            if (n =? n')%nat then
              c <- text_item "class" d ;;
              lines <- class_lines types names 0 n ;;
              Ok (Some ("class " +:+ c +:+ " {" +:+ nl +:+ lines +:+ "}" +:+ nl))
            else
              c <- text_item "class" d ;;
              fields <- gather "class" ;;
              Ok (Some ("class " +:+ c +:+ " {" +:+ nl +:+ fields +:+ "}" +:+ nl))
        | _, _ =>
            c <- text_item "class" d ;;
            fields <- gather "class" ;;
            Ok (Some ("class " +:+ c +:+ " {" +:+ nl +:+ fields +:+ "}" +:+ nl))
        end
      else Ok None
  | VStr s =>
      if substring_of "omftype" s || substring_of "module" s then Raise TypeError
      else if substring_of "clock" s then
        if substring_of "timezone" s || substring_of "starttime" s
           || substring_of "stoptime" s then Raise TypeError
        else Ok (Some ("clock {" +:+ nl +:+ "}" +:+ nl))
      else if substring_of "object" s
              || substring_of "omfEmbeddedConfigObject" s
              || substring_of "#include" s || substring_of "#define" s
              || substring_of "#set" s then Raise TypeError
      else if substring_of "class" s then Raise AttributeError
      else Ok None
  | VNum _ => Raise TypeError
  end.

(** [_gather_key_values]: an integer key holds a nested item, rendered by
    [_dict_to_string]; the other keys are fields. *)
Fixpoint _gather_key_values (in_dict : pydict) (key_to_avoid : string)
  : result string :=
  match in_dict with
  | [] => Ok ""
  | (KInt _, v) :: entries' =>
      r <- _dict_to_string v ;;
      s <- not_none r ;;
      more <- _gather_key_values entries' key_to_avoid ;;
      Ok (s +:+ more)
  | (KStr k, v) :: entries' =>
      s <- (if String.eqb k key_to_avoid then Ok "" else field_line k v) ;;
      more <- _gather_key_values entries' key_to_avoid ;;
      Ok (s +:+ more)
  end.

(** The loop of [sorted_write]: [output += _dict_to_string(in_tree[key]) +
    '\n']. *)
Fixpoint write_items (in_tree : pydict) (sorted_keys : list (Z * key))
  : result string :=
  match sorted_keys with
  | [] => Ok ""
  | (_, k) :: keys' =>
      match dict_get k in_tree with
      | None => Raise KeyError
      | Some item =>
          r <- _dict_to_string item ;;
          s <- not_none r ;;
          more <- write_items in_tree keys' ;;
          Ok (s +:+ nl +:+ more)
      end
  end.

Definition sorted_write (in_tree : pydict) : result string :=
  sorted_keys <- sort_keys (dict_keys in_tree) ;;
  write_items in_tree sorted_keys.

(** ** The manager, [GLMManager]

    The dictionaries of the items are objects: the tree, the index and
    the caller hold references to them, and the manager changes them in
    place.  [store] maps a reference to the current content of its
    dictionary. *)

Abbreviation loc := nat.

(** An entry of the index, [[model_key, item_dict]]. *)
Abbreviation key_obj := (Z * loc)%type.

Record GLMManager := Manager {
  store : gmap loc pydict;
  model_dict : gmap Z loc;
  append_key : Z;
  prepend_key : Z;
  (* model_map['clock'], [] or [model_key, clock_dict] *)
  map_clock : option key_obj;
  (* model_map['module'] *)
  map_module : gmap string key_obj;
  (* model_map['object'] *)
  map_object : gmap string (gmap string key_obj);
  (* model_map['object_unnamed'] *)
  map_object_unnamed : list key_obj
}.

(** A method: it may raise, and what it changed before raising stays
    changed. *)
Definition M (A : Type) : Type := GLMManager -> result A * GLMManager.

Definition mret {A} (a : A) : M A := fun m => (Ok a, m).
Definition mraise {A} (e : exn) : M A := fun m => (Raise e, m).
Definition mbind {A B} (c : M A) (f : A -> M B) : M B :=
  fun m => match c m with
           | (Ok a, m') => f a m'
           | (Raise e, m') => (Raise e, m')
           end.
Definition mlift {A} (r : result A) : M A := fun m => (r, m).
Definition mget : M GLMManager := fun m => (Ok m, m).
Definition mmodify (f : GLMManager -> GLMManager) : M unit :=
  fun m => (Ok tt, f m).

Notation "x <~ c ;; k" := (mbind c (fun x => k))
  (at level 100, c at next level, right associativity).
Notation "c ;;; k" := (mbind c (fun _ => k))
  (at level 100, right associativity).

Definition set_store (f : gmap loc pydict -> gmap loc pydict) (m : GLMManager) :=
  Manager (f (store m)) (model_dict m) (append_key m) (prepend_key m)
    (map_clock m) (map_module m) (map_object m) (map_object_unnamed m).
Definition set_model_dict (f : gmap Z loc -> gmap Z loc) (m : GLMManager) :=
  Manager (store m) (f (model_dict m)) (append_key m) (prepend_key m)
    (map_clock m) (map_module m) (map_object m) (map_object_unnamed m).
Definition set_append_key (k : Z) (m : GLMManager) :=
  Manager (store m) (model_dict m) k (prepend_key m)
    (map_clock m) (map_module m) (map_object m) (map_object_unnamed m).
Definition set_prepend_key (k : Z) (m : GLMManager) :=
  Manager (store m) (model_dict m) (append_key m) k
    (map_clock m) (map_module m) (map_object m) (map_object_unnamed m).
Definition set_map_clock (c : option key_obj) (m : GLMManager) :=
  Manager (store m) (model_dict m) (append_key m) (prepend_key m)
    c (map_module m) (map_object m) (map_object_unnamed m).
Definition set_map_module (f : gmap string key_obj -> gmap string key_obj)
    (m : GLMManager) :=
  Manager (store m) (model_dict m) (append_key m) (prepend_key m)
    (map_clock m) (f (map_module m)) (map_object m) (map_object_unnamed m).
Definition set_map_object
    (f : gmap string (gmap string key_obj) -> gmap string (gmap string key_obj))
    (m : GLMManager) :=
  Manager (store m) (model_dict m) (append_key m) (prepend_key m)
    (map_clock m) (map_module m) (f (map_object m)) (map_object_unnamed m).
Definition set_map_object_unnamed (f : list key_obj -> list key_obj)
    (m : GLMManager) :=
  Manager (store m) (model_dict m) (append_key m) (prepend_key m)
    (map_clock m) (map_module m) (map_object m) (f (map_object_unnamed m)).

(** The dictionary behind a reference. *)
Definition deref (l : loc) : M pydict :=
  fun m => match store m !! l with
           | Some d => (Ok d, m)
           | None => (Raise OutOfModel, m)
           end.

(** Change the dictionary behind a reference in place. *)
Definition update (l : loc) (d : pydict) : M unit :=
  mmodify (set_store (fun s => <[l := d]> s)).

(** A value used as a name in the index.  The names the index holds are
    text (the parser produces text and [add_item] coerces to text first);
    a dictionary is not hashable. *)
Definition lookup_name (v : value) : result string :=
  match v with
  | VStr s => Ok s
  | VNum _ => Raise KeyError
  | VDict _ => Raise TypeError
  end.

Definition insert_name (v : value) : result string :=
  match v with
  | VStr s => Ok s
  | VNum _ => Raise OutOfModel
  | VDict _ => Raise TypeError
  end.

(** [_get_item_type] *)
Definition _get_item_type (item_dict : pydict) : result string :=
  if dict_mem (KStr "object") item_dict then Ok "object"
  else if dict_mem (KStr "module") item_dict then Ok "module"
  else if dict_mem (KStr "clock") item_dict then Ok "clock"
  else if dict_mem (KStr "#include") item_dict then Ok "include"
  else if dict_mem (KStr "#set") item_dict then Ok "set"
  else if dict_mem (KStr "omftype") item_dict then Ok "omftype"
  else Raise (UserWarning UnknownType).

Definition no_map : list string := ["set"; "include"].
Definition non_objects : list string :=
  ["clock"; "module"; "include"; "set"; "omftype"].

Definition _update_append_key : M unit :=
  mmodify (fun m => set_append_key (append_key m + 1) m).

Definition _update_prepend_key : M unit :=
  mmodify (fun m => set_prepend_key (prepend_key m - 1) m).

(** [_add_clock_to_map] *)
Definition _add_clock_to_map (model_key : Z) (clock_dict : loc) : M unit :=
  m <~ mget ;;
  match map_clock m with
  | Some _ => mraise (UserWarning MultipleClocks)
  | None => mmodify (set_map_clock (Some (model_key, clock_dict)))
  end.

(** [_add_module_to_map] *)
Definition _add_module_to_map (model_key : Z) (module_dict : loc) : M unit :=
  d <~ deref module_dict ;;
  module_name <~ mlift
    (if dict_mem (KStr "module") d then dict_item "module" d
     else if dict_mem (KStr "omftype") d then dict_item "argument" d
     else Raise (UserWarning MalformedModule)) ;;
  name <~ mlift (insert_name module_name) ;;
  m <~ mget ;;
  match map_module m !! name with
  | Some _ => mraise (UserWarning (ModuleAlreadyPresent name))
  | None => mmodify (set_map_module (fun mm => <[name := (model_key, module_dict)]> mm))
  end.

(** [if obj_type not in object_map: object_map[obj_type] = {}] *)
Definition ensure_type (obj_type : string)
    (object_map : gmap string (gmap string key_obj))
  : gmap string (gmap string key_obj) :=
  match object_map !! obj_type with
  | None => <[obj_type := ∅]> object_map
  | Some _ => object_map
  end.

(** [_add_object_to_map] *)
Definition _add_object_to_map (model_key : Z) (object_dict : loc) : M unit :=
  d <~ deref object_dict ;;
  obj_type <~ mlift (dict_item "object" d) ;;
  obj_type <~ mlift (insert_name obj_type) ;;
  mmodify (set_map_object (ensure_type obj_type)) ;;;
  match dict_get (KStr "name") d with
  | None =>
      (* KeyError: an unnamed object *)
      mmodify (set_map_object_unnamed (fun l => l ++ [(model_key, object_dict)]))
  | Some name =>
      name <~ mlift (insert_name name) ;;
      m <~ mget ;;
      let of_type := default ∅ (map_object m !! obj_type) in
      match of_type !! name with
      | Some _ => mraise (UserWarning (ObjectAlreadyExists name obj_type))
      | None =>
          mmodify (set_map_object (fun om =>
            <[obj_type := <[name := (model_key, object_dict)]> of_type]> om))
      end
  end.

(** [_map_model_dict]: [items] are the entries of [model_dict] in the
    order of the dictionary. *)
Definition map_item (entry : key_obj) : M unit :=
  let '(model_key, item_dict) := entry in
  d <~ deref item_dict ;;
  item_type <~ mlift (_get_item_type d) ;;
  if String.eqb item_type "object" then _add_object_to_map model_key item_dict
  else if String.eqb item_type "clock" then _add_clock_to_map model_key item_dict
  else if String.eqb item_type "module" then _add_module_to_map model_key item_dict
  else if String.eqb item_type "omftype" then
    omftype <~ mlift (dict_item "omftype" d) ;;
    if is_text "module" omftype then _add_module_to_map model_key item_dict
    else mret tt
  else if existsb (String.eqb item_type) no_map then mret tt
  else mraise (UserWarning UnimplementedItem).

Fixpoint _map_model_dict (items : list key_obj) : M unit :=
  match items with
  | [] => mret tt
  | entry :: items' => map_item entry ;;; _map_model_dict items'
  end.

(** The keys of the parsed tree as integers: [max] and [min] compare
    them and [+ 1] adds to the result, so a text key raises [TypeError]. *)
Fixpoint int_keys (tree : pydict) : result (list Z) :=
  match tree with
  | [] => Ok []
  | (KInt n, _) :: tree' => ns <- int_keys tree' ;; Ok (n :: ns)
  | (KStr _, _) :: _ => Raise TypeError
  end.

Definition max_keys (first : Z) (keys : list Z) : Z := fold_left Z.max keys first.
Definition min_keys (first : Z) (keys : list Z) : Z := fold_left Z.min keys first.

(** The dictionaries of the parsed tree become objects of the store, the
    entry at position [i] of the tree at reference [next + i].  Every
    entry of a tree that [parse] returns is a dictionary with an integer
    key ([parse_entries]). *)
Fixpoint load (next : loc) (tree : pydict) : result (list (Z * loc * pydict)) :=
  match tree with
  | [] => Ok []
  | (KInt n, VDict d) :: tree' =>
      rest <- load (S next) tree' ;; Ok ((n, next, d) :: rest)
  | _ :: _ => Raise OutOfModel
  end.

(** [GLMManager.__init__(model, model_is_path=False)] *)
Definition __init__ (model : string) : result GLMManager :=
  tree <- parse model ;;
  match tree with
  | [] => Raise ValueError
  | _ =>
      keys <- int_keys tree ;;
      let first := List.hd 0 keys in
      entries <- load 0%nat tree ;;
      let m := Manager
                 (list_to_map (map (fun e => (snd (fst e), snd e)) entries))
                 (list_to_map (map fst entries))
                 (max_keys first keys + 1) (min_keys first keys - 1)
                 None ∅ ∅ [] in
      match _map_model_dict (map fst entries) m with
      | (Ok _, m') => Ok m'
      | (Raise e, _) => Raise e
      end
  end.

(** The loop of [add_item] that casts the values to text: it stops at the
    first key that is not text, with the earlier values already cast.  The
    flag says whether it reached the end. *)
Fixpoint cast_values (item : pydict) : pydict * bool :=
  match item with
  | [] => ([], true)
  | (KStr k, v) :: item' =>
      let '(item'', all) := cast_values item' in
      ((KStr k, VStr (py_str v)) :: item'', all)
  | (KInt n, v) :: item' => ((KInt n, v) :: item', false)
  end.

(** [_add_object] *)
Definition _add_object (object_dict : loc) : M unit :=
  m <~ mget ;;
  _add_object_to_map (append_key m) object_dict ;;;
  mmodify (set_model_dict (fun md => <[append_key m := object_dict]> md)) ;;;
  _update_append_key.

(** The first part of [_add_non_object], under its comment [# Map item.] *)
Definition map_non_object (item_type : string) (model_key : Z)
    (item_dict : loc) : M unit :=
  if String.eqb item_type "clock" then _add_clock_to_map model_key item_dict
  else if String.eqb item_type "module" then
    _add_module_to_map model_key item_dict
  else if existsb (String.eqb item_type) no_map then mret tt
  else mraise (UserWarning (NoAddMethod item_type)).

(** [_add_non_object] *)
Definition _add_non_object (item_type : string) (item_dict : loc) : M unit :=
  m <~ mget ;;
  map_non_object item_type (prepend_key m) item_dict ;;;
  mmodify (set_model_dict (fun md => <[prepend_key m := item_dict]> md)) ;;;
  _update_prepend_key.

(** [add_item]: the argument is the caller's dictionary. *)
Definition add_item (item_dict : loc) : M unit :=
  d <~ deref item_dict ;;
  item_type <~ mlift (_get_item_type d) ;;
  let '(d', all_text) := cast_values d in
  update item_dict d' ;;;
  if negb all_text then mraise (UserWarning KeysMustBeStrings)
  else if String.eqb item_type "object" then _add_object item_dict
  else if existsb (String.eqb item_type) non_objects then
    _add_non_object item_type item_dict
  else mraise (UserWarning (NoAddMethod item_type)).

(** [_find_object]: [None] when the type or the name is not indexed. *)
Definition _find_object (obj_type obj_name : value) : M (option loc) :=
  m <~ mget ;;
  match lookup_name obj_type with
  | Raise KeyError => mret None
  | Raise e => mraise e
  | Ok t =>
      match map_object m !! t with
      | None => mret None
      | Some of_type =>
          match lookup_name obj_name with
          | Raise KeyError => mret None
          | Raise e => mraise e
          | Ok n => mret (snd <$> of_type !! n)
          end
      end
  end.

(** [_lookup_object] *)
Definition _lookup_object (object_type object_name : value) : M loc :=
  found <~ _find_object object_type object_name ;;
  match found with
  | Some obj => mret obj
  | None => mraise (UserWarning (ObjectDoesNotExist object_type object_name))
  end.

(** [_lookup_module] *)
Definition _lookup_module (module_name : value) : M loc :=
  m <~ mget ;;
  match lookup_name module_name with
  | Raise KeyError => mraise (UserWarning (ModuleDoesNotExist module_name))
  | Raise e => mraise e
  | Ok n =>
      match map_module m !! n with
      | Some (_, module) => mret module
      | None => mraise (UserWarning (ModuleDoesNotExist module_name))
      end
  end.

(** [_lookup_clock] *)
Definition _lookup_clock : M loc :=
  m <~ mget ;;
  match map_clock m with
  | Some (_, clock) => mret clock
  | None => mraise (UserWarning ClockDoesNotExist)
  end.

(** [d.pop(k)] on the dictionary behind a reference. *)
Definition pop_key (l : loc) (k : key) : M value :=
  d <~ deref l ;;
  match dict_get k d with
  | None => mraise KeyError
  | Some v => update l (dict_del k d) ;;; mret v
  end.

(** [_modify_item]: [for k in update_dict: item[k] = str(update_dict[k])].
    The two may be one dictionary; the assignments then replace values of
    keys it already has, one after the other. *)
Definition _modify_item (item update_dict : loc) : M unit :=
  upd <~ deref update_dict ;;
  tgt <~ deref item ;;
  update item
    (fold_left (fun t kv => dict_set (fst kv) (VStr (py_str (snd kv))) t) upd tgt).

(** [modify_item] *)
Definition modify_item (item_dict : loc) : M unit :=
  d <~ deref item_dict ;;
  item_type <~ mlift (_get_item_type d) ;;
  if String.eqb item_type "object" then
    if negb (dict_mem (KStr "name") d) then mraise (UserWarning NameNeeded)
    else
      object_type <~ pop_key item_dict (KStr "object") ;;
      object_name <~ pop_key item_dict (KStr "name") ;;
      obj <~ _lookup_object object_type object_name ;;
      _modify_item obj item_dict
  else if String.eqb item_type "clock" then
    pop_key item_dict (KStr "clock") ;;;
    clock <~ _lookup_clock ;;
    _modify_item clock item_dict
  else if String.eqb item_type "module" then
    module_name <~ pop_key item_dict (KStr "module") ;;
    module <~ _lookup_module module_name ;;
    md <~ deref module ;;
    (if dict_mem (KStr "omftype") md then
       argument <~ mlift (dict_item "argument" md) ;;
       update module (dict_set (KStr "module") argument md) ;;;
       pop_key module (KStr "omftype") ;;;
       pop_key module (KStr "argument") ;;;
       mret tt
     else mret tt) ;;;
    _modify_item module item_dict
  else mraise (UserWarning (CannotModify item_type)).

(** [_remove_from_item]: the fields are popped one after the other. *)
Fixpoint _remove_from_item (item : loc) (remove_list : list key) : M unit :=
  match remove_list with
  | [] => mret tt
  | k :: remove_list' =>
      d <~ deref item ;;
      match dict_get k d with
      | None => mraise (UserWarning (NonexistentField k))
      | Some _ =>
          update item (dict_del k d) ;;;
          _remove_from_item item remove_list'
      end
  end.

(** [remove_properties_from_item] *)
Definition remove_properties_from_item (item_dict : loc)
    (property_list : list key) : M unit :=
  d <~ deref item_dict ;;
  item_type <~ mlift (_get_item_type d) ;;
  if String.eqb item_type "object" then
    if negb (dict_mem (KStr "name") d) then mraise (UserWarning NameNeeded)
    else
      object_type <~ mlift (dict_item "object" d) ;;
      object_name <~ mlift (dict_item "name" d) ;;
      obj <~ _lookup_object object_type object_name ;;
      _remove_from_item obj property_list
  else if String.eqb item_type "clock" then
    clock <~ _lookup_clock ;;
    _remove_from_item clock property_list
  else if String.eqb item_type "module" then
    module_name <~ mlift (dict_item "module" d) ;;
    module <~ _lookup_module module_name ;;
    _remove_from_item module property_list
  else mraise (UserWarning (CannotRemoveProperties item_type)).

(** [model_dict.pop(k)] *)
Definition pop_model_key (k : Z) : M unit :=
  m <~ mget ;;
  match model_dict m !! k with
  | None => mraise KeyError
  | Some _ => mmodify (set_model_dict (fun md => delete k md))
  end.

(** [remove_item] *)
Definition remove_item (item_dict : loc) : M unit :=
  d <~ deref item_dict ;;
  item_type <~ mlift (_get_item_type d) ;;
  if String.eqb item_type "object" then
    match dict_get (KStr "name") d with
    | None => mraise (UserWarning CannotRemoveUnnamed)
    | Some obj_name =>
        obj_type <~ mlift (dict_item "object" d) ;;
        t <~ mlift (lookup_name obj_type) ;;
        m <~ mget ;;
        match map_object m !! t with
        | None => mraise KeyError
        | Some of_type =>
            n <~ mlift (lookup_name obj_name) ;;
            match of_type !! n with
            | None => mraise KeyError
            | Some (k, _) =>
                pop_model_key k ;;;
                mmodify (set_map_object (fun om => <[t := delete n of_type]> om))
            end
        end
    end
  else if String.eqb item_type "clock" then
    _lookup_clock ;;;
    m <~ mget ;;
    match map_clock m with
    | None => mraise IndexError
    | Some (k, _) => pop_model_key k ;;; mmodify (set_map_clock None)
    end
  else if String.eqb item_type "module" then
    module_name <~ mlift (dict_item "module" d) ;;
    _lookup_module module_name ;;;
    n <~ mlift (lookup_name module_name) ;;
    m <~ mget ;;
    match map_module m !! n with
    | None => mraise KeyError
    | Some (k, _) =>
        pop_model_key k ;;;
        mmodify (set_map_module (fun mm => delete n mm))
    end
  else mraise (UserWarning (CannotRemove item_type)).

(** The tree the manager holds, as [sorted_write] reads it. *)
Definition model_tree (m : GLMManager) : pydict :=
  omap (fun kl => d ← store m !! snd kl; Some (KInt (fst kl), VDict d))
       (map_to_list (model_dict m)).

(** The caller builds a dictionary: a new object, at a reference nothing
    else holds. *)
Definition fresh_loc (m : GLMManager) : loc :=
  S (map_fold (fun l _ top => Nat.max l top) 0%nat (store m)).

Definition new_dict (d : pydict) : M loc :=
  fun m => let l := fresh_loc m in (Ok l, set_store (fun s => <[l := d]> s) m).

(** ** Vocabulary of the properties *)

(** The three fields of a clock that the serializer writes, in its order. *)
Definition clock_fields : list string := ["timezone"; "starttime"; "stoptime"].

(** An item that [_dict_to_string] writes as a clock: the tests for
    [omftype] and [module] come first in its chain. *)
Definition written_as_clock (d : pydict) : Prop :=
  dict_mem (KStr "omftype") d = false /\ dict_mem (KStr "module") d = false
  /\ dict_mem (KStr "clock") d = true.

(** The line of a field: a tab, the field, a space, the value, [;] and a
    line feed. *)
Definition rendered_line (field value : string) : string :=
  tab +:+ field +:+ " " +:+ value +:+ ";" +:+ nl.

(** The lines of the fields of [fields] that [d] has, in the order of
    [fields]. *)
Fixpoint rendered_fields (fields : list string) (d : pydict) : string :=
  match fields with
  | [] => ""
  | f :: fields' =>
      match dict_get (KStr f) d with
      | Some v => rendered_line f (py_str v) +:+ rendered_fields fields' d
      | None => rendered_fields fields' d
      end
  end.

(** The statement of the specification's example of a fuse. *)
Definition fuse_statement : string := "object fuse { name f1; phases ABC; }".

(** A model with a load and one object of each recorder type. *)
Definition recorder_model : string :=
  "object load { name load_1; }; object recorder { name rec_1; parent load_1; };"
  +:+ " object group_recorder { name g_1; }; object collector { name c_1; };".

(** A nested object, inside an object and inside a module. *)
Definition nested_in_object : string :=
  "object house { name h1; object solar { name pv1; }; };".

Definition nested_in_module : string :=
  "module m { object solar { name pv1; }; }".

(** An item that [_get_item_type] classes as an object. *)
Definition is_object_item (d : pydict) : bool := dict_mem (KStr "object") d.

Definition text_key (k : key) : bool :=
  match k with
  | KStr _ => true
  | KInt _ => false
  end.

(** All the keys of the dictionary are text. *)
Definition text_keys (d : pydict) : bool := forallb text_key (dict_keys d).

(** Every value replaced by its [str]. *)
Definition cast_all (d : pydict) : pydict :=
  map (fun kv => (fst kv, VStr (py_str (snd kv)))) d.

(** The entries the index holds, whatever part of it holds them. *)
Inductive index_entry (m : GLMManager) (e : key_obj) : Prop :=
| entry_clock : map_clock m = Some e -> index_entry m e
| entry_module name : map_module m !! name = Some e -> index_entry m e
| entry_object obj_type of_type name :
    map_object m !! obj_type = Some of_type -> of_type !! name = Some e ->
    index_entry m e
| entry_unnamed : e ∈ map_object_unnamed m -> index_entry m e.

(** The dictionary of an entry of the index is the very object the tree
    holds under the key of the entry. *)
Definition index_aliases_tree (m : GLMManager) : Prop :=
  forall k l, index_entry m (k, l) -> model_dict m !! k = Some l.

(** The two counters lie outside the keys in use. *)
Definition keys_between (m : GLMManager) : Prop :=
  prepend_key m < append_key m
  /\ forall k, is_Some (model_dict m !! k) -> prepend_key m < k < append_key m.

(** The keys of the tree span [lo, hi], both in use, and the counters
    stand just outside. *)
Definition key_bounds (m : GLMManager) (lo hi : Z) : Prop :=
  is_Some (model_dict m !! lo) /\ is_Some (model_dict m !! hi)
  /\ (forall k, is_Some (model_dict m !! k) -> lo <= k <= hi)
  /\ append_key m = hi + 1 /\ prepend_key m = lo - 1.

(** A run of [add_item] calls, all of which succeed; the result counts
    the objects and the other items added. *)
Fixpoint add_all (items : list loc) : M (nat * nat) :=
  match items with
  | [] => mret (0%nat, 0%nat)
  | item_dict :: items' =>
      d <~ deref item_dict ;;
      add_item item_dict ;;;
      counts <~ add_all items' ;;
      mret (if is_object_item d then (S (fst counts), snd counts)
            else (fst counts, S (snd counts)))
  end.

(** The item repeats something the index holds: a clock when there is
    one, an object under its (type, name), a module under its name; the
    names are those of the item cast to text. *)
Inductive already_indexed (m : GLMManager) (d : pydict) : warning -> Prop :=
| second_clock :
    _get_item_type d = Ok "clock" -> is_Some (map_clock m) ->
    already_indexed m d MultipleClocks
| second_object obj_type name of_type :
    _get_item_type d = Ok "object" ->
    dict_get (KStr "object") d = Some obj_type ->
    dict_get (KStr "name") d = Some name ->
    map_object m !! py_str obj_type = Some of_type ->
    is_Some (of_type !! py_str name) ->
    already_indexed m d (ObjectAlreadyExists (py_str name) (py_str obj_type))
| second_module name :
    _get_item_type d = Ok "module" ->
    dict_get (KStr "module") d = Some name ->
    is_Some (map_module m !! py_str name) ->
    already_indexed m d (ModuleAlreadyPresent (py_str name)).

(** The keys that name the target of [modify_item], which it pops from
    the caller's dictionary, in the order it pops them. *)
Definition identity_keys (item_type : string) : list key :=
  if String.eqb item_type "object" then [KStr "object"; KStr "name"]
  else if String.eqb item_type "clock" then [KStr "clock"]
  else if String.eqb item_type "module" then [KStr "module"]
  else [].

Definition pop_all (keys : list key) (d : pydict) : pydict :=
  fold_left (fun d k => dict_del k d) keys d.

(** What the three methods that fill the index leave alone. *)
Definition same_tree (m m' : GLMManager) : Prop :=
  store m' = store m /\ model_dict m' = model_dict m
  /\ append_key m' = append_key m /\ prepend_key m' = prepend_key m.

(** The entries they add: at most the one they were given, and only when
    they return. *)
Definition adds_entry (k : Z) (l : loc) (r : result unit) (m m' : GLMManager)
  : Prop :=
  forall e, index_entry m' e -> index_entry m e \/ (r = Ok tt /\ e = (k, l)).

(** The index of [m'] is that of [m]. *)
Definition same_index (m m' : GLMManager) : Prop :=
  map_clock m' = map_clock m /\ map_module m' = map_module m
  /\ map_object m' = map_object m
  /\ map_object_unnamed m' = map_object_unnamed m.

(** A method that changes dictionaries only: tree, counters and index
    stay. *)
Definition store_only {A} (c : M A) : Prop :=
  forall m r m', c m = (r, m') ->
    model_dict m' = model_dict m /\ append_key m' = append_key m
    /\ prepend_key m' = prepend_key m /\ same_index m m'.

(** The caller's dictionary holds the keys [ks]. *)
Definition keys_at (l : loc) (ks : list key) (m : GLMManager) : Prop :=
  exists d, store m !! l = Some d /\ dict_keys d = ks.

(** A model with one line, and the dictionary that names it. *)
Definition line_model : string :=
  "object overhead_line { name ol_3; phases ABC; length 100; from n1; to n2; }".

Definition line_id : pydict :=
  [(KStr "object", VStr "overhead_line"); (KStr "name", VStr "ol_3")].

(** The manager of [line_model]. *)
Definition line_manager : GLMManager :=
  match __init__ line_model with
  | Ok m => m
  | Raise _ => Manager ∅ ∅ 0 0 None ∅ ∅ []
  end.

(** The manager of [line_model] once the caller has built [line_id]
    (reference 1) and a directive (reference 2). *)
Definition line_manager_with_caller : GLMManager :=
  snd (new_dict [(KStr "#set", VStr "profiler=1")]
         (snd (new_dict line_id line_manager))).

(** A new line and a new directive, as a caller would pass them:
    references 1 and 2 of [two_items_manager]. *)
Definition new_line : pydict :=
  [(KStr "object", VStr "overhead_line"); (KStr "name", VStr "ol_4");
   (KStr "length", VNum "250")].

Definition two_items_manager : GLMManager :=
  snd (new_dict [(KStr "#set", VStr "profiler=1")]
         (snd (new_dict new_line line_manager))).

(** A result that is not the model's own failure. *)
Definition in_model {A} (r : result A) : Prop := r <> Raise OutOfModel.

(** Every reference of the tree leads to a dictionary of the store. *)
Definition tree_in_store (m : GLMManager) : Prop :=
  forall k l, model_dict m !! k = Some l -> is_Some (store m !! l).


(** What the loop puts at the top of the tree: a dictionary under an
    integer key, or (a [shape] outside any item) text under a text key. *)
Definition top_entry (kv : key * value) : Prop :=
  (exists n, fst kv = KInt n) \/ (exists s, snd kv = VStr s).

Fixpoint all_chars (p : ascii -> bool) (s : string) : bool :=
  match s with
  | EmptyString => true
  | String c s' => p c && all_chars p s'
  end.

(** Text without a separator of the tokenizer and without the two slashes
    that open a comment. *)
Definition is_piece (w : string) : bool :=
  all_chars (fun c => negb (is_delim c)) w && negb (substring_of "//" w).

(** A piece that is a token of its own and does not end a statement. *)
Definition is_word (w : string) : bool :=
  negb (String.eqb w "") && is_piece w && negb (is_terminator w).

(** The separators the serializer writes. *)
Definition layout_char (c : ascii) : bool :=
  existsb (Ascii.eqb c) [" "%char; TAB; LF; ";"%char; "{"%char; "}"%char].

(** A text as pieces, each followed by one separator. *)
Fixpoint render (atoms : list (string * ascii)) : string :=
  match atoms with
  | [] => ""
  | (w, c) :: atoms' => w +:+ String c (render atoms')
  end.

Definition atom_tokens (a : string * ascii) : list string :=
  (if String.eqb (fst a) "" then [] else [fst a])
  ++ (if Ascii.eqb (snd a) " "%char || Ascii.eqb (snd a) TAB then []
      else [String (snd a) ""]).

Definition atom_ok (a : string * ascii) : Prop :=
  is_piece (fst a) = true /\ layout_char (snd a) = true.

(** The words of a text: the pieces between its blanks. *)
Fixpoint split_space (cur s : string) : list string :=
  match s with
  | EmptyString => [cur]
  | String c s' =>
      if Ascii.eqb c " " then cur :: split_space "" s'
      else split_space (cur +:+ String c "") s'
  end.

Definition text_words (s : string) : list string := split_space "" s.

(** A text that is one or more words, one blank between two of them. *)
Definition plain_text (s : string) : bool := forallb is_word (text_words s).

(** The words of a value, the last one followed by [last]. *)
Fixpoint word_atoms (ws : list string) (last : ascii) : list (string * ascii) :=
  match ws with
  | [] => []
  | [w] => [(w, last)]
  | w :: ws' => (w, " "%char) :: word_atoms ws' last
  end.

Definition sep_tokens (c : ascii) : list string :=
  if Ascii.eqb c " "%char || Ascii.eqb c TAB then [] else [String c ""].

(** The loop with the fuel the parser gives it. *)
Definition run (token_list : list string) (st : parser_state) : result pydict :=
  build_tree (length token_list) token_list st.

(** The statements [sorted_write] writes for an item: a line closed by a
    semicolon, a directive closed by the end of its line, or a block of
    fields behind an opening. *)
Inductive shape :=
| Line (first : string) (arg : list string)
| Directive (d : string) (arg : list string)
| Block (opening : list string) (semicolon : bool)
    (fields : list (string * list string)).

Definition field_tokens (f : string * list string) : list string :=
  fst f :: snd f ++ [";"; nl].

Definition shape_tokens (s : shape) : list string :=
  match s with
  | Line first arg => first :: arg ++ [";"; nl]
  | Directive d arg => d :: arg ++ [nl]
  | Block opening semicolon fields =>
      opening ++ ["{"; nl] ++ concat (map field_tokens fields)
      ++ ["}"] ++ (if semicolon then [";"] else []) ++ [nl; nl]
  end.

Definition field_entry (f : string * list string) : key * value :=
  (KStr (fst f), VStr (join_space (snd f))).

(** The item the loop of the parser builds from the statements. *)
Definition shape_item (s : shape) : pydict :=
  match s with
  | Line first arg =>
      [(KStr "omftype", VStr first); (KStr "argument", VStr (join_space arg))]
  | Directive d arg => [(KStr d, VStr (join_space arg))]
  | Block opening _ fields =>
      (KStr (first_token opening), VStr (last_token opening))
      :: map field_entry fields
  end.

Definition words (ws : list string) : bool :=
  forallb is_word ws && negb (bool_decide (ws = [])).

Definition valid_field (f : string * list string) : bool :=
  is_word (fst f) && negb (String.eqb (fst f) "#set")
  && negb (String.eqb (fst f) "#include")
  && negb (String.eqb (fst f) "comment") && words (snd f).

Definition valid_shape (s : shape) : bool :=
  match s with
  | Line first arg => is_word first && words arg
  | Directive d arg =>
      (String.eqb d "#set" || String.eqb d "#include") && words arg
  | Block opening _ fields =>
      words opening && (length opening <=? 2)%nat
      && negb (String.eqb (first_token opening) "#set")
      && negb (String.eqb (first_token opening) "#include")
      && negb (String.eqb (first_token opening) "schedule")
      && forallb valid_field fields
      && bool_decide (NoDup (first_token opening :: map fst fields))
  end.

(** Items under consecutive keys. *)
Fixpoint renumber (n : Z) (items : list pydict) : pydict :=
  match items with
  | [] => []
  | item :: items' => (KInt n, VDict item) :: renumber (n + 1) items'
  end.

Definition keys_below (n : Z) (t : pydict) : Prop :=
  Forall (fun kv => exists m, fst kv = KInt m /\ m < n) t.

Definition field_atoms (f : string * list string) : list (string * ascii) :=
  ("", TAB) :: (fst f, " "%char) :: word_atoms (snd f) ";"%char ++ [("", LF)].

(** The text of the statements, as pieces and separators; the line feed
    [sorted_write] adds after an item is part of it. *)
Definition shape_atoms (s : shape) : list (string * ascii) :=
  match s with
  | Line first arg => (first, " "%char) :: word_atoms arg ";"%char ++ [("", LF)]
  | Directive d arg => (d, " "%char) :: word_atoms arg LF
  | Block opening semicolon fields =>
      word_atoms opening " "%char ++ [("", "{"%char); ("", LF)]
      ++ concat (map field_atoms fields)
      ++ [("", "}"%char)] ++ (if semicolon then [("", ";"%char)] else [])
      ++ [("", LF); ("", LF)]
  end.

(** [item[k]] when it is text. *)
Definition text_of (k : string) (item : pydict) : option string :=
  match dict_get (KStr k) item with
  | Some (VStr s) => Some s
  | _ => None
  end.

(** A field as [_gather_key_values] writes it on one line: the words of
    [str(v)]; a [name] or a [parent] of at most 62 characters. *)
Definition field_of (k : string) (v : value) : option (string * list string) :=
  if String.eqb k "name" || String.eqb k "parent" then
    match v with
    | VStr s =>
        if (String.length s <=? 62)%nat then Some (k, text_words s) else None
    | _ => None
    end
  else Some (k, text_words (py_str v)).

(** The fields of an item, [key_to_avoid] left out; no nested item. *)
Fixpoint item_fields (key_to_avoid : string) (item : pydict)
  : option (list (string * list string)) :=
  match item with
  | [] => Some []
  | (KStr k, v) :: item' =>
      fields ← item_fields key_to_avoid item';
      if String.eqb k key_to_avoid then Some fields
      else f ← field_of k v; Some (f :: fields)
  | (KInt _, _) :: _ => None
  end.

(** One of the three lines of a clock. *)
Definition clock_field (k : string) (item : pydict)
  : option (list (string * list string)) :=
  match dict_get (KStr k) item with
  | None => Some []
  | Some (VStr s) => Some [(k, text_words s)]
  | Some _ => None
  end.

(** The statements [_dict_to_string] writes for an item, in the order of
    its tests; [None] for the items left aside here: schedules, classes,
    embedded configurations, [#define], items with nested items, values
    that are not text where text is needed. *)
Definition item_shape (item : pydict) : option shape :=
  if dict_mem (KStr "omftype") item then
    first ← text_of "omftype" item;
    argument ← text_of "argument" item;
    Some (Line first (text_words argument))
  else if dict_mem (KStr "module") item then
    m ← text_of "module" item;
    fields ← item_fields "module" item;
    Some (Block ["module"; m] false fields)
  else if dict_mem (KStr "clock") item then
    tz ← clock_field "timezone" item;
    st ← clock_field "starttime" item;
    sp ← clock_field "stoptime" item;
    Some (Block ["clock"] false (tz ++ st ++ sp))
  else if dict_mem (KStr "object") item then
    o ← text_of "object" item;
    if String.eqb o "schedule" then None
    else fields ← item_fields "object" item;
         Some (Block ["object"; o] true fields)
  else if dict_mem (KStr "omfEmbeddedConfigObject") item then None
  else if dict_mem (KStr "#include") item then
    a ← text_of "#include" item; Some (Directive "#include" (text_words a))
  else if dict_mem (KStr "#define") item then None
  else if dict_mem (KStr "#set") item then
    a ← text_of "#set" item; Some (Directive "#set" (text_words a))
  else None.

(** The statements of the items under [sorted_keys]. *)
Fixpoint shapes_at (in_tree : pydict) (sorted_keys : list (Z * key))
  : option (list shape) :=
  match sorted_keys with
  | [] => Some []
  | (_, k) :: keys' =>
      match dict_get k in_tree with
      | Some (VDict item) =>
          s ← item_shape item;
          shapes ← shapes_at in_tree keys';
          Some (s :: shapes)
      | _ => None
      end
  end.

(** The statements [sorted_write] writes for a tree, in its order. *)
Definition tree_shapes (in_tree : pydict) : option (list shape) :=
  match sort_keys (dict_keys in_tree) with
  | Ok sorted_keys => shapes_at in_tree sorted_keys
  | Raise _ => None
  end.

(** A tree of lines, directives and blocks of one-line fields, all of
    them made of words. *)
Definition plain_tree (in_tree : pydict) : bool :=
  match tree_shapes in_tree with
  | Some shapes => forallb valid_shape shapes
  | None => false
  end.

(** The tree the loop of the parser builds from the text of a plain tree:
    the items in the order of their keys, under the keys from zero on,
    each as its statements give it. *)
Definition reparsed (in_tree : pydict) : pydict :=
  match tree_shapes in_tree with
  | Some shapes => renumber 0 (map shape_item shapes)
  | None => []
  end.

Definition no_colon (v : value) : bool :=
  match v with
  | VStr s => negb (contains_char COLON s)
  | _ => false
  end.

Definition no_hyphen (k : string) (item : pydict) : bool :=
  match dict_get (KStr k) item with
  | Some (VStr s) => negb (contains_char HYPHEN s)
  | Some _ => false
  | None => true
  end.

(** An item the pass over the finished tree has nothing to do on: no
    type, or text without colons, no hyphen in the four names, not a
    recorder, and a replacement time if it is a fuse. *)
Definition new_format (item : pydict) : bool :=
  negb (dict_mem (KStr "object") item)
  || (forallb (fun kv => no_colon (snd kv)) item
      && negb (is_recorder (default (VStr "") (dict_get (KStr "object") item)))
      && (negb (is_text "fuse" (default (VStr "") (dict_get (KStr "object") item)))
          || dict_mem (KStr "mean_replacement_time") item)
      && no_hyphen "name" item && no_hyphen "parent" item
      && no_hyphen "from" item && no_hyphen "to" item).

Definition new_format_tree (t : pydict) : bool :=
  forallb (fun kv => match snd kv with
                     | VDict item => new_format item
                     | _ => false
                     end) t.

(** A model of a directive, a clock, a module and two objects, under keys
    with gaps and out of order; the replacement time of the fuse is a
    number. *)
Definition plain_model : pydict :=
  [(KInt 7, VDict [(KStr "object", VStr "load"); (KStr "name", VStr "load_1");
                   (KStr "parent", VStr "meter_1");
                   (KStr "constant_power_A", VStr "1000+500j")]);
   (KInt 0, VDict [(KStr "omftype", VStr "#set");
                   (KStr "argument", VStr "minimum_timestep=60")]);
   (KInt 1, VDict [(KStr "clock", VStr "clock");
                   (KStr "starttime", VStr "'2001-01-01 00:00:00'");
                   (KStr "timezone", VStr "EST+5EDT")]);
   (KInt 3, VDict [(KStr "module", VStr "powerflow");
                   (KStr "solver_method", VStr "NR")]);
   (KInt 4, VDict [(KStr "phases", VStr "ABCN"); (KStr "object", VStr "fuse");
                   (KStr "name", VStr "f1");
                   (KStr "mean_replacement_time", VNum "3600.0")])].

(** The keys [_dict_to_string] tests for, in its order. *)
Definition item_kinds : list string :=
  ["omftype"; "module"; "clock"; "object"; "omfEmbeddedConfigObject";
   "#include"; "#define"; "#set"; "class"].

Definition has_kind (item : pydict) : bool :=
  existsb (fun kind => dict_mem (KStr kind) item) item_kinds.

(** A list of tokens that is empty or ends on a token that closes a
    statement. *)
Definition closed (token_list : list string) : Prop :=
  token_list = [] \/ is_terminator (last_token token_list) = true.

(** Neither a tab nor a carriage return. *)
Definition kept_char (c : ascii) : bool :=
  negb (Ascii.eqb c TAB) && negb (Ascii.eqb c CR).

(** A separator that is a token: neither blank, tab nor carriage return. *)
Definition separator_token (x : string) : Prop :=
  exists c, x = String c "" /\ is_delim c = true /\ kept_char c = true
            /\ c <> " "%char.

(** A token that is not a separator: not empty, no separator in it. *)
Definition word_token (x : string) : Prop :=
  x <> "" /\ all_chars (fun c => negb (is_delim c)) x = true.

Definition not_text (v : value) : bool :=
  match v with
  | VStr _ => false
  | _ => true
  end.

(** An item with a value that is not text: a nested item, for one. *)
Definition has_non_text (item : pydict) : bool :=
  existsb (fun kv => not_text (snd kv)) item.

(** A clock statement with the two fields of a statement line. *)
Definition clock_with_omftype : string :=
  "clock { omftype x; argument y; timezone EST5EDT; }".

(** A clock statement with a field named like the opening of a module. *)
Definition clock_with_module : string :=
  "clock { timezone EST5EDT; module x; }".

(** * Properties *)

(** ** Dictionaries *)

Lemma dict_mem_get k d : dict_mem k d = true <-> is_Some (dict_get k d).
Proof.
  unfold dict_mem. destruct (dict_get k d); split; intros H; eauto.
  - discriminate.
  - destruct H; discriminate.
Qed.

Lemma dict_mem_false k d : dict_mem k d = false <-> dict_get k d = None.
Proof.
  unfold dict_mem. destruct (dict_get k d); split; intros H; congruence.
Qed.

Lemma dict_get_set_eq k v d : dict_get k (dict_set k v d) = Some v.
Proof.
  induction d as [|[k' v'] d IH]; simpl.
  - destruct (decide (k = k)); congruence.
  - destruct (decide (k = k')) as [->|Hne]; simpl.
    + destruct (decide (k' = k')); congruence.
    + destruct (decide (k = k')); congruence.
Qed.

Lemma dict_get_set_ne k k' v d :
  k <> k' -> dict_get k (dict_set k' v d) = dict_get k d.
Proof.
  intros Hne. induction d as [|[k'' v''] d IH]; simpl.
  - destruct (decide (k = k')); congruence.
  - destruct (decide (k' = k'')) as [->|Hne']; simpl.
    + destruct (decide (k = k'')); congruence.
    + destruct (decide (k = k'')); congruence.
Qed.

Lemma dict_keys_set_mem k v d :
  is_Some (dict_get k d) -> dict_keys (dict_set k v d) = dict_keys d.
Proof.
  unfold dict_keys. induction d as [|[k' v'] d IH]; simpl; intros [x Hx].
  - discriminate.
  - destruct (decide (k = k')) as [->|Hne]; simpl; [done|].
    f_equal. apply IH. eauto.
Qed.

(** ** Text *)

Lemma sapp_cons (x : ascii) (a b : string) :
  String x a +:+ b = String x (a +:+ b).
Proof. reflexivity. Qed.

Lemma sapp_empty_l (a : string) : "" +:+ a = a.
Proof. reflexivity. Qed.

Lemma sapp_assoc (a b c : string) : (a +:+ b) +:+ c = a +:+ (b +:+ c).
Proof.
  induction a as [|x a IH]; [reflexivity|].
  now rewrite !sapp_cons, IH.
Qed.

Lemma sapp_empty_r (a : string) : a +:+ "" = a.
Proof.
  induction a as [|x a IH]; [reflexivity|].
  now rewrite sapp_cons, IH.
Qed.

(** ** The serializer *)

Lemma clock_line_get k d d' :
  dict_get (KStr k) d' = dict_get (KStr k) d ->
  clock_line k d' = clock_line k d.
Proof.
  intros H. unfold clock_line, text_item, dict_item, dict_mem. now rewrite H.
Qed.

Lemma clock_line_text k d :
  (forall v, dict_get (KStr k) d = Some v -> exists s, v = VStr s) ->
  clock_line k d = Ok (rendered_fields [k] d).
Proof.
  intros H. unfold clock_line, text_item, dict_item, dict_mem. simpl.
  destruct (dict_get (KStr k) d) as [v|]; [|done].
  destruct (H v eq_refl) as [s ->]. simpl.
  unfold rendered_line. now rewrite sapp_empty_r.
Qed.

Lemma _dict_to_string_clock d :
  written_as_clock d ->
  _dict_to_string (VDict d) =
    (tz <- clock_line "timezone" d ;;
     st <- clock_line "starttime" d ;;
     sp <- clock_line "stoptime" d ;;
     Ok (Some ("clock {" +:+ nl +:+ tz +:+ st +:+ sp +:+ "}" +:+ nl))).
Proof.
  intros (Ho & Hm & Hc). simpl. now rewrite Ho, Hm, Hc.
Qed.

(** C9, as the code has it.  An item that the serializer writes as a
    clock (it has the key [clock] and neither [omftype] nor [module], which
    [_dict_to_string] tests first) gives [clock {],
    then the lines of those of [timezone], [starttime], [stoptime] it has,
    in that order, each a tab, the field, a space, the value and [;], then
    [}]; two clocks that agree on these three fields give the same text,
    whatever other keys they hold. *)
Theorem clock_writes_three_fields (d d' : pydict) :
  written_as_clock d -> written_as_clock d' ->
  (forall f, f ∈ clock_fields -> dict_get (KStr f) d' = dict_get (KStr f) d) ->
  (forall f v, f ∈ clock_fields -> dict_get (KStr f) d = Some v ->
               exists s, v = VStr s) ->
  _dict_to_string (VDict d) =
    Ok (Some ("clock {" +:+ nl +:+ rendered_fields clock_fields d +:+ "}" +:+ nl))
  /\ _dict_to_string (VDict d') = _dict_to_string (VDict d).
Proof.
  intros Hd Hd' Hsame Htext.
  assert (Hin : forall f, f ∈ clock_fields ->
            clock_line f d' = clock_line f d
            /\ clock_line f d = Ok (rendered_fields [f] d)).
  { intros f Hf. split.
    - apply clock_line_get, Hsame, Hf.
    - apply clock_line_text. intros v Hv. eapply Htext; eauto. }
  destruct (Hin "timezone" ltac:(repeat constructor)) as [E1 T1].
  destruct (Hin "starttime" ltac:(repeat constructor)) as [E2 T2].
  destruct (Hin "stoptime" ltac:(repeat constructor)) as [E3 T3].
  rewrite !_dict_to_string_clock by assumption.
  rewrite E1, E2, E3. split; [|reflexivity].
  rewrite T1, T2, T3. simpl.
  destruct (dict_get (KStr "timezone") d), (dict_get (KStr "starttime") d),
    (dict_get (KStr "stoptime") d); simpl;
    rewrite ?sapp_assoc, ?sapp_empty_r; reflexivity.
Qed.

(** A clock with other keys, one of them before [timezone]: only the
    three fields are written. *)
Lemma clock_writes_three_fields_witness :
  _dict_to_string
    (VDict [(KStr "clock", VStr "clock"); (KStr "stoptime", VStr "'2001-01-01'");
            (KStr "tick", VStr "1e-6"); (KStr "timezone", VStr "EST5EDT")])
  = Ok (Some ("clock {" +:+ nl +:+ tab +:+ "timezone EST5EDT;" +:+ nl
              +:+ tab +:+ "stoptime '2001-01-01';" +:+ nl +:+ "}" +:+ nl))
  /\ _dict_to_string
       (VDict [(KStr "timezone", VStr "EST5EDT"); (KStr "clock", VStr "x");
               (KStr "stoptime", VStr "'2001-01-01'")])
     = _dict_to_string
         (VDict [(KStr "clock", VStr "clock");
                 (KStr "stoptime", VStr "'2001-01-01'");
                 (KStr "tick", VStr "1e-6"); (KStr "timezone", VStr "EST5EDT")]).
Proof.
  apply (clock_writes_three_fields
           [(KStr "clock", VStr "clock"); (KStr "stoptime", VStr "'2001-01-01'");
            (KStr "tick", VStr "1e-6"); (KStr "timezone", VStr "EST5EDT")]
           [(KStr "timezone", VStr "EST5EDT"); (KStr "clock", VStr "x");
            (KStr "stoptime", VStr "'2001-01-01'")]).
  - repeat split; reflexivity.
  - repeat split; reflexivity.
  - intros f Hf. unfold clock_fields in Hf.
    repeat (apply elem_of_cons in Hf as [-> | Hf]; [reflexivity|]).
    inversion Hf.
  - intros f v Hf. unfold clock_fields in Hf.
    repeat (apply elem_of_cons in Hf as [-> | Hf];
            [simpl; intros [= <-]; eauto; discriminate|]).
    inversion Hf.
Defined.

(** C9, as the claim states it, fails on a clock that holds one of the
    keys [_dict_to_string] tests before [clock].  The item of
    [clock_with_omftype] is the clock of the manager, and is written as
    the statement [x y;], without its [timezone]; the item of
    [clock_with_module] is written as a module, with the fields [clock]
    and [timezone]. *)
Lemma clock_is_not_always_written_as_clock :
  (exists m,
     __init__ clock_with_omftype = Ok m
     /\ store m !! 0%nat =
          Some [(KStr "clock", VStr "clock"); (KStr "omftype", VStr "x");
                (KStr "argument", VStr "y"); (KStr "timezone", VStr "EST5EDT")]
     /\ map_clock m = Some (0, 0%nat))
  /\ _get_item_type
       [(KStr "clock", VStr "clock"); (KStr "omftype", VStr "x");
        (KStr "argument", VStr "y"); (KStr "timezone", VStr "EST5EDT")]
     = Ok "clock"
  /\ _dict_to_string
       (VDict [(KStr "clock", VStr "clock"); (KStr "omftype", VStr "x");
               (KStr "argument", VStr "y"); (KStr "timezone", VStr "EST5EDT")])
     = Ok (Some "x y;")
  /\ parse clock_with_module =
       Ok [(KInt 0, VDict [(KStr "clock", VStr "clock");
                           (KStr "timezone", VStr "EST5EDT");
                           (KStr "module", VStr "x")])]
  /\ _dict_to_string
       (VDict [(KStr "clock", VStr "clock"); (KStr "timezone", VStr "EST5EDT");
               (KStr "module", VStr "x")])
     = Ok (Some ("module x {" +:+ nl +:+ tab +:+ "clock clock;" +:+ nl
                 +:+ tab +:+ "timezone EST5EDT;" +:+ nl +:+ "}" +:+ nl)).
Proof.
  split; [eexists; split; [vm_compute; reflexivity|split; vm_compute; reflexivity]|].
  repeat split; vm_compute; reflexivity.
Qed.

(** ** The parser: the pass over the finished tree *)

Lemma rbind_ok {A B} (r : result A) (f : A -> result B) (b : B) :
  rbind r f = Ok b -> exists a, r = Ok a /\ f a = Ok b.
Proof. destruct r; simpl; [eauto|discriminate]. Qed.

Tactic Notation "rbind_inv" hyp(H) "as" ident(a) ident(Ha) :=
  apply rbind_ok in H as (a & Ha & H).

Lemma replace_colons_get item item' k :
  replace_colons item = Ok item' ->
  dict_get k item' =
    match dict_get k item with
    | Some (VStr s) => Some (VStr (replace_char COLON UNDERSCORE s))
    | _ => None
    end
  \/ (exists v, dict_get k item = Some v /\ forall s, v <> VStr s).
Proof.
  revert item'. induction item as [|[k' v] item IH]; intros item' H; simpl in *.
  - injection H as <-. now left.
  - rbind_inv H as v' Hv. rbind_inv H as rest Hrest. injection H as <-.
    destruct v; try discriminate. injection Hv as <-.
    simpl. destruct (decide (k = k')); [now left|]. now apply IH.
Qed.

Lemma replace_colons_mem item item' k :
  replace_colons item = Ok item' -> dict_mem k item' = dict_mem k item.
Proof.
  revert item'. induction item as [|[k' v] item IH]; intros item' H; simpl in *.
  - now injection H as <-.
  - rbind_inv H as v' Hv. rbind_inv H as rest Hrest. injection H as <-.
    unfold dict_mem in *. simpl. destruct (decide (k = k')); [done|].
    now apply IH.
Qed.

Lemma replace_hyphens_get f item item' k :
  replace_hyphens f item = Ok item' -> k <> KStr f ->
  dict_get k item' = dict_get k item.
Proof.
  unfold replace_hyphens. intros H Hne.
  destruct (dict_get (KStr f) item) as [v|]; [|now injection H as <-].
  rbind_inv H as v' Hv. injection H as <-. now apply dict_get_set_ne.
Qed.

(** What the pass does to a fuse: an item that leaves it with type [fuse]
    and came in without [mean_replacement_time] leaves with the number
    3600.0 there. *)
Lemma legacy_item_fuse raw item delete :
  legacy_item raw = Ok (item, delete) ->
  dict_get (KStr "object") item = Some (VStr "fuse") ->
  dict_mem (KStr "mean_replacement_time") raw = false ->
  dict_get (KStr "mean_replacement_time") item = Some (VNum "3600.0").
Proof.
  unfold legacy_item. intros H Hfuse Hraw.
  destruct (dict_get (KStr "object") raw) as [obj|] eqn:Hobj.
  2:{ injection H as <- _. congruence. }
  rbind_inv H as i1 Hi1. rbind_inv H as i2 Hi2. rbind_inv H as i3 Hi3.
  rbind_inv H as i5 Hi5. rbind_inv H as i6 Hi6.
  rbind_inv H as i7 Hi7. rbind_inv H as i8 Hi8.
  injection H as <- _.
  set (i4 := if is_text "fuse" (default (VStr "") (dict_get (KStr "object") i3))
                && negb (dict_mem (KStr "mean_replacement_time") i3)
             then dict_set (KStr "mean_replacement_time") (VNum "3600.0") i3
             else i3) in *.
  assert (Hkeep : forall k, k <> KStr "name" -> k <> KStr "parent" ->
                    k <> KStr "from" -> k <> KStr "to" ->
                    dict_get k i8 = dict_get k i4).
  { intros k ? ? ? ?.
    rewrite (replace_hyphens_get _ _ _ k Hi8), (replace_hyphens_get _ _ _ k Hi7),
      (replace_hyphens_get _ _ _ k Hi6), (replace_hyphens_get _ _ _ k Hi5);
      auto. }
  assert (Hmem3 : dict_mem (KStr "mean_replacement_time") i3 = false).
  { rewrite (replace_colons_mem _ _ _ Hi3).
    destruct obj; try discriminate. injection Hi2 as <-.
    apply dict_mem_false. rewrite dict_get_set_ne by discriminate.
    apply dict_mem_false in Hraw.
    destruct (negb (dict_mem (KStr "name") raw)).
    - destruct (contains_char COLON s); injection Hi1 as <-; [|done].
      now rewrite dict_get_set_ne by discriminate.
    - now injection Hi1 as <-. }
  rewrite Hkeep in Hfuse by discriminate.
  rewrite Hkeep by discriminate.
  subst i4. rewrite Hmem3 in *. simpl in *.
  destruct (is_text "fuse" (default (VStr "") (dict_get (KStr "object") i3)))
    eqn:Hf; simpl in *.
  - apply dict_get_set_eq.
  - rewrite Hfuse in Hf. discriminate.
Qed.

Lemma legacy_pass_entry raw tree dels k item :
  legacy_pass raw = Ok (tree, dels) -> (k, VDict item) ∈ tree ->
  exists raw_item delete,
    (k, VDict raw_item) ∈ raw /\ legacy_item raw_item = Ok (item, delete).
Proof.
  revert tree dels. induction raw as [|[k' v] raw IH]; intros tree dels H Hin.
  - injection H as <- _. inversion Hin.
  - simpl in H. destruct v; try discriminate.
    rbind_inv H as r Hr. destruct r as [item' delete].
    rbind_inv H as r' Hr'. destruct r' as [tree' dels'].
    injection H as <- _.
    apply elem_of_cons in Hin as [[= -> ->]|Hin].
    + exists d, delete. split; [left|assumption].
    + destruct (IH _ _ Hr' Hin) as (ri & de & Hri & Hde).
      exists ri, de. split; [now right|assumption].
Qed.

Lemma dict_del_entry k e (t : pydict) : e ∈ dict_del k t -> e ∈ t.
Proof.
  induction t as [|[k' v'] t IH]; simpl; [done|].
  destruct (decide (k = k')); intros H.
  - now right.
  - apply elem_of_cons in H as [->|H]; [left|right; auto].
Qed.

Lemma deleted_entries dels e (t : pydict) :
  e ∈ fold_left (fun t k => dict_del k t) dels t -> e ∈ t.
Proof.
  revert t. induction dels as [|k dels IH]; simpl; intros t H; [done|].
  eapply dict_del_entry, IH, H.
Qed.

(** C7, as the code has it.  In every parsed model, a top-level object
    that leaves the pass with type [fuse] and whose statement had no
    [mean_replacement_time] holds the number 3600.0 there (a number, not
    text). *)
Theorem fuse_default_is_number (input_str : string) (raw tree : pydict)
    (k : key) (item : pydict) :
  raw_tree (_tokenize_glm input_str) = Ok raw ->
  parse input_str = Ok tree ->
  (k, VDict item) ∈ tree ->
  dict_get (KStr "object") item = Some (VStr "fuse") ->
  exists raw_item,
    (k, VDict raw_item) ∈ raw /\
    (dict_mem (KStr "mean_replacement_time") raw_item = false ->
     dict_get (KStr "mean_replacement_time") item = Some (VNum "3600.0")).
Proof.
  unfold parse, _parse_token_list, translate_old_format.
  intros Hraw H Hin Hfuse.
  rewrite Hraw in H. simpl in H.
  rbind_inv H as r Hr. destruct r as [tree' dels]. injection H as <-.
  apply deleted_entries in Hin.
  destruct (legacy_pass_entry _ _ _ _ _ Hr Hin) as (raw_item & delete & Hri & Hitem).
  exists raw_item. split; [assumption|]. intros Hno.
  eapply legacy_item_fuse; eauto.
Qed.

Lemma fuse_default_is_number_witness :
  exists raw_item,
    (KInt 0, VDict raw_item) ∈
      [(KInt 0, VDict [(KStr "object", VStr "fuse"); (KStr "name", VStr "f1");
                       (KStr "phases", VStr "ABC")])] /\
    (dict_mem (KStr "mean_replacement_time") raw_item = false ->
     dict_get (KStr "mean_replacement_time")
       [(KStr "object", VStr "fuse"); (KStr "name", VStr "f1");
        (KStr "phases", VStr "ABC");
        (KStr "mean_replacement_time", VNum "3600.0")] = Some (VNum "3600.0")).
Proof.
  apply (fuse_default_is_number fuse_statement _
           [(KInt 0, VDict [(KStr "object", VStr "fuse"); (KStr "name", VStr "f1");
                            (KStr "phases", VStr "ABC");
                            (KStr "mean_replacement_time", VNum "3600.0")])]).
  - vm_compute. reflexivity.
  - vm_compute. reflexivity.
  - left.
  - reflexivity.
Defined.

(** C7, as the claim states it, fails on the statement of the
    specification's own example: the field holds a number, not the text
    ["3600.0"]. *)
Lemma fuse_default_is_not_text :
  parse fuse_statement =
    Ok [(KInt 0, VDict [(KStr "object", VStr "fuse"); (KStr "name", VStr "f1");
                        (KStr "phases", VStr "ABC");
                        (KStr "mean_replacement_time", VNum "3600.0")])]
  /\ VNum "3600.0" <> VStr "3600.0".
Proof. split; [vm_compute; reflexivity|discriminate]. Qed.

(** C2: the pass deletes the recorders.  Of the four object statements of
    [recorder_model] the parsed tree keeps the load alone. *)
Theorem recorders_are_deleted :
  parse recorder_model =
    Ok [(KInt 0, VDict [(KStr "object", VStr "load"); (KStr "name", VStr "load_1")])].
Proof. vm_compute. reflexivity. Qed.

(** C5: a nested object is stored in the dictionary of its parent only.
    Inside an object it makes the pass raise [AttributeError] (the pass
    calls [replace] on the nested dictionary); inside a module the parse
    succeeds, the tree has no entry under the key of the nested object, and
    the index, built from the top-level entries, does not find it. *)
Theorem nested_object_is_not_registered :
  parse nested_in_object = Raise AttributeError
  /\ exists m,
       __init__ nested_in_module = Ok m
       /\ store m !! 0%nat =
            Some [(KStr "module", VStr "m");
                  (KInt 1, VDict [(KStr "object", VStr "solar");
                                  (KStr "name", VStr "pv1")])]
       /\ model_dict m !! 0 = Some 0%nat
       /\ model_dict m !! 1 = None
       /\ fst (_find_object (VStr "solar") (VStr "pv1") m) = Ok None.
Proof.
  split; [vm_compute; reflexivity|].
  eexists. split; [vm_compute; reflexivity|].
  repeat split; vm_compute; reflexivity.
Qed.

(** ** The manager *)

Ltac munfold :=
  unfold mbind, mlift, mget, mmodify, mraise, mret, deref, update,
    _update_append_key, _update_prepend_key in *.

Ltac mcases := repeat (case_match; simplify_eq/=; try done).

Lemma _add_object_to_map_frame k l m r m' :
  _add_object_to_map k l m = (r, m') -> same_tree m m'.
Proof. unfold _add_object_to_map, same_tree. munfold. intros H. mcases. Qed.

Lemma _add_clock_to_map_frame k l m r m' :
  _add_clock_to_map k l m = (r, m') -> same_tree m m'.
Proof. unfold _add_clock_to_map, same_tree. munfold. intros H. mcases. Qed.

Lemma _add_module_to_map_frame k l m r m' :
  _add_module_to_map k l m = (r, m') -> same_tree m m'.
Proof. unfold _add_module_to_map, same_tree. munfold. intros H. mcases. Qed.

Lemma _add_clock_to_map_entry k l m r m' :
  _add_clock_to_map k l m = (r, m') -> adds_entry k l r m m'.
Proof.
  unfold _add_clock_to_map, adds_entry. munfold. intros H e He.
  destruct (map_clock m) eqn:Hc; simplify_eq/=; [now left|].
  destruct He as [He|n He|t ot n He1 He2|He]; simpl in *.
  - right. now simplify_eq.
  - left. eapply entry_module; eauto.
  - left. eapply entry_object; eauto.
  - left. now apply entry_unnamed.
Qed.

Lemma _add_module_to_map_entry k l m r m' :
  _add_module_to_map k l m = (r, m') -> adds_entry k l r m m'.
Proof.
  unfold _add_module_to_map, adds_entry. munfold. intros H e He.
  repeat (case_match; simplify_eq/=; try (now left)).
  all: destruct He as [He|n He|t ot n He1 He2|He]; simpl in *.
  all: try (left; first [ now apply entry_clock
                        | now eapply entry_object; eauto
                        | now apply entry_unnamed ]).
  all: rewrite lookup_insert in He; case_decide; simplify_eq;
    [now right|left; eapply entry_module; eauto].
Qed.

Lemma ensure_type_entry t om t' ot n (e : key_obj) :
  ensure_type t om !! t' = Some ot -> ot !! n = Some e -> om !! t' = Some ot.
Proof.
  unfold ensure_type. destruct (om !! t) eqn:Ht; [done|].
  rewrite lookup_insert. case_decide; [|done].
  intros [= <-]. now rewrite lookup_empty.
Qed.

Lemma _add_object_to_map_entry k l m r m' :
  _add_object_to_map k l m = (r, m') -> adds_entry k l r m m'.
Proof.
  unfold _add_object_to_map, adds_entry. munfold. intros H e He.
  repeat (case_match; simplify_eq/=; try (now left)).
  all: destruct He as [He|n He|t ot n He1 He2|He]; simpl in *.
  all: try (left; first [ now apply entry_clock
                        | now eapply entry_module; eauto ]).
  all: repeat match goal with
         | H : ensure_type _ _ !! _ = Some _, H' : _ !! _ = Some _ |- _ =>
             apply (ensure_type_entry _ _ _ _ _ _ H) in H' as H''; clear H
         | H : <[_ := _]> _ !! _ = Some _ |- _ =>
             rewrite lookup_insert in H; case_decide; simplify_eq
         | H : ∅ !! _ = Some _ |- _ => now rewrite lookup_empty in H
         | H : default _ (?x !! ?y) !! _ = Some _ |- _ =>
             destruct (x !! y) eqn:?; simpl in H
         | H : ensure_type ?t ?om !! ?t = Some _ |- _ =>
             unfold ensure_type in H; destruct (om !! t) eqn:?;
             [|rewrite lookup_insert_eq in H]; simplify_eq
         | H : _ ∈ _ ++ [_] |- _ =>
             apply elem_of_app in H as [H|H%list_elem_of_singleton]
         end.
  all: try (now right).
  all: try (left; first [ now eapply entry_object; eauto
                        | now apply entry_unnamed ]).
Qed.

Lemma map_non_object_frame t k l m r m' :
  map_non_object t k l m = (r, m') -> same_tree m m'.
Proof.
  unfold map_non_object. repeat case_match.
  - apply _add_clock_to_map_frame.
  - apply _add_module_to_map_frame.
  - now intros [= <- <-].
  - now intros [= <- <-].
Qed.

Lemma map_non_object_entry t k l m r m' :
  map_non_object t k l m = (r, m') -> adds_entry k l r m m'.
Proof.
  unfold map_non_object. repeat case_match.
  - apply _add_clock_to_map_entry.
  - apply _add_module_to_map_entry.
  - intros [= <- <-] e He. now left.
  - intros [= <- <-] e He. now left.
Qed.

Lemma same_index_entry m m' e :
  same_index m m' -> index_entry m' e -> index_entry m e.
Proof.
  intros (Hc & Hm & Ho & Hu) [He|n He|t ot n He1 He2|He].
  - apply entry_clock. congruence.
  - eapply entry_module. rewrite <- Hm. eauto.
  - eapply entry_object; [rewrite <- Ho|]; eauto.
  - apply entry_unnamed. congruence.
Qed.

Lemma _get_item_type_object d t :
  _get_item_type d = Ok t -> (t =? "object")%string = is_object_item d.
Proof. unfold _get_item_type, is_object_item. intros H. mcases. Qed.

(** [add_item] when it returns: the values of the caller's dictionary
    are cast, the dictionary is in the tree under the counter, the counter
    has moved, and the index has at most that entry more. *)
Lemma add_item_ok l d m m' :
  store m !! l = Some d -> add_item l m = (Ok tt, m') ->
  snd (cast_values d) = true
  /\ store m' = <[l := fst (cast_values d)]> (store m)
  /\ (let key := if is_object_item d then append_key m else prepend_key m in
      model_dict m' = <[key := l]> (model_dict m)
      /\ adds_entry key l (Ok tt) m m')
  /\ append_key m' = (if is_object_item d then append_key m + 1 else append_key m)
  /\ prepend_key m' = (if is_object_item d then prepend_key m else prepend_key m - 1).
Proof.
  intros Hl. unfold add_item. munfold. rewrite Hl.
  destruct (_get_item_type d) as [t|] eqn:Ht; [|done].
  rewrite <- (_get_item_type_object _ _ Ht).
  destruct (cast_values d) as [d' all] eqn:Hc. simpl.
  destruct all; simpl; [|done].
  set (m0 := set_store _ m).
  assert (Hidx : same_index m m0) by done.
  destruct (t =? "object")%string.
  - unfold _add_object. munfold.
    destruct (_add_object_to_map _ _ _) as [[[]|e] m1] eqn:E; [|done].
    pose proof (_add_object_to_map_frame _ _ _ _ _ E) as (E1 & E2 & E3 & E4).
    pose proof (_add_object_to_map_entry _ _ _ _ _ E) as E5.
    intros [= <-]. simpl in *. rewrite E1, E2, E3, E4. repeat split; try done.
    intros e He. destruct (E5 e) as [H|H]; [| |now right].
    + destruct He as [He|n He|x ot n He1 He2|He]; simpl in *;
        eauto using index_entry.
    + left. eapply same_index_entry; eauto.
  - match goal with |- context [if ?b then _add_non_object _ _ else _] =>
      destruct b end; [|done].
    unfold _add_non_object. munfold.
    destruct (map_non_object _ _ _ _) as [[[]|e] m1] eqn:E; [|done].
    pose proof (map_non_object_frame _ _ _ _ _ _ E) as (E1 & E2 & E3 & E4).
    pose proof (map_non_object_entry _ _ _ _ _ _ E) as E5.
    intros [= <-]. simpl in *. rewrite E1, E2, E3, E4. repeat split; try done.
    intros e He. destruct (E5 e) as [H|H]; [| |now right].
    + destruct He as [He|n He|x ot n He1 He2|He]; simpl in *;
        eauto using index_entry.
    + left. eapply same_index_entry; eauto.
Qed.

(** [add_item] when it raises: tree, counters and index entries are as
    before. *)
Lemma add_item_raise l m e m' :
  add_item l m = (Raise e, m') ->
  model_dict m' = model_dict m /\ append_key m' = append_key m
  /\ prepend_key m' = prepend_key m
  /\ forall x, index_entry m' x -> index_entry m x.
Proof.
  unfold add_item. munfold.
  destruct (store m !! l) as [d|]; [|now intros [= <- <-]].
  destruct (_get_item_type d) as [t|]; [|now intros [= <- <-]].
  destruct (cast_values d) as [d' all]. simpl.
  set (m0 := set_store _ m).
  assert (Hidx : same_index m m0) by done.
  destruct all; simpl.
  2:{ intros [= <- <-]. repeat split; try done.
      intros x. now apply same_index_entry. }
  destruct (t =? "object")%string.
  - unfold _add_object. munfold.
    destruct (_add_object_to_map _ _ _) as [[[]|e'] m1] eqn:E; [done|].
    pose proof (_add_object_to_map_frame _ _ _ _ _ E) as (E1 & E2 & E3 & E4).
    pose proof (_add_object_to_map_entry _ _ _ _ _ E) as E5.
    intros [= <- <-]. rewrite E2, E3, E4. repeat split; try done.
    intros x Hx. destruct (E5 x Hx) as [H|[H _]]; [|done].
    eapply same_index_entry; eauto.
  - match goal with |- context [if ?b then _add_non_object _ _ else _] =>
      destruct b end.
    2:{ intros [= <- <-]. repeat split; try done.
        intros x. now apply same_index_entry. }
    unfold _add_non_object. munfold.
    destruct (map_non_object _ _ _ _) as [[[]|e'] m1] eqn:E; [done|].
    pose proof (map_non_object_frame _ _ _ _ _ _ E) as (E1 & E2 & E3 & E4).
    pose proof (map_non_object_entry _ _ _ _ _ _ E) as E5.
    intros [= <- <-]. rewrite E2, E3, E4. repeat split; try done.
    intros x Hx. destruct (E5 x Hx) as [H|[H _]]; [|done].
    eapply same_index_entry; eauto.
Qed.

Lemma store_only_bind {A B} (c : M A) (f : A -> M B) :
  store_only c -> (forall a, store_only (f a)) -> store_only (mbind c f).
Proof.
  intros Hc Hf m r m'. unfold mbind.
  destruct (c m) as [[a|e] m1] eqn:E.
  - intros H. destruct (Hc _ _ _ E) as (E1 & E2 & E3 & E4 & E5 & E6 & E7).
    destruct (Hf a _ _ _ H) as (F1 & F2 & F3 & F4 & F5 & F6 & F7).
    unfold same_index. repeat split; congruence.
  - intros [= <- <-]. eapply Hc; eauto.
Qed.

Lemma store_only_pure {A} (r : result A) : store_only (mlift r).
Proof. now intros m r' m' [= <- <-]. Qed.

Lemma store_only_get : store_only mget.
Proof. now intros m r' m' [= <- <-]. Qed.

Lemma store_only_deref l : store_only (deref l).
Proof. intros m r m'. unfold deref. case_match; now intros [= <- <-]. Qed.

Lemma store_only_update l d : store_only (update l d).
Proof. now intros m r m' [= <- <-]. Qed.

Ltac store_only :=
  repeat first
    [ apply store_only_bind; [|intros ?]
    | apply store_only_deref
    | apply store_only_update
    | apply store_only_get
    | apply (store_only_pure (Ok _))
    | apply (store_only_pure (Raise _))
    | apply store_only_pure
    | progress (unfold mret, mraise; fold (@mlift))
    | case_match ].

Lemma store_only_pop_key l k : store_only (pop_key l k).
Proof. unfold pop_key. store_only. Qed.

Lemma store_only__modify_item item upd : store_only (_modify_item item upd).
Proof. unfold _modify_item. store_only. Qed.

Lemma store_only__lookup_object t n : store_only (_lookup_object t n).
Proof. unfold _lookup_object, _find_object. store_only. Qed.

Lemma store_only__lookup_module n : store_only (_lookup_module n).
Proof. unfold _lookup_module. store_only. Qed.

Lemma store_only__lookup_clock : store_only _lookup_clock.
Proof. unfold _lookup_clock. store_only. Qed.

Lemma store_only_modify_item l : store_only (modify_item l).
Proof.
  unfold modify_item.
  repeat first
    [ apply store_only_pop_key | apply store_only__modify_item
    | apply store_only__lookup_object | apply store_only__lookup_module
    | apply store_only__lookup_clock | progress store_only ].
Qed.

(** C6.  On a manager whose index entries alias the tree and whose
    counters lie outside the keys in use (as [__init__] leaves it),
    [add_item] and [modify_item], whether they return or raise, leave a
    manager of the same kind: under every (type, name) of the index, and
    under its clock, module and unnamed entries as well, the dictionary is
    the object that the tree holds at the key of the entry. *)
Theorem index_aliases_tree_preserved (m : GLMManager) (item_dict : loc) :
  index_aliases_tree m -> keys_between m ->
  (index_aliases_tree (snd (add_item item_dict m))
   /\ keys_between (snd (add_item item_dict m)))
  /\ (index_aliases_tree (snd (modify_item item_dict m))
      /\ keys_between (snd (modify_item item_dict m))).
Proof.
  intros Halias [Hlt Hkeys]. split.
  - destruct (add_item item_dict m) as [[[]|e] m'] eqn:E; simpl.
    + destruct (store m !! item_dict) as [d|] eqn:Hd.
      2:{ unfold add_item in E. munfold. now rewrite Hd in E. }
      destruct (add_item_ok _ _ _ _ Hd E) as (_ & _ & [Hmd Hent] & Ha & Hp).
      set (key := if is_object_item d then append_key m else prepend_key m) in *.
      assert (Hfresh : model_dict m !! key = None).
      { destruct (model_dict m !! key) eqn:Hk; [|done].
        destruct (Hkeys key) as [? ?]; [eauto|].
        subst key. destruct (is_object_item d); lia. }
      split.
      * intros k l' Hin. rewrite Hmd.
        destruct (Hent _ Hin) as [Hold|[_ [= -> ->]]].
        -- apply Halias in Hold. rewrite lookup_insert_ne; [done|].
           intros <-. congruence.
        -- apply lookup_insert_eq.
      * unfold keys_between. rewrite Ha, Hp.
        split; [destruct (is_object_item d); lia|].
        intros k. rewrite Hmd, lookup_insert. case_decide.
        -- subst k key. intros _. destruct (is_object_item d); lia.
        -- intros Hk. apply Hkeys in Hk. destruct (is_object_item d); lia.
    + destruct (add_item_raise _ _ _ _ E) as (Hmd & Ha & Hp & Hent). split.
      * intros k l' Hin. rewrite Hmd. apply Halias, Hent, Hin.
      * unfold keys_between. rewrite Ha, Hp. split; [done|].
        intros k. rewrite Hmd. apply Hkeys.
  - destruct (modify_item item_dict m) as [r m'] eqn:E; simpl.
    destruct (store_only_modify_item _ _ _ _ E) as (Hmd & Ha & Hp & Hidx). split.
    + intros k l' Hin. rewrite Hmd. eapply Halias, same_index_entry; eauto.
    + unfold keys_between. rewrite Ha, Hp. split; [done|].
      intros k. rewrite Hmd. apply Hkeys.
Qed.

(** One successful [add_item] moves the bounds by one, on the side of the
    item. *)
Lemma add_item_key_bounds l d m m' lo hi :
  store m !! l = Some d -> add_item l m = (Ok tt, m') ->
  key_bounds m lo hi ->
  if is_object_item d then key_bounds m' lo (hi + 1)
  else key_bounds m' (lo - 1) hi.
Proof.
  intros Hd E (Hlo & Hhi & Hall & Ha & Hp).
  destruct (add_item_ok _ _ _ _ Hd E) as (_ & _ & [Hmd _] & Ha' & Hp').
  pose proof (Hall _ Hhi) as Hspan.
  unfold key_bounds. rewrite Hmd, Ha', Hp', Ha, Hp.
  destruct (is_object_item d).
  - split; [|split; [|split; [|lia]]].
    + rewrite lookup_insert_ne; [done|]. lia.
    + rewrite lookup_insert_eq. eauto.
    + intros k Hk. rewrite lookup_insert in Hk.
      case_decide; [lia|]. apply Hall in Hk. lia.
  - split; [|split; [|split; [|lia]]].
    + rewrite lookup_insert_eq. eauto.
    + rewrite lookup_insert_ne; [done|]. lia.
    + intros k Hk. rewrite lookup_insert in Hk.
      case_decide; [lia|]. apply Hall in Hk. lia.
Qed.

(** C8.  On a manager whose tree has keys spanning [lo, hi] and whose
    counters stand at [hi + 1] and [lo - 1] (as [__init__] leaves it): a
    successful [add_item] of an object stores the item at [append_key] and
    adds one to [append_key]; a successful [add_item] of any other item
    stores it at [prepend_key] and takes one from [prepend_key]; and after a
    run of successful adds of [N] objects and [M] other items the keys span
    exactly [lo - M, hi + N], the counters standing just outside again. *)
Theorem key_monotonicity (m : GLMManager) (lo hi : Z) :
  key_bounds m lo hi ->
  (forall l d m', store m !! l = Some d -> add_item l m = (Ok tt, m') ->
     if is_object_item d
     then model_dict m' = <[append_key m := l]> (model_dict m)
          /\ append_key m' = append_key m + 1 /\ prepend_key m' = prepend_key m
     else model_dict m' = <[prepend_key m := l]> (model_dict m)
          /\ prepend_key m' = prepend_key m - 1 /\ append_key m' = append_key m)
  /\ (forall items N M m', add_all items m = (Ok (N, M), m') ->
        key_bounds m' (lo - Z.of_nat M) (hi + Z.of_nat N)).
Proof.
  intros Hb. split.
  - intros l d m' Hd E.
    destruct (add_item_ok _ _ _ _ Hd E) as (_ & _ & [Hmd _] & Ha & Hp).
    destruct (is_object_item d); auto.
  - intros items. revert m lo hi Hb.
    induction items as [|l items IH]; intros m lo hi Hb N M m'.
    + intros [= <- <- <-]. now rewrite Z.sub_0_r, Z.add_0_r.
    + simpl. munfold.
      destruct (store m !! l) as [d|] eqn:Hd; [|done].
      destruct (add_item l m) as [[[]|e] m1] eqn:E; [|done].
      pose proof (add_item_key_bounds _ _ _ _ _ _ Hd E Hb) as Hb1.
      destruct (add_all items m1) as [[[n k]|e] m2] eqn:E'; [|done].
      simpl. destruct (is_object_item d); intros [= <- <- <-].
      * specialize (IH _ _ _ Hb1 _ _ _ E').
        now replace (hi + Z.of_nat (S n)) with (hi + 1 + Z.of_nat n) by lia.
      * specialize (IH _ _ _ Hb1 _ _ _ E').
        now replace (lo - Z.of_nat (S k)) with (lo - 1 - Z.of_nat k) by lia.
Qed.

Lemma cast_values_text d :
  text_keys d = true -> cast_values d = (cast_all d, true).
Proof.
  unfold text_keys, dict_keys.
  induction d as [|[[n|k] v] d IH]; simpl; [done|done|].
  intros H. now rewrite IH.
Qed.

Lemma cast_values_all d :
  snd (cast_values d) = true -> fst (cast_values d) = cast_all d.
Proof.
  induction d as [|[[n|k] v] d IH]; simpl; [done|done|].
  destruct (cast_values d) as [d' all]. simpl in *.
  intros ->. now rewrite IH.
Qed.

Lemma dict_get_cast_all k d :
  dict_get k (cast_all d) = (fun v => VStr (py_str v)) <$> dict_get k d.
Proof.
  induction d as [|[k' v] d IH]; simpl; [done|].
  destruct (decide (k = k')); [done|apply IH].
Qed.

Lemma dict_mem_cast_all k d : dict_mem k (cast_all d) = dict_mem k d.
Proof.
  unfold dict_mem. rewrite dict_get_cast_all. now destruct (dict_get k d).
Qed.

Lemma _get_item_type_mem d d' :
  (forall k, dict_mem k d' = dict_mem k d) ->
  _get_item_type d' = _get_item_type d.
Proof. intros H. unfold _get_item_type. now rewrite !H. Qed.

(** C4.  When the keys of the item are text, [add_item] of a clock while
    the index holds a clock, of an object whose (type, name) the index
    holds, or of a module whose name the index holds, raises the warning of
    that duplicate, and the tree and the index are as before. *)
Theorem duplicates_raise (m : GLMManager) (item_dict : loc) (d : pydict)
    (w : warning) :
  store m !! item_dict = Some d -> text_keys d = true ->
  already_indexed m d w ->
  fst (add_item item_dict m) = Raise (UserWarning w)
  /\ model_dict (snd (add_item item_dict m)) = model_dict m
  /\ same_index m (snd (add_item item_dict m)).
Proof.
  intros Hd Htext Hdup.
  unfold add_item. munfold. rewrite Hd.
  rewrite (cast_values_text _ Htext). simpl.
  destruct Hdup as [Ht Hc|t n ot Ht Hto Hn Hot Hin|n Ht Hn Hin]; rewrite Ht; simpl.
  - unfold _add_non_object, map_non_object, _add_clock_to_map. munfold. simpl.
    destruct Hc as [c Hc]. now rewrite Hc.
  - unfold _add_object, _add_object_to_map. munfold. simpl.
    rewrite lookup_insert_eq.
    unfold dict_item. rewrite !dict_get_cast_all, Hto, Hn. simpl.
    destruct Hin as [e He]. unfold ensure_type, same_index.
    repeat (rewrite ?Hot, ?He; simpl). done.
  - unfold _add_non_object, map_non_object, _add_module_to_map. munfold. simpl.
    rewrite lookup_insert_eq, dict_mem_cast_all.
    assert (Hmem : dict_mem (KStr "module") d = true).
    { apply dict_mem_get. eauto. }
    rewrite Hmem. unfold dict_item. rewrite dict_get_cast_all, Hn. simpl.
    destruct Hin as [e He]. now rewrite He.
Qed.

Lemma dict_get_del_ne k k' d :
  k <> k' -> dict_get k (dict_del k' d) = dict_get k d.
Proof.
  intros Hne. induction d as [|[k'' v] d IH]; simpl; [done|].
  destruct (decide (k' = k'')) as [->|Hne']; simpl.
  - destruct (decide (k = k'')); congruence.
  - destruct (decide (k = k'')); congruence.
Qed.

Lemma dict_get_entry k v (d : pydict) : (k, v) ∈ d -> is_Some (dict_get k d).
Proof.
  induction d as [|[k' v'] d IH]; intros H; [inversion H|].
  simpl. destruct (decide (k = k')); [eauto|].
  apply elem_of_cons in H as [[= -> ->]|H]; [done|auto].
Qed.

Lemma dict_set_is_Some k k' v d :
  is_Some (dict_get k d) -> is_Some (dict_get k (dict_set k' v d)).
Proof.
  intros H. destruct (decide (k = k')) as [->|Hne].
  - rewrite dict_get_set_eq. eauto.
  - now rewrite dict_get_set_ne.
Qed.

(** [_modify_item] with keys the target has keeps the keys of the
    target. *)
Lemma dict_keys_modify (upd tgt : pydict) :
  (forall kv, kv ∈ upd -> is_Some (dict_get (fst kv) tgt)) ->
  dict_keys
    (fold_left (fun t kv => dict_set (fst kv) (VStr (py_str (snd kv))) t) upd tgt)
  = dict_keys tgt.
Proof.
  revert tgt. induction upd as [|[k v] upd IH]; intros tgt H; simpl; [done|].
  rewrite IH.
  - apply dict_keys_set_mem, (H (k, v)). left.
  - intros kv Hkv. apply dict_set_is_Some, H. now right.
Qed.

Lemma _modify_item_keys_at item l ks m :
  keys_at l ks m -> keys_at l ks (snd (_modify_item item l m)).
Proof.
  intros (d & Hd & Hks). unfold _modify_item. munfold. rewrite Hd.
  destruct (store m !! item) as [tgt|] eqn:Ht; simpl; [|now exists d].
  destruct (decide (item = l)) as [->|Hne].
  - eexists. simpl. split; [apply lookup_insert_eq|].
    assert (tgt = d) as -> by congruence.
    rewrite dict_keys_modify; [done|].
    intros [k v] Hkv. eapply dict_get_entry, Hkv.
  - exists d. simpl. now rewrite lookup_insert_ne.
Qed.

Lemma pop_key_ok l k d v m :
  store m !! l = Some d -> dict_get k d = Some v ->
  pop_key l k m = (Ok v, set_store (fun s => <[l := dict_del k d]> s) m).
Proof. intros Hd Hk. unfold pop_key. munfold. now rewrite Hd, Hk. Qed.

Lemma _lookup_object_state t n m : snd (_lookup_object t n m) = m.
Proof. unfold _lookup_object, _find_object. munfold. mcases. Qed.

Lemma _lookup_clock_state m : snd (_lookup_clock m) = m.
Proof. unfold _lookup_clock. munfold. mcases. Qed.

Lemma _lookup_module_state n m : snd (_lookup_module n m) = m.
Proof. unfold _lookup_module. munfold. mcases. Qed.

Lemma _lookup_module_entry n m l :
  fst (_lookup_module n m) = Ok l ->
  exists name k, map_module m !! name = Some (k, l).
Proof. unfold _lookup_module. munfold. intros H. mcases. eauto. Qed.

Lemma _get_item_type_mem_true d t :
  _get_item_type d = Ok t -> identity_keys t <> [] ->
  (t = "object" /\ dict_mem (KStr "object") d = true)
  \/ (t = "clock" /\ dict_mem (KStr "clock") d = true)
  \/ (t = "module" /\ dict_mem (KStr "module") d = true).
Proof.
  unfold _get_item_type. intros H Hids.
  repeat (case_match; simplify_eq/=; try done); auto.
Qed.

Lemma mbind_ok {A B} (c : M A) (f : A -> M B) m a m' :
  c m = (Ok a, m') -> mbind c f m = f a m'.
Proof. unfold mbind. now intros ->. Qed.

Lemma keys_at_other l l' ks d m :
  l' <> l -> keys_at l ks m ->
  keys_at l ks (set_store (fun s => <[l' := d]> s) m).
Proof.
  intros Hne (d0 & Hd0 & Hks). exists d0. simpl.
  now rewrite lookup_insert_ne.
Qed.

Lemma pop_key_keys_at l l' k ks m :
  l' <> l -> keys_at l ks m -> keys_at l ks (snd (pop_key l' k m)).
Proof.
  intros Hne H. unfold pop_key. munfold.
  repeat (case_match; simplify_eq/=; try done).
  now apply keys_at_other.
Qed.

Lemma modify_object_keys l d m :
  store m !! l = Some d ->
  dict_mem (KStr "object") d = true -> dict_mem (KStr "name") d = true ->
  keys_at l (dict_keys (dict_del (KStr "name") (dict_del (KStr "object") d)))
    (snd (modify_item l m)).
Proof.
  intros Hd Ho Hn.
  apply dict_mem_get in Ho as [vo Ho]. apply dict_mem_get in Hn as [vn Hn].
  assert (Ht : _get_item_type d = Ok "object").
  { unfold _get_item_type, dict_mem. now rewrite Ho. }
  unfold modify_item.
  rewrite (mbind_ok _ _ m d m) by (unfold deref; now rewrite Hd).
  rewrite (mbind_ok _ _ m "object" m) by (unfold mlift; now rewrite Ht).
  simpl. unfold dict_mem. rewrite Hn. simpl.
  erewrite mbind_ok by (eapply pop_key_ok; eauto).
  erewrite mbind_ok.
  2:{ eapply pop_key_ok; [apply lookup_insert_eq|].
      rewrite dict_get_del_ne by discriminate. eauto. }
  set (m2 := set_store _ (set_store _ m)).
  assert (H2 : keys_at l
     (dict_keys (dict_del (KStr "name") (dict_del (KStr "object") d))) m2).
  { eexists. split; [apply lookup_insert_eq|done]. }
  unfold mbind.
  pose proof (_lookup_object_state vo vn m2) as Hs.
  destruct (_lookup_object vo vn m2) as [[obj|e] m3]; simpl in Hs; subst m3.
  - now apply _modify_item_keys_at.
  - exact H2.
Qed.

Lemma modify_clock_keys l d m :
  store m !! l = Some d ->
  _get_item_type d = Ok "clock" ->
  keys_at l (dict_keys (dict_del (KStr "clock") d)) (snd (modify_item l m)).
Proof.
  intros Hd Ht.
  assert (Hc : is_Some (dict_get (KStr "clock") d)).
  { apply dict_mem_get. unfold _get_item_type in Ht. mcases. }
  destruct Hc as [vc Hc].
  unfold modify_item.
  rewrite (mbind_ok _ _ m d m) by (unfold deref; now rewrite Hd).
  rewrite (mbind_ok _ _ m "clock" m) by (unfold mlift; now rewrite Ht).
  simpl.
  erewrite mbind_ok by (eapply pop_key_ok; eauto).
  set (m2 := set_store _ m).
  assert (H2 : keys_at l (dict_keys (dict_del (KStr "clock") d)) m2).
  { eexists. split; [apply lookup_insert_eq|done]. }
  unfold mbind.
  pose proof (_lookup_clock_state m2) as Hs.
  destruct (_lookup_clock m2) as [[obj|e] m3]; simpl in Hs; subst m3.
  - now apply _modify_item_keys_at.
  - exact H2.
Qed.

Lemma modify_module_keys l d m :
  store m !! l = Some d ->
  _get_item_type d = Ok "module" ->
  (dict_mem (KStr "omftype") d = false
   \/ forall name k, map_module m !! name <> Some (k, l)) ->
  keys_at l (dict_keys (dict_del (KStr "module") d)) (snd (modify_item l m)).
Proof.
  intros Hd Ht Hno.
  assert (Hc : is_Some (dict_get (KStr "module") d)).
  { apply dict_mem_get. unfold _get_item_type in Ht. mcases. }
  destruct Hc as [vc Hc].
  unfold modify_item.
  rewrite (mbind_ok _ _ m d m) by (unfold deref; now rewrite Hd).
  rewrite (mbind_ok _ _ m "module" m) by (unfold mlift; now rewrite Ht).
  simpl.
  erewrite mbind_ok by (eapply pop_key_ok; eauto).
  set (m2 := set_store _ m).
  assert (H2 : keys_at l (dict_keys (dict_del (KStr "module") d)) m2).
  { eexists. split; [apply lookup_insert_eq|done]. }
  pose proof (_lookup_module_state vc m2) as Hs.
  pose proof (_lookup_module_entry vc m2) as He.
  unfold mbind at 1.
  destruct (_lookup_module vc m2) as [[module|e] m3]; simpl in Hs; subst m3;
    [|exact H2].
  destruct (He module eq_refl) as (name & k & Hentry). simpl in Hentry.
  unfold mbind at 1. unfold deref at 1.
  destruct (store m2 !! module) as [md|] eqn:Hmd; [|exact H2].
  destruct (decide (module = l)) as [->|Hne].
  - assert (Hd2 : md = dict_del (KStr "module") d).
    { unfold m2 in Hmd. simpl in Hmd. rewrite lookup_insert_eq in Hmd.
      congruence. }
    destruct Hno as [Hno|Hno]; [|now apply Hno in Hentry].
    assert (Hmem : dict_mem (KStr "omftype") md = false).
    { subst md. apply dict_mem_false. rewrite dict_get_del_ne by discriminate.
      now apply dict_mem_false. }
    rewrite Hmem. unfold mbind, mret. simpl.
    now apply _modify_item_keys_at.
  - assert (H3 : keys_at l (dict_keys (dict_del (KStr "module") d))
             (snd ((if dict_mem (KStr "omftype") md
                    then argument <~ mlift (dict_item "argument" md) ;;
                         update module (dict_set (KStr "module") argument md) ;;;
                         pop_key module (KStr "omftype") ;;;
                         pop_key module (KStr "argument") ;;;
                         mret tt
                    else mret tt) m2))).
    { destruct (dict_mem (KStr "omftype") md); [|exact H2].
      unfold mbind at 1. unfold mlift.
      destruct (dict_item "argument" md) as [arg|]; [|exact H2].
      unfold mbind at 1. unfold update, mmodify.
      pose proof (keys_at_other _ _ _
        (dict_set (KStr "module") arg md) _ Hne H2) as H4.
      set (m4 := set_store _ m2) in *.
      unfold mbind at 1.
      pose proof (pop_key_keys_at _ _ (KStr "omftype") _ _ Hne H4) as H5.
      destruct (pop_key module (KStr "omftype") m4) as [[v5|e5] m5];
        simpl in H5; [|exact H5].
      unfold mbind at 1.
      pose proof (pop_key_keys_at _ _ (KStr "argument") _ _ Hne H5) as H6.
      destruct (pop_key module (KStr "argument") m5) as [[v6|e6] m6];
        simpl in H6; exact H6. }
    unfold mbind at 1.
    match goal with
    | H : keys_at _ _ (snd (?c m2)) |- context [?c' m2] =>
        change (c' m2) with (c m2); destruct (c m2) as [[[]|e4] m4]
    end; simpl in H3; [|exact H3].
    now apply _modify_item_keys_at.
Qed.

(** C10.  [add_item] and [modify_item] work on the caller's dictionary
    itself.  When [add_item] returns, every value of that dictionary has
    been replaced by its [str], and the tree holds that very dictionary
    (the same reference) under the key it was given.  After [modify_item]
    of an object with a name, of a clock or of a module (whether the
    target was found or not), the keys of the caller's dictionary are the
    keys it had without [object] and [name], without [clock], or without
    [module]; for a module this needs that the dictionary is not itself an
    entry of the index written with [omftype]. *)
Theorem caller_dictionary_is_mutated (m : GLMManager) (item_dict : loc)
    (d : pydict) :
  store m !! item_dict = Some d ->
  (forall m', add_item item_dict m = (Ok tt, m') ->
     store m' !! item_dict = Some (cast_all d)
     /\ model_dict m' !! (if is_object_item d then append_key m
                          else prepend_key m) = Some item_dict)
  /\ (forall item_type,
        _get_item_type d = Ok item_type -> identity_keys item_type <> [] ->
        (item_type = "object" -> dict_mem (KStr "name") d = true) ->
        (item_type = "module" ->
         dict_mem (KStr "omftype") d = false
         \/ forall name k, map_module m !! name <> Some (k, item_dict)) ->
        keys_at item_dict (dict_keys (pop_all (identity_keys item_type) d))
          (snd (modify_item item_dict m))).
Proof.
  intros Hd. split.
  - intros m' E.
    destruct (add_item_ok _ _ _ _ Hd E) as (Hall & Hs & [Hmd _] & _).
    rewrite Hs, Hmd, !lookup_insert_eq. now rewrite (cast_values_all _ Hall).
  - intros t Ht Hids Hname Hmod.
    destruct (_get_item_type_mem_true _ _ Ht Hids)
      as [[-> Hm]|[[-> Hm]|[-> Hm]]]; simpl.
    + apply modify_object_keys; auto.
    + now apply modify_clock_keys.
    + apply modify_module_keys; auto.
Qed.

(** C3: [remove_properties_from_item] pops the fields one after the
    other.  Asked to remove [phases] and then a field the line does not
    have, it raises for the missing field with [phases] already gone from
    the dictionary that the tree holds at key 0 and the index holds under
    (overhead_line, ol_3). *)
Theorem remove_properties_is_partial :
  exists m item m0 m',
    __init__ line_model = Ok m
    /\ new_dict line_id m = (Ok item, m0)
    /\ remove_properties_from_item item [KStr "phases"; KStr "bogus"] m0
       = (Raise (UserWarning (NonexistentField (KStr "bogus"))), m')
    /\ model_dict m' !! 0 = Some 0%nat
    /\ fst (_find_object (VStr "overhead_line") (VStr "ol_3") m') = Ok (Some 0%nat)
    /\ store m0 !! 0%nat =
         Some [(KStr "object", VStr "overhead_line"); (KStr "name", VStr "ol_3");
               (KStr "phases", VStr "ABC"); (KStr "length", VStr "100");
               (KStr "from", VStr "n1"); (KStr "to", VStr "n2")]
    /\ store m' !! 0%nat =
         Some [(KStr "object", VStr "overhead_line"); (KStr "name", VStr "ol_3");
               (KStr "length", VStr "100");
               (KStr "from", VStr "n1"); (KStr "to", VStr "n2")].
Proof.
  do 4 eexists.
  split; [vm_compute; reflexivity|].
  split; [vm_compute; reflexivity|].
  split; [vm_compute; reflexivity|].
  repeat split; vm_compute; reflexivity.
Qed.

(** ** The parsed tree is a dictionary: one entry per key *)

Lemma dict_get_None_keys k d : dict_get k d = None -> k ∉ dict_keys d.
Proof.
  unfold dict_keys. induction d as [|[k' v] d IH]; simpl; intros H.
  - apply not_elem_of_nil.
  - destruct (decide (k = k')); [done|].
    apply not_elem_of_cons. auto.
Qed.

Lemma dict_keys_set k v d :
  dict_keys (dict_set k v d) =
    if dict_mem k d then dict_keys d else dict_keys d ++ [k].
Proof.
  unfold dict_keys, dict_mem. induction d as [|[k' v'] d IH]; simpl; [done|].
  destruct (decide (k = k')) as [->|Hne]; simpl; [done|].
  rewrite IH. now destruct (dict_get k d).
Qed.

Lemma NoDup_dict_set k v d :
  NoDup (dict_keys d) -> NoDup (dict_keys (dict_set k v d)).
Proof.
  intros H. rewrite dict_keys_set. unfold dict_mem.
  destruct (dict_get k d) eqn:Hk; [done|].
  apply NoDup_app. split; [done|]. split; [|apply NoDup_singleton].
  intros x Hx ->%list_elem_of_singleton.
  now apply dict_get_None_keys in Hk.
Qed.

Lemma dict_keys_del_sublist k d : sublist (dict_keys (dict_del k d)) (dict_keys d).
Proof.
  unfold dict_keys. induction d as [|[k' v] d IH]; simpl; [done|].
  destruct (decide (k = k')); simpl.
  - now apply sublist_cons.
  - now apply sublist_skip.
Qed.

Lemma NoDup_dict_del k d :
  NoDup (dict_keys d) -> NoDup (dict_keys (dict_del k d)).
Proof.
  intros H. eapply sublist_NoDup; [exact H|apply dict_keys_del_sublist].
Qed.

Lemma current_leaf_add_NoDup k v t s t' :
  current_leaf_add k v t s = Ok t' ->
  NoDup (dict_keys t) -> NoDup (dict_keys t').
Proof.
  destruct s as [|x below]; simpl.
  - intros [= <-]. apply NoDup_dict_set.
  - destruct (dict_get (KInt x) t) as [[| |cur]|]; try done.
    destruct (current_leaf_add k v cur below); simpl; [|done].
    intros [= <-]. apply NoDup_dict_set.
Qed.

Ltac rbind_cases :=
  repeat match goal with
    | H : rbind ?r _ = Ok _ |- _ =>
        let E := fresh "E" in
        destruct r eqn:E; simpl in H; [|discriminate H]
    | H : (let (_, _) := ?p in _) = Ok _ |- _ => destruct p
    | H : (if ?b then _ else _) = Ok _ |- _ => destruct b
    | H : match ?x with _ => _ end = Ok _ |- _ =>
        destruct x eqn:?; try discriminate H
    | H : Ok _ = Ok _ |- _ => injection H as H; subst
    | H : Raise _ = Ok _ |- _ => discriminate H
    end.

Lemma dispatch_NoDup st full_token token_list st' token_list' :
  dispatch st full_token token_list = Ok (st', token_list') ->
  NoDup (dict_keys (tree st)) -> NoDup (dict_keys (tree st')).
Proof.
  unfold dispatch, directive. intros H Hnd.
  rbind_cases; simpl;
    repeat match goal with
      | H : current_leaf_add _ _ _ _ = Ok _ |- _ =>
          apply current_leaf_add_NoDup in H; [|solve [auto using NoDup_dict_set]]
      end;
    auto using NoDup_dict_set.
Qed.

Lemma build_tree_NoDup fuel token_list st t :
  build_tree fuel token_list st = Ok t ->
  NoDup (dict_keys (tree st)) -> NoDup (dict_keys t).
Proof.
  revert token_list st. induction fuel as [|fuel IH]; intros toks st.
  - destruct toks; simpl; [now intros [= <-]|done].
  - destruct toks as [|tok toks]; [now intros [= <-]|].
    cbn [build_tree]. intros H Hnd.
    destruct (collect [] (tok :: toks)) as [[ft rest]|]; simpl in H; [|done].
    destruct (dispatch st ft rest) as [[st' rest']|] eqn:E; simpl in H; [|done].
    eapply IH; eauto using dispatch_NoDup.
Qed.

Lemma legacy_pass_keys raw t dels :
  legacy_pass raw = Ok (t, dels) ->
  dict_keys t = dict_keys raw /\ Forall (fun kv => exists d, snd kv = VDict d) t.
Proof.
  revert t dels. induction raw as [|[k v] raw IH]; intros t dels H; simpl in H.
  - injection H as <- <-. split; [done|constructor].
  - destruct v; try done.
    destruct (legacy_item d) as [[item' delete]|]; simpl in H; [|done].
    destruct (legacy_pass raw) as [[t' dels']|]; simpl in H; [|done].
    injection H as <- <-. destruct (IH _ _ eq_refl) as [Hk Hv].
    split; [unfold dict_keys in *; simpl; now f_equal|].
    constructor; [simpl; eauto|done].
Qed.

Lemma dict_del_Forall (P : key * value -> Prop) k (t : pydict) :
  Forall P t -> Forall P (dict_del k t).
Proof.
  induction 1 as [|[k' v] t Hx Ht IH]; simpl; [constructor|].
  destruct (decide (k = k')); [done|]. now constructor.
Qed.

(** Every entry of a tree that [parse] returns is a dictionary, and no
    key occurs twice. *)
Lemma parse_entries input_str t :
  parse input_str = Ok t ->
  NoDup (dict_keys t) /\ Forall (fun kv => exists d, snd kv = VDict d) t.
Proof.
  unfold parse, _parse_token_list, translate_old_format, raw_tree. intros H.
  rbind_inv H as raw Hraw. rbind_inv H as r Hr. destruct r as [t' dels].
  injection H as <-.
  apply build_tree_NoDup in Hraw; [|constructor].
  apply legacy_pass_keys in Hr as [Hk Hv]. rewrite <- Hk in Hraw.
  clear Hk. revert t' Hraw Hv.
  induction dels as [|k dels IH]; intros t' Hnd Hv; simpl; [done|].
  apply IH; [now apply NoDup_dict_del|now apply dict_del_Forall].
Qed.

(** ** The manager as [__init__] leaves it *)

Lemma map_item_frame entry m r m' : map_item entry m = (r, m') -> same_tree m m'.
Proof.
  destruct entry as [k l]. unfold map_item, same_tree. munfold.
  destruct (store m !! l) as [d|]; [|now intros [= <- <-]].
  destruct (_get_item_type d) as [t|]; [|now intros [= <- <-]].
  repeat case_match; try (now intros [= <- <-]);
    first [ apply _add_object_to_map_frame | apply _add_clock_to_map_frame
          | apply _add_module_to_map_frame ].
Qed.

Lemma map_item_entry k l m r m' :
  map_item (k, l) m = (r, m') -> adds_entry k l r m m'.
Proof.
  unfold map_item, adds_entry. munfold.
  destruct (store m !! l) as [d|]; [|intros [= <- <-]; now left].
  destruct (_get_item_type d) as [t|]; [|intros [= <- <-]; now left].
  repeat case_match; try (intros [= <- <-]; now left);
    first [ apply _add_object_to_map_entry | apply _add_clock_to_map_entry
          | apply _add_module_to_map_entry ].
Qed.

Lemma _map_model_dict_effect items m m' :
  _map_model_dict items m = (Ok tt, m') ->
  same_tree m m'
  /\ forall e, index_entry m' e -> index_entry m e \/ e ∈ items.
Proof.
  revert m. induction items as [|[k l] items IH]; intros m;
    cbn [_map_model_dict].
  - intros [= <-]. split.
    + unfold same_tree. done.
    + intros e He. left. exact He.
  - unfold mbind at 1.
    destruct (map_item (k, l) m) as [[[]|e] m1] eqn:E; [|done].
    intros H. destruct (IH _ H) as [(F1 & F2 & F3 & F4) Hent].
    destruct (map_item_frame _ _ _ _ E) as (G1 & G2 & G3 & G4).
    split; [unfold same_tree; repeat split; congruence|].
    intros e He. destruct (Hent e He) as [He1|He1]; [|right; now right].
    destruct (map_item_entry _ _ _ _ _ E e He1) as [?|[_ ->]];
      [now left|right; left].
Qed.

Lemma load_keys next t entries :
  load next t = Ok entries ->
  dict_keys t = map (fun e => KInt (fst (fst e))) entries.
Proof.
  revert next entries. induction t as [|[[n|s] [| |d]] t IH];
    intros next entries H; simpl in H; try done.
  - now injection H as <-.
  - destruct (load (S next) t) eqn:E; simpl in H; [|done].
    injection H as <-. unfold dict_keys in *. simpl. f_equal. eauto.
Qed.

Lemma int_keys_keys t keys :
  int_keys t = Ok keys -> dict_keys t = map KInt keys.
Proof.
  revert keys. induction t as [|[[n|s] v] t IH]; intros keys H;
    simpl in H; try done.
  - now injection H as <-.
  - destruct (int_keys t) eqn:E; simpl in H; [|done].
    injection H as <-. unfold dict_keys in *. simpl. f_equal. eauto.
Qed.

Lemma max_keys_spec first keys :
  first <= max_keys first keys
  /\ (forall k, k ∈ keys -> k <= max_keys first keys)
  /\ (max_keys first keys = first \/ max_keys first keys ∈ keys).
Proof.
  unfold max_keys. revert first.
  induction keys as [|k keys IH]; intros first; simpl.
  - split; [lia|]. split; [|now left]. intros k H. inversion H.
  - destruct (IH (Z.max first k)) as (H1 & H2 & H3).
    split; [lia|]. split.
    + intros k' [->|Hk]%elem_of_cons; [lia|auto].
    + destruct H3 as [H3|H3]; [|right; now right].
      rewrite H3. destruct (Z.max_spec first k) as [[_ ->]|[_ ->]];
        [right; left|now left].
Qed.

Lemma min_keys_spec first keys :
  min_keys first keys <= first
  /\ (forall k, k ∈ keys -> min_keys first keys <= k)
  /\ (min_keys first keys = first \/ min_keys first keys ∈ keys).
Proof.
  unfold min_keys. revert first.
  induction keys as [|k keys IH]; intros first; simpl.
  - split; [lia|]. split; [|now left]. intros k H. inversion H.
  - destruct (IH (Z.min first k)) as (H1 & H2 & H3).
    split; [lia|]. split.
    + intros k' [->|Hk]%elem_of_cons; [lia|auto].
    + destruct H3 as [H3|H3]; [|right; now right].
      rewrite H3. destruct (Z.min_spec first k) as [[_ ->]|[_ ->]];
        [now left|right; left].
Qed.

Lemma map_KInt_inj (a b : list Z) : map KInt a = map KInt b -> a = b.
Proof.
  revert b. induction a as [|x a IH]; intros [|y b]; simpl; try done.
  intros [= -> H]. f_equal. auto.
Qed.

Lemma NoDup_map_KInt (a : list Z) : NoDup (map KInt a) -> NoDup a.
Proof.
  induction a as [|x a IH]; simpl; [constructor|].
  intros [Hx Ha]%NoDup_cons. apply NoDup_cons. split; [|auto].
  intros Hin. apply Hx. apply list_elem_of_In, in_map, list_elem_of_In, Hin.
Qed.

(** [__init__] establishes what the properties of the manager start
    from: the index entries alias the tree, the counters lie outside the
    keys in use, and stand just outside their bounds. *)
Lemma init_invariants model m :
  __init__ model = Ok m ->
  index_aliases_tree m /\ keys_between m /\ exists lo hi, key_bounds m lo hi.
Proof.
  unfold __init__. intros H.
  rbind_inv H as t Ht. destruct t as [|entry0 t0] eqn:Htree; [done|].
  rewrite <- Htree in *.
  rbind_inv H as keys Hkeys. rbind_inv H as entries Hentries.
  destruct (_map_model_dict _ _) as [[[]|e] m'] eqn:E; [|done].
  injection H as <-.
  apply _map_model_dict_effect in E as [(_ & Hmd & Ha & Hp) Hent].
  simpl in Hmd, Ha, Hp.
  destruct (parse_entries _ _ Ht) as [Hnd _].
  pose proof (int_keys_keys _ _ Hkeys) as Hk.
  pose proof (load_keys _ _ _ Hentries) as Hl.
  assert (Hkeys' : keys = (map fst entries).*1).
  { rewrite Hk in Hl. apply map_KInt_inj. rewrite Hl.
    clear. induction entries as [|e entries IH]; simpl; [done|].
    f_equal. apply IH. }
  assert (Hnd' : NoDup keys).
  { rewrite Hk in Hnd. now apply NoDup_map_KInt. }
  assert (Hin : forall k, is_Some (model_dict m' !! k) <-> k ∈ keys).
  { intros k. rewrite Hmd, Hkeys'. split.
    - intros [l Hl']. apply elem_of_list_to_map_2 in Hl'.
      apply list_elem_of_fmap. now exists (k, l).
    - intros Hk'. destruct (list_to_map (M := gmap Z loc) (map fst entries) !! k)
        eqn:Hn; [eauto|].
      now apply not_elem_of_list_to_map in Hn. }
  assert (Hfirst : List.hd 0 keys ∈ keys).
  { destruct keys as [|k0 keys0]; [|left].
    subst t. simpl in Hk. discriminate. }
  destruct (max_keys_spec (List.hd 0 keys) keys) as (M1 & M2 & M3).
  destruct (min_keys_spec (List.hd 0 keys) keys) as (N1 & N2 & N3).
  split; [|split].
  - intros k l Hkl. destruct (Hent _ Hkl) as [Hold|Hnew].
    + destruct Hold as [H|n H|x ot n H1 H2|H]; simpl in *; try done.
      inversion H.
    + rewrite Hmd. apply elem_of_list_to_map_1; [now rewrite <- Hkeys'|done].
  - unfold keys_between. rewrite Ha, Hp. split; [lia|].
    intros k Hk'%Hin. specialize (M2 _ Hk'). specialize (N2 _ Hk'). lia.
  - exists (min_keys (List.hd 0 keys) keys), (max_keys (List.hd 0 keys) keys).
    unfold key_bounds. rewrite Ha, Hp. repeat split.
    + apply Hin. destruct N3 as [->|?]; done.
    + apply Hin. destruct M3 as [->|?]; done.
    + now apply N2, Hin.
    + now apply M2, Hin.
Qed.

Lemma line_manager_init : __init__ line_model = Ok line_manager.
Proof. vm_compute. reflexivity. Qed.

Lemma new_dict_invariants d m :
  index_aliases_tree m -> keys_between m ->
  index_aliases_tree (snd (new_dict d m)) /\ keys_between (snd (new_dict d m)).
Proof.
  intros Ha Hk. split.
  - intros k l [H|n H|x ot n H1 H2|H]; apply Ha; eauto using index_entry.
  - exact Hk.
Qed.

Lemma new_dict_key_bounds d m lo hi :
  key_bounds m lo hi -> key_bounds (snd (new_dict d m)) lo hi.
Proof. intros H. exact H. Qed.

Lemma index_aliases_tree_preserved_witness :
  (index_aliases_tree (snd (add_item 1%nat two_items_manager))
   /\ keys_between (snd (add_item 1%nat two_items_manager)))
  /\ (index_aliases_tree (snd (modify_item 1%nat two_items_manager))
      /\ keys_between (snd (modify_item 1%nat two_items_manager))).
Proof.
  destruct (init_invariants _ _ line_manager_init) as (Ha & Hk & _).
  destruct (new_dict_invariants new_line _ Ha Hk) as [Ha1 Hk1].
  destruct (new_dict_invariants [(KStr "#set", VStr "profiler=1")] _ Ha1 Hk1)
    as [Ha2 Hk2].
  exact (index_aliases_tree_preserved two_items_manager 1%nat Ha2 Hk2).
Defined.

Lemma line_manager_bounds : key_bounds two_items_manager 0 0.
Proof.
  destruct (init_invariants _ _ line_manager_init) as (_ & _ & lo & hi & Hb).
  assert (lo = 0 /\ hi = 0) as [-> ->].
  { destruct Hb as (_ & _ & _ & Ha & Hp).
    assert (Ha' : append_key line_manager = 1) by (vm_compute; reflexivity).
    assert (Hp' : prepend_key line_manager = -1) by (vm_compute; reflexivity).
    lia. }
  exact Hb.
Qed.

(** The witness: from the manager of [line_model], whose only key is 0,
    one object and one directive are added, and the keys span [-1, 1]. *)
Lemma key_monotonicity_witness :
  key_bounds two_items_manager 0 0
  /\ add_all [1%nat; 2%nat] two_items_manager
     = (Ok (1%nat, 1%nat), snd (add_all [1%nat; 2%nat] two_items_manager))
  /\ key_bounds (snd (add_all [1%nat; 2%nat] two_items_manager))
       (0 - Z.of_nat 1) (0 + Z.of_nat 1).
Proof.
  assert (E : add_all [1%nat; 2%nat] two_items_manager
              = (Ok (1%nat, 1%nat), snd (add_all [1%nat; 2%nat] two_items_manager)))
    by (vm_compute; reflexivity).
  split; [exact line_manager_bounds|]. split; [exact E|].
  exact (proj2 (key_monotonicity two_items_manager 0 0 line_manager_bounds)
           _ _ _ _ E).
Defined.

Lemma duplicates_raise_witness :
  fst (add_item 1%nat line_manager_with_caller)
  = Raise (UserWarning (ObjectAlreadyExists "ol_3" "overhead_line"))
  /\ model_dict (snd (add_item 1%nat line_manager_with_caller))
     = model_dict line_manager_with_caller
  /\ same_index line_manager_with_caller
       (snd (add_item 1%nat line_manager_with_caller)).
Proof.
  apply (duplicates_raise line_manager_with_caller 1%nat line_id
           (ObjectAlreadyExists (py_str (VStr "ol_3"))
              (py_str (VStr "overhead_line")))).
  - vm_compute. reflexivity.
  - reflexivity.
  - eapply second_object.
    + reflexivity.
    + reflexivity.
    + reflexivity.
    + vm_compute. reflexivity.
    + eexists. vm_compute. reflexivity.
Defined.

(** The witness: the add returns and leaves the number 250 as the text
    ["250"] in the caller's dictionary, which the tree holds at key 1; the
    modify (of a line the model does not have) leaves the caller's
    dictionary with [length] alone. *)
Lemma caller_dictionary_is_mutated_witness :
  store two_items_manager !! 1%nat = Some new_line
  /\ (store (snd (add_item 1%nat two_items_manager)) !! 1%nat
      = Some [(KStr "object", VStr "overhead_line"); (KStr "name", VStr "ol_4");
              (KStr "length", VStr "250")]
      /\ model_dict (snd (add_item 1%nat two_items_manager)) !! 1 = Some 1%nat)
  /\ keys_at 1%nat [KStr "length"] (snd (modify_item 1%nat two_items_manager)).
Proof.
  assert (Hd : store two_items_manager !! 1%nat = Some new_line)
    by (vm_compute; reflexivity).
  destruct (caller_dictionary_is_mutated two_items_manager 1%nat new_line Hd)
    as [Hadd Hmod].
  split; [exact Hd|]. split.
  - apply (Hadd (snd (add_item 1%nat two_items_manager))).
    vm_compute. reflexivity.
  - apply (Hmod "object").
    + reflexivity.
    + discriminate.
    + reflexivity.
    + discriminate.
Defined.

(** ** The loop of the parser ends: the length of the token list is fuel
    enough *)

Lemma collect_shorter acc toks ft rest :
  collect acc toks = Ok (ft, rest) -> (length rest < length toks)%nat.
Proof.
  revert acc. induction toks as [|t toks IH]; intros acc; simpl; [done|].
  destruct (is_terminator t).
  - intros [= <- <-]. lia.
  - intros H%IH. lia.
Qed.

Lemma collect_until_shorter stop ft toks ft' rest :
  collect_until stop ft toks = Ok (ft', rest) -> (length rest <= length toks)%nat.
Proof.
  revert ft. induction toks as [|t toks IH]; intros ft; simpl.
  - destruct (_ =? _)%string; [|done]. now intros [= <- <-].
  - destruct (_ =? _)%string.
    + now intros [= <- <-].
    + intros H%IH. lia.
Qed.

Lemma dispatch_shorter st ft toks st' toks' :
  dispatch st ft toks = Ok (st', toks') -> (length toks' <= length toks)%nat.
Proof.
  unfold dispatch, directive. intros H.
  rbind_cases;
    repeat match goal with
      | H : collect_until _ _ _ = Ok _ |- _ => apply collect_until_shorter in H
      end; simpl in *; lia.
Qed.

Lemma in_model_bind {A B} (r : result A) (f : A -> result B) :
  in_model r -> (forall a, r = Ok a -> in_model (f a)) -> in_model (rbind r f).
Proof.
  destruct r as [a|e]; simpl; intros Hr Hf; [now apply Hf|].
  intros [= ->]. now apply Hr.
Qed.

Lemma collect_in_model acc toks : in_model (collect acc toks).
Proof.
  revert acc. induction toks as [|t toks IH]; intros acc; simpl; [done|].
  destruct (is_terminator t); [done|apply IH].
Qed.

Lemma collect_until_in_model stop ft toks : in_model (collect_until stop ft toks).
Proof.
  revert ft. induction toks as [|t toks IH]; intros ft; simpl.
  - now destruct (_ =? _)%string.
  - destruct (_ =? _)%string; [done|apply IH].
Qed.

Lemma list_to_string_in_model l : in_model (list_to_string l).
Proof. unfold list_to_string. now repeat case_match. Qed.

Lemma current_leaf_add_in_model k v t s : in_model (current_leaf_add k v t s).
Proof.
  revert t. induction s as [|x s IH]; intros t; simpl; [done|].
  repeat case_match; try done.
  apply in_model_bind; [apply IH|done].
Qed.

Lemma pop_stack_in_model s : in_model (pop_stack s).
Proof. now destruct s. Qed.

Ltac in_model :=
  repeat first
    [ apply in_model_bind; [|intros ? ?]
    | apply collect_until_in_model
    | apply list_to_string_in_model
    | apply current_leaf_add_in_model
    | apply pop_stack_in_model
    | discriminate
    | case_match ].

Lemma dispatch_in_model st ft toks : in_model (dispatch st ft toks).
Proof. unfold dispatch, directive. in_model. Qed.

Lemma build_tree_fuel fuel toks st :
  (length toks <= fuel)%nat -> in_model (build_tree fuel toks st).
Proof.
  revert toks st. induction fuel as [|fuel IH]; intros toks st Hlen.
  - destruct toks; [done|simpl in Hlen; lia].
  - destruct toks as [|t toks]; [done|]. cbn [build_tree].
    apply in_model_bind; [apply collect_in_model|].
    intros [ft rest] Hc. apply collect_shorter in Hc.
    apply in_model_bind; [apply dispatch_in_model|].
    intros [st' rest'] Hd. apply dispatch_shorter in Hd.
    apply IH. simpl in *. lia.
Qed.

(** [parse] returns a tree or raises a Python exception: the model's own
    failure is not among its results. *)
Lemma parse_in_model input_str : in_model (parse input_str).
Proof.
  unfold parse, _parse_token_list, raw_tree.
  apply in_model_bind; [now apply build_tree_fuel|].
  intros raw _. unfold translate_old_format.
  apply in_model_bind; [|now intros [? ?] _].
  induction raw as [|[k v] raw IH]; simpl; [done|].
  destruct v; try done.
  apply in_model_bind.
  - unfold legacy_item, replace_hyphens, value_replace.
    assert (Hc : forall d, in_model (replace_colons d)).
    { induction d0 as [|[k' v'] d0 IHd]; simpl; [done|].
      unfold value_replace. in_model. apply IHd. }
    repeat first [ apply Hc | progress in_model ].
  - intros [? ?] _. apply in_model_bind; [exact IH|now intros [? ?] _].
Qed.

(** ** Further properties of the manager *)

Lemma init_tree_in_store model m : __init__ model = Ok m -> tree_in_store m.
Proof.
  unfold __init__. intros H.
  rbind_inv H as t Ht. destruct t as [|entry0 t0] eqn:Htree; [done|].
  rewrite <- Htree in *.
  rbind_inv H as keys Hkeys. rbind_inv H as entries Hentries.
  destruct (_map_model_dict _ _) as [[[]|e] m'] eqn:E; [|done].
  injection H as <-.
  apply _map_model_dict_effect in E as [(Hs & Hmd & _ & _) _].
  simpl in Hs, Hmd. intros k l. rewrite Hs, Hmd.
  intros Hkl%elem_of_list_to_map_2.
  apply list_elem_of_fmap in Hkl as ([[k' l'] d] & [= <- <-] & Hin).
  destruct (list_to_map (M := gmap loc pydict)
              (map (fun e : key_obj * pydict => (e.1.2, e.2)) entries) !! l)
    eqn:Hn; [eauto|].
  apply not_elem_of_list_to_map in Hn. exfalso. apply Hn.
  apply list_elem_of_fmap. exists (l, d). split; [done|].
  apply list_elem_of_fmap. now exists (k, l, d).
Qed.

(** X1.  A manager that [__init__] returns has its index entries aliasing
    the tree (each holds the reference the tree holds under its key), its
    two counters outside the keys in use, [append_key] one above the
    largest key and [prepend_key] one below the smallest, and every
    reference of the tree leading to a dictionary. *)
Theorem manager_after_init (model : string) (m : GLMManager) :
  __init__ model = Ok m ->
  index_aliases_tree m /\ keys_between m /\ tree_in_store m
  /\ exists lo hi, key_bounds m lo hi.
Proof.
  intros H. destruct (init_invariants _ _ H) as (Ha & Hk & Hb).
  split; [exact Ha|]. split; [exact Hk|]. split; [|exact Hb].
  now apply init_tree_in_store in H.
Qed.

Lemma manager_after_init_witness :
  index_aliases_tree line_manager /\ keys_between line_manager
  /\ tree_in_store line_manager /\ exists lo hi, key_bounds line_manager lo hi.
Proof.
  apply (manager_after_init line_model line_manager).
  vm_compute. reflexivity.
Defined.






Lemma same_index_sym m m' : same_index m m' -> same_index m' m.
Proof. unfold same_index. intros (?&?&?&?). repeat split; congruence. Qed.





Lemma store_only__remove_from_item item ps : store_only (_remove_from_item item ps).
Proof.
  induction ps as [|k ps IH]; cbn [_remove_from_item]; [store_only|].
  apply store_only_bind; [apply store_only_deref|]. intros d.
  destruct (dict_get k d); [|store_only].
  apply store_only_bind; [apply store_only_update|]. intros _. exact IH.
Qed.

Lemma store_only_remove_properties l ps :
  store_only (remove_properties_from_item l ps).
Proof.
  unfold remove_properties_from_item.
  repeat first
    [ apply store_only__remove_from_item
    | apply store_only__lookup_object | apply store_only__lookup_module
    | apply store_only__lookup_clock | progress store_only ].
Qed.

(** X3.  [modify_item] and [remove_properties_from_item] change
    dictionaries only: whether they return or raise, the keys of the tree
    and the references under them, the two counters and the whole index
    are as before. *)
Theorem only_dictionaries_change (m m' : GLMManager) (item_dict : loc)
    (property_list : list key) (r : result unit) :
  modify_item item_dict m = (r, m')
  \/ remove_properties_from_item item_dict property_list m = (r, m') ->
  model_dict m' = model_dict m /\ append_key m' = append_key m
  /\ prepend_key m' = prepend_key m /\ same_index m m'.
Proof.
  intros [H|H].
  - exact (store_only_modify_item _ _ _ _ H).
  - exact (store_only_remove_properties _ _ _ _ _ H).
Qed.

Lemma only_dictionaries_change_witness :
  model_dict (snd (modify_item 1%nat two_items_manager))
  = model_dict two_items_manager
  /\ append_key (snd (modify_item 1%nat two_items_manager))
     = append_key two_items_manager
  /\ prepend_key (snd (modify_item 1%nat two_items_manager))
     = prepend_key two_items_manager
  /\ same_index two_items_manager (snd (modify_item 1%nat two_items_manager)).
Proof.
  apply (only_dictionaries_change two_items_manager _ 1%nat []
           (fst (modify_item 1%nat two_items_manager))).
  left. vm_compute. reflexivity.
Defined.

Lemma cast_values_pair d :
  snd (cast_values d) = true -> cast_values d = (cast_all d, true).
Proof.
  intros H. rewrite <- (cast_values_all _ H), <- H. now destruct (cast_values d).
Qed.

(** X4.  What [add_item] has added can be looked up, and the lookup gives
    the caller's own dictionary: a named object through [_find_object]
    with its type and name as text, a module through [_lookup_module] with
    its name as text, a clock through [_lookup_clock]. *)
Theorem added_item_is_found (m m' : GLMManager) (item_dict : loc) (d : pydict) :
  store m !! item_dict = Some d ->
  add_item item_dict m = (Ok tt, m') ->
  (forall t n, dict_get (KStr "object") d = Some t ->
     dict_get (KStr "name") d = Some n ->
     fst (_find_object (VStr (py_str t)) (VStr (py_str n)) m') = Ok (Some item_dict))
  /\ (forall n, _get_item_type d = Ok "module" ->
        dict_get (KStr "module") d = Some n ->
        fst (_lookup_module (VStr (py_str n)) m') = Ok item_dict)
  /\ (_get_item_type d = Ok "clock" -> fst (_lookup_clock m') = Ok item_dict).
Proof.
  intros Hd H.
  destruct (add_item_ok _ _ _ _ Hd H) as (Hall & _).
  apply cast_values_pair in Hall.
  unfold add_item in H. munfold. rewrite Hd in H.
  destruct (_get_item_type d) as [ty|] eqn:Hty; [|done].
  rewrite Hall in H. simpl in H.
  split; [|split].
  - intros t n Ht Hn.
    assert (Hobj : ty = "object").
    { unfold _get_item_type, dict_mem in Hty. rewrite Ht in Hty. congruence. }
    subst ty. simpl in H.
    unfold _add_object, _add_object_to_map in H. munfold. simpl in H.
    rewrite lookup_insert_eq in H. unfold dict_item in H.
    rewrite !dict_get_cast_all, Ht, Hn in H. simpl in H.
    destruct (default ∅ (ensure_type (py_str t) (map_object m) !! py_str t)
                !! py_str n) eqn:E; [done|].
    simpl in H. injection H as <-.
    unfold _find_object. munfold. simpl.
    now rewrite !lookup_insert_eq.
  - intros n [= ->] Hn. simpl in H.
    unfold _add_non_object, map_non_object, _add_module_to_map in H.
    munfold. simpl in H. rewrite lookup_insert_eq in H.
    assert (Hmem : dict_mem (KStr "module") d = true)
      by (apply dict_mem_get; eauto).
    rewrite dict_mem_cast_all, Hmem in H. unfold dict_item in H.
    rewrite dict_get_cast_all, Hn in H. simpl in H.
    destruct (map_module m !! py_str n) eqn:E; [done|].
    simpl in H. injection H as <-.
    unfold _lookup_module. munfold. simpl. now rewrite lookup_insert_eq.
  - intros [= ->]. simpl in H.
    unfold _add_non_object, map_non_object, _add_clock_to_map in H.
    munfold. simpl in H.
    destruct (map_clock m) eqn:E; [done|].
    simpl in H. now injection H as <-.
Qed.

Lemma added_item_is_found_witness :
  fst (_find_object (VStr "overhead_line") (VStr "ol_4")
         (snd (add_item 1%nat two_items_manager))) = Ok (Some 1%nat).
Proof.
  assert (Hd : store two_items_manager !! 1%nat = Some new_line)
    by (vm_compute; reflexivity).
  assert (H : add_item 1%nat two_items_manager
              = (Ok tt, snd (add_item 1%nat two_items_manager)))
    by (vm_compute; reflexivity).
  exact (proj1 (added_item_is_found _ _ _ _ Hd H)
           (VStr "overhead_line") (VStr "ol_4") eq_refl eq_refl).
Defined.

(** X5.  A [remove_item] that raises has changed nothing at all: it looks
    the target up in the index and in the tree before it removes
    anything. *)
Theorem failed_remove_changes_nothing (m m' : GLMManager) (item_dict : loc)
    (e : exn) :
  remove_item item_dict m = (Raise e, m') -> m' = m.
Proof.
  unfold remove_item, pop_model_key, _lookup_clock, _lookup_module.
  munfold. intros H.
  repeat (case_match; simplify_eq/=; try done).
Qed.

Lemma failed_remove_changes_nothing_witness :
  snd (remove_item 1%nat two_items_manager) = two_items_manager.
Proof.
  apply (failed_remove_changes_nothing two_items_manager _ 1%nat KeyError).
  vm_compute. reflexivity.
Defined.

Lemma add_object_entry m m1 l d t n :
  store m !! l = Some d ->
  dict_get (KStr "object") d = Some t -> dict_get (KStr "name") d = Some n ->
  add_item l m = (Ok tt, m1) ->
  exists ot, map_object m1 !! py_str t = Some ot
             /\ ot !! py_str n = Some (append_key m, l).
Proof.
  intros Hd Ht Hn H.
  destruct (add_item_ok _ _ _ _ Hd H) as (Hall & _).
  apply cast_values_pair in Hall.
  unfold add_item in H. munfold. rewrite Hd in H.
  assert (Hty : _get_item_type d = Ok "object").
  { unfold _get_item_type, dict_mem. now rewrite Ht. }
  rewrite Hty, Hall in H. simpl in H.
  unfold _add_object, _add_object_to_map in H. munfold. simpl in H.
  rewrite lookup_insert_eq in H. unfold dict_item in H.
  rewrite !dict_get_cast_all, Ht, Hn in H. simpl in H.
  destruct (default ∅ (ensure_type (py_str t) (map_object m) !! py_str t)
              !! py_str n) eqn:E; [done|].
  simpl in H. injection H as <-. simpl.
  eexists. split; [apply lookup_insert_eq|apply lookup_insert_eq].
Qed.

(** X6.  Removing a named object that was just added, by the dictionary
    it was added with, returns; the tree is then the tree before the add
    (when [append_key] was not a key in use), the object is no longer
    found, and [append_key] stays one higher: a key is not used twice. *)
Theorem add_then_remove (m m1 : GLMManager) (item_dict : loc) (d : pydict)
    (t n : value) :
  store m !! item_dict = Some d ->
  dict_get (KStr "object") d = Some t ->
  dict_get (KStr "name") d = Some n ->
  model_dict m !! append_key m = None ->
  add_item item_dict m = (Ok tt, m1) ->
  fst (remove_item item_dict m1) = Ok tt
  /\ model_dict (snd (remove_item item_dict m1)) = model_dict m
  /\ append_key (snd (remove_item item_dict m1)) = append_key m + 1
  /\ fst (_find_object (VStr (py_str t)) (VStr (py_str n))
            (snd (remove_item item_dict m1))) = Ok None.
Proof.
  intros Hd Ht Hn Hfresh H.
  destruct (add_item_ok _ _ _ _ Hd H) as (Hall & Hs & [Hmd _] & Ha & _).
  destruct (add_object_entry _ _ _ _ _ _ Hd Ht Hn H) as (ot & Hot & Hk).
  assert (Hobj : is_object_item d = true).
  { unfold is_object_item. apply dict_mem_get. eauto. }
  rewrite Hobj in *. rewrite (cast_values_all _ Hall) in Hs.
  unfold remove_item, pop_model_key. munfold.
  rewrite Hs, lookup_insert_eq.
  assert (Hty : _get_item_type (cast_all d) = Ok "object").
  { unfold _get_item_type. rewrite dict_mem_cast_all.
    unfold is_object_item in Hobj. now rewrite Hobj. }
  rewrite Hty. simpl. unfold dict_item.
  rewrite !dict_get_cast_all, Ht, Hn. simpl.
  rewrite Hot, Hk, Hmd, lookup_insert_eq. simpl.
  repeat split.
  - rewrite Hmd. now apply delete_insert_id.
  - exact Ha.
  - unfold _find_object. munfold. simpl.
    now rewrite lookup_insert_eq, lookup_delete_eq.
Qed.

Lemma add_then_remove_witness :
  fst (remove_item 1%nat (snd (add_item 1%nat two_items_manager))) = Ok tt
  /\ model_dict (snd (remove_item 1%nat (snd (add_item 1%nat two_items_manager))))
     = model_dict two_items_manager
  /\ append_key (snd (remove_item 1%nat (snd (add_item 1%nat two_items_manager))))
     = append_key two_items_manager + 1
  /\ fst (_find_object (VStr (py_str (VStr "overhead_line")))
            (VStr (py_str (VStr "ol_4")))
            (snd (remove_item 1%nat (snd (add_item 1%nat two_items_manager)))))
     = Ok None.
Proof.
  apply (add_then_remove two_items_manager _ 1%nat new_line).
  - vm_compute. reflexivity.
  - reflexivity.
  - reflexivity.
  - vm_compute. reflexivity.
  - vm_compute. reflexivity.
Defined.

Lemma dict_get_not_key k d : k ∉ dict_keys d -> dict_get k d = None.
Proof.
  unfold dict_keys. induction d as [|[k' v] d IH]; simpl; [done|].
  intros H. apply not_elem_of_cons in H as [Hne H].
  destruct (decide (k = k')); [done|auto].
Qed.

Lemma dict_get_del_eq k d : NoDup (dict_keys d) -> dict_get k (dict_del k d) = None.
Proof.
  unfold dict_keys. induction d as [|[k' v] d IH]; simpl; [done|].
  intros [Hk Hd]%NoDup_cons.
  destruct (decide (k = k')) as [->|Hne]; simpl.
  - now apply dict_get_not_key.
  - destruct (decide (k = k')); [done|auto].
Qed.

(** The lookups of a dictionary after [_modify_item]: the keys of the
    update hold its values as text, the other keys are as before. *)
Lemma dict_get_modify (upd tgt : pydict) key :
  NoDup (dict_keys upd) ->
  dict_get key
    (fold_left (fun t kv => dict_set (fst kv) (VStr (py_str (snd kv))) t) upd tgt)
  = match dict_get key upd with
    | Some v => Some (VStr (py_str v))
    | None => dict_get key tgt
    end.
Proof.
  revert tgt. unfold dict_keys.
  induction upd as [|[k v] upd IH]; intros tgt Hnd; simpl; [done|].
  apply NoDup_cons in Hnd as [Hk Hnd]. simpl in Hk. rewrite IH by done.
  apply dict_get_not_key in Hk.
  destruct (decide (key = k)) as [->|Hne].
  - rewrite Hk. apply dict_get_set_eq.
  - destruct (dict_get key upd); [done|]. now apply dict_get_set_ne.
Qed.

(** X7.  [modify_item] called with a dictionary of the caller that is
    not the target itself: when the index holds an object under the type
    and name of the caller's dictionary, the call returns, and the target
    then holds, for every key of the caller's dictionary other than
    [object] and [name], the caller's value as text; every other key of
    the target, [object] and [name] among them, is as before.  (Called
    with the target's own dictionary, [modify_item] pops [object] and
    [name] from it; that case is left out here.) *)
Theorem modify_item_overwrites_given_fields (m : GLMManager)
    (item_dict target : loc) (d td : pydict) (t n : string) (k : Z)
    (of_type : gmap string key_obj) :
  store m !! item_dict = Some d -> NoDup (dict_keys d) ->
  dict_get (KStr "object") d = Some (VStr t) ->
  dict_get (KStr "name") d = Some (VStr n) ->
  map_object m !! t = Some of_type -> of_type !! n = Some (k, target) ->
  target <> item_dict -> store m !! target = Some td ->
  fst (modify_item item_dict m) = Ok tt
  /\ exists td',
       store (snd (modify_item item_dict m)) !! target = Some td'
       /\ forall key,
            dict_get key td' =
              if bool_decide (key = KStr "object" \/ key = KStr "name")
              then dict_get key td
              else match dict_get key d with
                   | Some v => Some (VStr (py_str v))
                   | None => dict_get key td
                   end.
Proof.
  intros Hd Hnd Ht Hn Hot Hk Hne Htd.
  assert (Hty : _get_item_type d = Ok "object").
  { unfold _get_item_type, dict_mem. now rewrite Ht. }
  unfold modify_item.
  rewrite (mbind_ok _ _ m d m) by (unfold deref; now rewrite Hd).
  rewrite (mbind_ok _ _ m "object" m) by (unfold mlift; now rewrite Hty).
  simpl. unfold dict_mem. rewrite Hn. simpl.
  erewrite mbind_ok by (eapply pop_key_ok; eauto).
  erewrite mbind_ok.
  2:{ eapply pop_key_ok; [apply lookup_insert_eq|].
      rewrite dict_get_del_ne by discriminate. eauto. }
  erewrite mbind_ok.
  2:{ unfold _lookup_object, _find_object. munfold. simpl.
      rewrite Hot. simpl. rewrite Hk. reflexivity. }
  unfold _modify_item. munfold. simpl.
  rewrite lookup_insert_eq. simpl. rewrite !lookup_insert_ne by done.
  rewrite Htd. simpl. split; [done|].
  eexists. split; [apply lookup_insert_eq|].
  intros key. rewrite dict_get_modify.
  2:{ now apply NoDup_dict_del, NoDup_dict_del. }
  case_bool_decide as Hkey.
  - destruct Hkey as [-> | ->].
    + rewrite dict_get_del_ne by discriminate.
      now rewrite dict_get_del_eq.
    + rewrite dict_get_del_eq; [done|]. now apply NoDup_dict_del.
  - rewrite !dict_get_del_ne; [done| |]; intros ->; apply Hkey; auto.
Qed.

Lemma modify_item_overwrites_given_fields_witness :
  fst (modify_item 1%nat
         (snd (new_dict (line_id ++ [(KStr "length", VNum "250")]) line_manager)))
  = Ok tt
  /\ exists td',
       store (snd (modify_item 1%nat
                (snd (new_dict (line_id ++ [(KStr "length", VNum "250")])
                        line_manager)))) !! 0%nat = Some td'
       /\ forall key,
            dict_get key td' =
              if bool_decide (key = KStr "object" \/ key = KStr "name")
              then dict_get key
                     [(KStr "object", VStr "overhead_line");
                      (KStr "name", VStr "ol_3"); (KStr "phases", VStr "ABC");
                      (KStr "length", VStr "100"); (KStr "from", VStr "n1");
                      (KStr "to", VStr "n2")]
              else match dict_get key (line_id ++ [(KStr "length", VNum "250")]) with
                   | Some v => Some (VStr (py_str v))
                   | None =>
                       dict_get key
                         [(KStr "object", VStr "overhead_line");
                          (KStr "name", VStr "ol_3"); (KStr "phases", VStr "ABC");
                          (KStr "length", VStr "100"); (KStr "from", VStr "n1");
                          (KStr "to", VStr "n2")]
                   end.
Proof.
  eapply (modify_item_overwrites_given_fields _ 1%nat 0%nat _ _
            "overhead_line" "ol_3" 0).
  - vm_compute. reflexivity.
  - repeat constructor; vm_compute; intros H;
      repeat (apply elem_of_cons in H as [H|H]; [discriminate|]);
      inversion H.
  - reflexivity.
  - reflexivity.
  - vm_compute. reflexivity.
  - vm_compute. reflexivity.
  - discriminate.
  - vm_compute. reflexivity.
Defined.

Lemma dict_get_pop_all key ps td :
  NoDup (dict_keys td) ->
  dict_get key (pop_all ps td)
  = if bool_decide (key ∈ ps) then None else dict_get key td.
Proof.
  unfold pop_all. revert td.
  induction ps as [|k ps IH]; intros td Hnd; simpl; [done|].
  rewrite IH by now apply NoDup_dict_del.
  destruct (decide (key = k)) as [->|Hne].
  - rewrite (bool_decide_eq_true_2 (k ∈ k :: ps)) by left.
    rewrite dict_get_del_eq by done. now case_bool_decide.
  - rewrite dict_get_del_ne by done.
    repeat case_bool_decide; try done.
    + exfalso. apply H0. now right.
    + exfalso. apply elem_of_cons in H0 as [?|?]; auto.
Qed.

(** [_remove_from_item] when the target has all the fields of the list. *)
Lemma _remove_from_item_ok tgt ps m td :
  store m !! tgt = Some td -> NoDup ps ->
  (forall k, k ∈ ps -> is_Some (dict_get k td)) ->
  fst (_remove_from_item tgt ps m) = Ok tt
  /\ store (snd (_remove_from_item tgt ps m)) !! tgt = Some (pop_all ps td).
Proof.
  revert m td. induction ps as [|k ps IH]; intros m td Htd Hnd Hall.
  - simpl. done.
  - cbn [_remove_from_item]. munfold. rewrite Htd.
    destruct (Hall k) as [v Hv]; [left|]. rewrite Hv. simpl.
    apply NoDup_cons in Hnd as [Hk Hnd].
    apply IH; [apply lookup_insert_eq|done|].
    intros k' Hk'. rewrite dict_get_del_ne.
    + apply Hall. now right.
    + intros ->. done.
Qed.

(** X8.  [remove_properties_from_item] of an object that the index holds,
    with a list of distinct fields that the target all has, returns, and
    the target has then lost exactly the listed fields: a listed key is no
    longer there and every other key holds what it held. *)
Theorem remove_properties_removes_listed_fields (m : GLMManager)
    (item_dict target : loc) (d td : pydict) (t n : string) (k : Z)
    (of_type : gmap string key_obj) (property_list : list key) :
  store m !! item_dict = Some d ->
  dict_get (KStr "object") d = Some (VStr t) ->
  dict_get (KStr "name") d = Some (VStr n) ->
  map_object m !! t = Some of_type -> of_type !! n = Some (k, target) ->
  store m !! target = Some td -> NoDup (dict_keys td) ->
  NoDup property_list ->
  (forall p, p ∈ property_list -> is_Some (dict_get p td)) ->
  fst (remove_properties_from_item item_dict property_list m) = Ok tt
  /\ exists td',
       store (snd (remove_properties_from_item item_dict property_list m))
         !! target = Some td'
       /\ forall key,
            dict_get key td' =
              if bool_decide (key ∈ property_list) then None
              else dict_get key td.
Proof.
  intros Hd Ht Hn Hot Hk Htd Hnd Hps Hall.
  assert (Hty : _get_item_type d = Ok "object").
  { unfold _get_item_type, dict_mem. now rewrite Ht. }
  unfold remove_properties_from_item.
  rewrite (mbind_ok _ _ m d m) by (unfold deref; now rewrite Hd).
  rewrite (mbind_ok _ _ m "object" m) by (unfold mlift; now rewrite Hty).
  simpl. unfold dict_mem. rewrite Hn. simpl.
  rewrite (mbind_ok _ _ m (VStr t) m)
    by (unfold mlift, dict_item; now rewrite Ht).
  rewrite (mbind_ok _ _ m (VStr n) m)
    by (unfold mlift, dict_item; now rewrite Hn).
  rewrite (mbind_ok _ _ m target m).
  2:{ unfold _lookup_object, _find_object. munfold. simpl.
      rewrite Hot. simpl. now rewrite Hk. }
  destruct (_remove_from_item_ok _ _ _ _ Htd Hps Hall) as [Hr Hs].
  split; [exact Hr|]. eexists. split; [exact Hs|].
  intros key. now apply dict_get_pop_all.
Qed.

Lemma remove_properties_removes_listed_fields_witness :
  fst (remove_properties_from_item 1%nat [KStr "phases"; KStr "length"]
         line_manager_with_caller) = Ok tt
  /\ exists td',
       store (snd (remove_properties_from_item 1%nat
                     [KStr "phases"; KStr "length"] line_manager_with_caller))
         !! 0%nat = Some td'
       /\ forall key,
            dict_get key td' =
              if bool_decide (key ∈ [KStr "phases"; KStr "length"]) then None
              else dict_get key
                     [(KStr "object", VStr "overhead_line");
                      (KStr "name", VStr "ol_3"); (KStr "phases", VStr "ABC");
                      (KStr "length", VStr "100"); (KStr "from", VStr "n1");
                      (KStr "to", VStr "n2")].
Proof.
  eapply (remove_properties_removes_listed_fields _ 1%nat 0%nat _ _
            "overhead_line" "ol_3" 0).
  - vm_compute. reflexivity.
  - reflexivity.
  - reflexivity.
  - vm_compute. reflexivity.
  - vm_compute. reflexivity.
  - vm_compute. reflexivity.
  - repeat constructor; vm_compute; intros H;
      repeat (apply elem_of_cons in H as [H|H]; [discriminate|]);
      inversion H.
  - repeat constructor; intros H;
      repeat (apply elem_of_cons in H as [H|H]; [discriminate|]);
      inversion H.
  - intros p Hp.
    repeat (apply elem_of_cons in Hp as [->|Hp]; [vm_compute; eauto|]).
    inversion Hp.
Defined.

(** ** Further properties of the parser *)

Lemma dict_set_Forall (P : key * value -> Prop) k v (d : pydict) :
  Forall P d -> P (k, v) -> Forall P (dict_set k v d).
Proof.
  induction 1 as [|[k' v'] d Hx Hd IH]; intros Hkv; simpl.
  - now constructor.
  - destruct (decide (k = k')); constructor; auto.
Qed.

Lemma current_leaf_add_top k v t s t' :
  current_leaf_add k v t s = Ok t' -> top_entry (k, v) ->
  Forall top_entry t -> Forall top_entry t'.
Proof.
  destruct s as [|x below]; simpl.
  - intros [= <-] Hkv Ht. now apply dict_set_Forall.
  - destruct (dict_get (KInt x) t) as [[| |cur]|]; try done.
    destruct (current_leaf_add k v cur below); simpl; [|done].
    intros [= <-] _ Ht. apply dict_set_Forall; [done|]. left. now exists x.
Qed.

Lemma dispatch_top st full_token token_list st' token_list' :
  dispatch st full_token token_list = Ok (st', token_list') ->
  Forall top_entry (tree st) -> Forall top_entry (tree st').
Proof.
  unfold dispatch, directive. intros H Ht.
  assert (Hint : forall n v, top_entry (KInt n, v)) by (left; now exists n).
  assert (Hstr : forall k s, top_entry (k, VStr s)) by (right; now exists s).
  rbind_cases; simpl;
    repeat match goal with
      | H : current_leaf_add _ _ _ _ = Ok _ |- _ =>
          apply current_leaf_add_top in H;
          [|solve [auto]|solve [auto using dict_set_Forall]]
      end;
    auto using dict_set_Forall.
Qed.

Lemma build_tree_top fuel token_list st t :
  build_tree fuel token_list st = Ok t ->
  Forall top_entry (tree st) -> Forall top_entry t.
Proof.
  revert token_list st. induction fuel as [|fuel IH]; intros toks st.
  - destruct toks; simpl; [now intros [= <-]|done].
  - destruct toks as [|tok toks]; [now intros [= <-]|].
    cbn [build_tree]. intros H Ht.
    destruct (collect [] (tok :: toks)) as [[ft rest]|]; simpl in H; [|done].
    destruct (dispatch st ft rest) as [[st' rest']|] eqn:E; simpl in H; [|done].
    eapply IH; eauto using dispatch_top.
Qed.

(** The pass raises on an entry that is not a dictionary, so a tree it
    accepts has integer keys only, and it keeps the keys. *)
Lemma legacy_pass_int_keys raw t dels :
  legacy_pass raw = Ok (t, dels) -> Forall top_entry raw ->
  Forall (fun kv : key * value => exists n, fst kv = KInt n) t.
Proof.
  revert t dels. induction raw as [|[k v] raw IH]; intros t dels H Htop;
    simpl in H.
  - injection H as <- _. constructor.
  - destruct v; try done.
    destruct (legacy_item d) as [[item' delete]|]; simpl in H; [|done].
    destruct (legacy_pass raw) as [[t' dels']|]; simpl in H; [|done].
    injection H as <- _. apply Forall_cons in Htop as [Hk Htop].
    constructor; [|eauto].
    destruct Hk as [Hk|[s Hs]]; [exact Hk|discriminate].
Qed.

(** X9.  A tree that [parse] returns is a dictionary of dictionaries under
    integer keys: every entry has an integer key and a dictionary as value,
    and no key occurs twice. *)
Theorem parsed_tree_shape (input_str : string) (t : pydict) :
  parse input_str = Ok t ->
  NoDup (dict_keys t)
  /\ Forall (fun kv => exists n d, kv = (KInt n, VDict d)) t.
Proof.
  intros H. destruct (parse_entries _ _ H) as [Hnd Hdict].
  split; [exact Hnd|].
  unfold parse, _parse_token_list, translate_old_format, raw_tree in H.
  rbind_inv H as raw Hraw. rbind_inv H as r Hr. destruct r as [t' dels].
  injection H as <-.
  apply build_tree_top in Hraw; [|constructor].
  pose proof (legacy_pass_int_keys _ _ _ Hr Hraw) as Hint.
  assert (Hint' : Forall (fun kv : key * value => exists n, fst kv = KInt n)
                    (fold_left (fun t k => dict_del k t) dels t')).
  { clear Hnd Hdict Hr. revert t' Hint.
    induction dels as [|k dels IH]; intros t' Hint; simpl; [done|].
    now apply IH, dict_del_Forall. }
  rewrite Forall_forall in *. intros [k v] Hin.
  destruct (Hint' _ Hin) as [n Hn]. destruct (Hdict _ Hin) as [d Hd].
  simpl in *. subst. eauto.
Qed.

Lemma parsed_tree_shape_witness :
  NoDup (dict_keys [(KInt 0, VDict [(KStr "object", VStr "load");
                                    (KStr "name", VStr "load_1")])])
  /\ Forall (fun kv => exists n d, kv = (KInt n, VDict d))
       [(KInt 0, VDict [(KStr "object", VStr "load");
                        (KStr "name", VStr "load_1")])].
Proof.
  apply (parsed_tree_shape recorder_model). vm_compute. reflexivity.
Defined.

Lemma replace_hyphens_get_eq f item item' :
  replace_hyphens f item = Ok item' ->
  dict_get (KStr f) item' =
    match dict_get (KStr f) item with
    | Some (VStr s) => Some (VStr (replace_char HYPHEN UNDERSCORE s))
    | _ => None
    end.
Proof.
  unfold replace_hyphens. intros H.
  destruct (dict_get (KStr f) item) as [v|] eqn:E.
  - rbind_inv H as v' Hv. injection H as <-.
    destruct v; try discriminate. injection Hv as <-.
    apply dict_get_set_eq.
  - injection H as <-. now rewrite E.
Qed.

(** What [legacy_item] does, field by field.  [item3] is the item after
    the colons are replaced, before the default of a fuse and the
    hyphens. *)
Lemma legacy_item_steps raw item delete obj :
  legacy_item raw = Ok (item, delete) ->
  dict_get (KStr "object") raw = Some obj ->
  exists o item2 item3,
    obj = VStr o
    /\ item2 = dict_set (KStr "object") (VStr (before_char COLON o))
                 (if negb (dict_mem (KStr "name") raw) && contains_char COLON o
                  then dict_set (KStr "name")
                         (VStr (replace_char COLON UNDERSCORE o)) raw
                  else raw)
    /\ replace_colons item2 = Ok item3
    /\ delete = is_recorder (default (VStr "") (dict_get (KStr "object") item3))
    /\ (forall k, k <> KStr "name" -> k <> KStr "parent" ->
          k <> KStr "from" -> k <> KStr "to" ->
          dict_get k item =
            if bool_decide (k = KStr "mean_replacement_time")
               && is_text "fuse" (default (VStr "") (dict_get (KStr "object") item3))
               && negb (dict_mem (KStr "mean_replacement_time") item3)
            then Some (VNum "3600.0") else dict_get k item3)
    /\ (forall f, f ∈ ["name"; "parent"; "from"; "to"] ->
          dict_get (KStr f) item =
            match dict_get (KStr f) item3 with
            | Some (VStr s) => Some (VStr (replace_char HYPHEN UNDERSCORE s))
            | _ => None
            end).
Proof.
  unfold legacy_item. intros H Hobj. rewrite Hobj in H.
  rbind_inv H as i1 Hi1. rbind_inv H as i2 Hi2. rbind_inv H as i3 Hi3.
  rbind_inv H as i5 Hi5. rbind_inv H as i6 Hi6.
  rbind_inv H as i7 Hi7. rbind_inv H as i8 Hi8.
  injection H as <- <-.
  destruct obj as [o| |]; try discriminate. injection Hi2 as <-.
  set (i4 := if is_text "fuse" (default (VStr "") (dict_get (KStr "object") i3))
                && negb (dict_mem (KStr "mean_replacement_time") i3)
             then dict_set (KStr "mean_replacement_time") (VNum "3600.0") i3
             else i3) in *.
  exists o, (dict_set (KStr "object") (VStr (before_char COLON o)) i1), i3.
  split; [done|]. split.
  { f_equal. destruct (negb (dict_mem (KStr "name") raw)); simpl.
    - destruct (contains_char COLON o); now injection Hi1 as <-.
    - now injection Hi1 as <-. }
  split; [done|]. split; [done|].
  assert (H4 : forall k, k <> KStr "name" -> k <> KStr "parent" ->
                 k <> KStr "from" -> k <> KStr "to" ->
                 dict_get k i4 =
                   if bool_decide (k = KStr "mean_replacement_time")
                      && is_text "fuse"
                           (default (VStr "") (dict_get (KStr "object") i3))
                      && negb (dict_mem (KStr "mean_replacement_time") i3)
                   then Some (VNum "3600.0") else dict_get k i3).
  { intros k _ _ _ _. subst i4.
    destruct (is_text "fuse" _ && negb _) eqn:E.
    - rewrite <- andb_assoc, E. case_bool_decide as Hk; simpl.
      + subst k. apply dict_get_set_eq.
      + now apply dict_get_set_ne.
    - rewrite <- andb_assoc, E. now rewrite andb_false_r. }
  assert (H4' : forall f, f ∈ ["name"; "parent"; "from"; "to"] ->
                  dict_get (KStr f) i4 = dict_get (KStr f) i3).
  { intros f Hf. subst i4. destruct (is_text "fuse" _ && negb _); [|done].
    apply dict_get_set_ne. intros [= ->].
    repeat (apply elem_of_cons in Hf as [Hf|Hf]; [discriminate|]).
    inversion Hf. }
  split.
  - intros k ? ? ? ?.
    rewrite (replace_hyphens_get _ _ _ k Hi8), (replace_hyphens_get _ _ _ k Hi7),
      (replace_hyphens_get _ _ _ k Hi6), (replace_hyphens_get _ _ _ k Hi5);
      auto.
  - intros f Hf. rewrite <- (H4' f Hf).
    repeat (apply elem_of_cons in Hf as [->|Hf]).
    + rewrite (replace_hyphens_get _ _ _ _ Hi8), (replace_hyphens_get _ _ _ _ Hi7),
        (replace_hyphens_get _ _ _ _ Hi6) by discriminate.
      apply (replace_hyphens_get_eq _ _ _ Hi5).
    + rewrite (replace_hyphens_get _ _ _ _ Hi8), (replace_hyphens_get _ _ _ _ Hi7)
        by discriminate.
      rewrite (replace_hyphens_get_eq _ _ _ Hi6).
      now rewrite (replace_hyphens_get _ _ _ _ Hi5) by discriminate.
    + rewrite (replace_hyphens_get _ _ _ _ Hi8) by discriminate.
      rewrite (replace_hyphens_get_eq _ _ _ Hi7).
      now rewrite (replace_hyphens_get _ _ _ _ Hi6),
        (replace_hyphens_get _ _ _ _ Hi5) by discriminate.
    + rewrite (replace_hyphens_get_eq _ _ _ Hi8).
      now rewrite (replace_hyphens_get _ _ _ _ Hi7),
        (replace_hyphens_get _ _ _ _ Hi6), (replace_hyphens_get _ _ _ _ Hi5)
        by discriminate.
    + inversion Hf.
Qed.

Lemma replace_colons_all_text item item' k :
  replace_colons item = Ok item' ->
  dict_get k item' =
    match dict_get k item with
    | Some (VStr s) => Some (VStr (replace_char COLON UNDERSCORE s))
    | _ => None
    end.
Proof.
  revert item'. induction item as [|[k' v] item IH]; intros item' H; simpl in *.
  - now injection H as <-.
  - rbind_inv H as v' Hv. rbind_inv H as rest Hrest. injection H as <-.
    simpl. destruct (decide (k = k')).
    + destruct v; try discriminate. now injection Hv as <-.
    + now apply IH.
Qed.

Lemma contains_replace_char a b s :
  a <> b -> contains_char a (replace_char a b s) = false.
Proof.
  intros Hne. induction s as [|c s IH]; simpl; [done|].
  rewrite IH, orb_false_r. destruct (Ascii.eqb_spec c a) as [->|Hc].
  - apply Ascii.eqb_neq. congruence.
  - now apply Ascii.eqb_neq.
Qed.

Lemma contains_replace_other a b c s :
  b <> c -> contains_char c s = false ->
  contains_char c (replace_char a b s) = false.
Proof.
  intros Hne. induction s as [|x s IH]; simpl; [done|].
  intros [Hx Hs]%orb_false_elim. rewrite (IH Hs), orb_false_r.
  destruct (Ascii.eqb x a); [now apply Ascii.eqb_neq|assumption].
Qed.

Lemma replace_char_absent a b s :
  contains_char a s = false -> replace_char a b s = s.
Proof.
  induction s as [|c s IH]; simpl; [done|].
  intros [Hc Hs]%orb_false_elim. now rewrite Hc, IH.
Qed.

Lemma contains_before_char a s : contains_char a (before_char a s) = false.
Proof.
  induction s as [|c s IH]; simpl; [done|].
  destruct (Ascii.eqb c a) eqn:E; simpl; [done|]. now rewrite E.
Qed.

Lemma dict_get_del_None k k' (d : pydict) :
  dict_get k d = None -> dict_get k (dict_del k' d) = None.
Proof.
  induction d as [|[k'' v] d IH]; simpl; [done|].
  destruct (decide (k = k'')) as [->|Hne]; [done|]. intros H.
  destruct (decide (k' = k'')); simpl; [done|].
  destruct (decide (k = k'')); [done|auto].
Qed.

Lemma deleted_key_is_gone dels k (t : pydict) :
  NoDup (dict_keys t) -> k ∈ dels ->
  dict_get k (fold_left (fun t k => dict_del k t) dels t) = None.
Proof.
  assert (Hnone : forall dels (t : pydict), dict_get k t = None ->
            dict_get k (fold_left (fun t k => dict_del k t) dels t) = None).
  { clear. induction dels as [|k' dels IH]; simpl; intros t H; [done|].
    apply IH. now apply dict_get_del_None. }
  revert t. induction dels as [|k' dels IH]; intros t Hnd Hin; simpl.
  - inversion Hin.
  - destruct (decide (k = k')) as [->|Hne].
    + apply Hnone. now apply dict_get_del_eq.
    + apply IH; [now apply NoDup_dict_del|].
      apply elem_of_cons in Hin as [?|?]; [done|assumption].
Qed.

Lemma legacy_pass_flag raw tree dels k item :
  legacy_pass raw = Ok (tree, dels) -> (k, VDict item) ∈ tree ->
  exists raw_item delete,
    (k, VDict raw_item) ∈ raw /\ legacy_item raw_item = Ok (item, delete)
    /\ (delete = true -> k ∈ dels).
Proof.
  revert tree dels. induction raw as [|[k' v] raw IH]; intros tree dels H Hin.
  - injection H as <- _. inversion Hin.
  - simpl in H. destruct v; try discriminate.
    rbind_inv H as r Hr. destruct r as [item' delete].
    rbind_inv H as r' Hr'. destruct r' as [tree' dels'].
    injection H as <- <-.
    apply elem_of_cons in Hin as [[= -> ->]|Hin].
    + exists d, delete. split; [left|]. split; [assumption|].
      intros ->. left.
    + destruct (IH _ _ Hr' Hin) as (ri & de & Hri & Hde & Hk).
      exists ri, de. split; [now right|]. split; [assumption|].
      intros Hd. destruct delete; [right|]; auto.
Qed.

(** An entry of a parsed tree comes from an entry of the tree the loop
    built, under the same key, and was not marked for deletion. *)
Lemma parse_entry_kept input_str raw t k item :
  raw_tree (_tokenize_glm input_str) = Ok raw ->
  parse input_str = Ok t -> (k, VDict item) ∈ t ->
  exists raw_item,
    (k, VDict raw_item) ∈ raw /\ legacy_item raw_item = Ok (item, false).
Proof.
  unfold parse, _parse_token_list, translate_old_format. intros Hraw H Hin.
  rewrite Hraw in H. simpl in H.
  rbind_inv H as r Hr. destruct r as [t' dels]. injection H as <-.
  pose proof Hraw as Hnd. apply build_tree_NoDup in Hnd; [|constructor].
  destruct (legacy_pass_keys _ _ _ Hr) as [Hk _]. rewrite <- Hk in Hnd.
  destruct (legacy_pass_flag _ _ _ _ _ Hr (deleted_entries _ _ _ Hin))
    as (ri & de & Hri & Hde & Hflag).
  exists ri. split; [assumption|]. destruct de; [|assumption].
  apply dict_get_entry in Hin.
  rewrite (deleted_key_is_gone dels k t' Hnd (Hflag eq_refl)) in Hin.
  now destruct Hin.
Qed.

Lemma parse_raw_tree input_str t :
  parse input_str = Ok t -> exists raw, raw_tree (_tokenize_glm input_str) = Ok raw.
Proof.
  unfold parse, _parse_token_list. intros H. rbind_inv H as raw Hraw. eauto.
Qed.

(** X10.  No recorder, group recorder or collector is left at the top of
    a tree that [parse] returns: the type of every top-level entry differs
    from the three names.  (The pass looks at the top-level entries only:
    a recorder nested in a module stays where it is.) *)
Theorem parsed_tree_has_no_recorder (input_str : string) (t : pydict)
    (k : key) (item : pydict) :
  parse input_str = Ok t -> (k, VDict item) ∈ t ->
  is_recorder (default (VStr "") (dict_get (KStr "object") item)) = false.
Proof.
  intros H Hin. destruct (parse_raw_tree _ _ H) as [raw Hraw].
  destruct (parse_entry_kept _ _ _ _ _ Hraw H Hin) as (ri & _ & Hitem).
  destruct (dict_get (KStr "object") ri) as [obj|] eqn:Hobj.
  - destruct (legacy_item_steps _ _ _ _ Hitem Hobj)
      as (o & i2 & i3 & -> & _ & _ & Hdel & Hget & _).
    rewrite Hget by discriminate. simpl. now rewrite <- Hdel.
  - unfold legacy_item in Hitem. rewrite Hobj in Hitem.
    injection Hitem as <-. now rewrite Hobj.
Qed.

Lemma parsed_tree_has_no_recorder_witness :
  is_recorder
    (default (VStr "")
       (dict_get (KStr "object")
          [(KStr "object", VStr "load"); (KStr "name", VStr "load_1")])) = false.
Proof.
  apply (parsed_tree_has_no_recorder recorder_model
           [(KInt 0, VDict [(KStr "object", VStr "load");
                            (KStr "name", VStr "load_1")])] (KInt 0)).
  - vm_compute. reflexivity.
  - left.
Defined.

(** X11.  The values of a parsed object: every field of an entry with a
    type holds text without a colon, and the text under [name], [parent],
    [from] and [to] has no hyphen either; the one other value is the
    number 3600.0 the pass files under [mean_replacement_time]. *)
Theorem parsed_object_values (input_str : string) (t : pydict)
    (k : key) (item : pydict) (f : key) (v : value) :
  parse input_str = Ok t -> (k, VDict item) ∈ t ->
  dict_mem (KStr "object") item = true ->
  dict_get f item = Some v ->
  (exists s, v = VStr s /\ contains_char COLON s = false
             /\ (f ∈ [KStr "name"; KStr "parent"; KStr "from"; KStr "to"] ->
                 contains_char HYPHEN s = false))
  \/ (f = KStr "mean_replacement_time" /\ v = VNum "3600.0").
Proof.
  intros H Hin Hmem Hf. destruct (parse_raw_tree _ _ H) as [raw Hraw].
  destruct (parse_entry_kept _ _ _ _ _ Hraw H Hin) as (ri & _ & Hitem).
  destruct (dict_get (KStr "object") ri) as [obj|] eqn:Hobj.
  2:{ unfold legacy_item in Hitem. rewrite Hobj in Hitem.
      injection Hitem as <-. unfold dict_mem in Hmem. now rewrite Hobj in Hmem. }
  destruct (legacy_item_steps _ _ _ _ Hitem Hobj)
    as (o & i2 & i3 & -> & _ & H3 & _ & Hget & Hhy).
  destruct (decide (f ∈ [KStr "name"; KStr "parent"; KStr "from"; KStr "to"]))
    as [Hl|Hl].
  - left.
    assert (Hf' : exists f', f = KStr f' /\ f' ∈ ["name"; "parent"; "from"; "to"]).
    { repeat (apply elem_of_cons in Hl as [->|Hl]);
        [eexists; split; [reflexivity|repeat constructor]..|inversion Hl]. }
    destruct Hf' as (f' & -> & Hf').
    rewrite (Hhy f' Hf'), (replace_colons_all_text _ _ _ H3) in Hf.
    destruct (dict_get (KStr f') i2) as [[s| |]|]; try discriminate.
    injection Hf as <-. eexists. split; [reflexivity|]. split.
    + apply contains_replace_other; [discriminate|].
      now apply contains_replace_char.
    + intros _. now apply contains_replace_char.
  - rewrite Hget in Hf.
    2-5: intros ->; apply Hl; repeat constructor.
    destruct (bool_decide (f = KStr "mean_replacement_time") && _ && _) eqn:E.
    + right. apply andb_prop in E as [E _]. apply andb_prop in E as [E _].
      apply bool_decide_eq_true in E. split; [assumption|]. now injection Hf as <-.
    + left. rewrite (replace_colons_all_text _ _ _ H3) in Hf.
      destruct (dict_get f i2) as [[s| |]|]; try discriminate.
      injection Hf as <-. eexists. split; [reflexivity|]. split; [|done].
      now apply contains_replace_char.
Qed.

Lemma parsed_object_values_witness :
  (exists s, VStr "a_b_1" = VStr s /\ contains_char COLON s = false
             /\ (KStr "name" ∈ [KStr "name"; KStr "parent"; KStr "from"; KStr "to"] ->
                 contains_char HYPHEN s = false))
  \/ (KStr "name" = KStr "mean_replacement_time" /\ VStr "a_b_1" = VNum "3600.0").
Proof.
  apply (parsed_object_values "object load { name a-b:1; }"
           [(KInt 0, VDict [(KStr "object", VStr "load");
                            (KStr "name", VStr "a_b_1")])]
           (KInt 0)
           [(KStr "object", VStr "load"); (KStr "name", VStr "a_b_1")]).
  - vm_compute. reflexivity.
  - left.
  - reflexivity.
  - reflexivity.
Defined.

(** X12.  The old syntax [object type:id].  The parsed entry keeps as its
    type the text before the first colon; when the statement gave no name,
    the entry is named after the whole qualifier, its colons and hyphens
    turned into underscores. *)
Theorem old_syntax_type_and_name (input_str : string) (raw t : pydict)
    (k : key) (item : pydict) :
  raw_tree (_tokenize_glm input_str) = Ok raw ->
  parse input_str = Ok t ->
  (k, VDict item) ∈ t ->
  exists raw_item,
    (k, VDict raw_item) ∈ raw
    /\ forall o, dict_get (KStr "object") raw_item = Some (VStr o) ->
         dict_get (KStr "object") item = Some (VStr (before_char COLON o))
         /\ (dict_mem (KStr "name") raw_item = false ->
             contains_char COLON o = true ->
             dict_get (KStr "name") item =
               Some (VStr (replace_char HYPHEN UNDERSCORE
                             (replace_char COLON UNDERSCORE o)))).
Proof.
  intros Hraw H Hin.
  destruct (parse_entry_kept _ _ _ _ _ Hraw H Hin) as (ri & Hri & Hitem).
  exists ri. split; [assumption|]. intros o Hobj.
  destruct (legacy_item_steps _ _ _ _ Hitem Hobj)
    as (o' & i2 & i3 & [= <-] & -> & H3 & _ & Hget & Hhy).
  split.
  - rewrite Hget by discriminate. simpl.
    rewrite (replace_colons_all_text _ _ _ H3), dict_get_set_eq.
    now rewrite replace_char_absent by apply contains_before_char.
  - intros Hno Hcolon.
    rewrite (Hhy "name") by repeat constructor.
    rewrite (replace_colons_all_text _ _ _ H3).
    rewrite dict_get_set_ne by discriminate.
    rewrite Hno, Hcolon. simpl. rewrite dict_get_set_eq.
    now rewrite (replace_char_absent COLON)
      by (apply contains_replace_char; discriminate).
Qed.

Lemma old_syntax_type_and_name_witness :
  exists raw_item,
    (KInt 0, VDict raw_item) ∈
      [(KInt 0, VDict [(KStr "object", VStr "node:a-1"); (KStr "phases", VStr "A")])]
    /\ forall o, dict_get (KStr "object") raw_item = Some (VStr o) ->
         dict_get (KStr "object")
           [(KStr "object", VStr "node"); (KStr "phases", VStr "A");
            (KStr "name", VStr "node_a_1")] = Some (VStr (before_char COLON o))
         /\ (dict_mem (KStr "name") raw_item = false ->
             contains_char COLON o = true ->
             dict_get (KStr "name")
               [(KStr "object", VStr "node"); (KStr "phases", VStr "A");
                (KStr "name", VStr "node_a_1")] =
               Some (VStr (replace_char HYPHEN UNDERSCORE
                             (replace_char COLON UNDERSCORE o)))).
Proof.
  apply (old_syntax_type_and_name "object node:a-1 { phases A; }"
           [(KInt 0, VDict [(KStr "object", VStr "node:a-1");
                            (KStr "phases", VStr "A")])]
           [(KInt 0, VDict [(KStr "object", VStr "node"); (KStr "phases", VStr "A");
                            (KStr "name", VStr "node_a_1")])]
           (KInt 0)).
  - vm_compute. reflexivity.
  - vm_compute. reflexivity.
  - left.
Defined.

(** ** Words and layout: the text that [sorted_write] produces *)

Lemma render_app a b : render (a ++ b) = render a +:+ render b.
Proof.
  induction a as [|[w c] a IH]; [reflexivity|].
  simpl. now rewrite IH, sapp_assoc.
Qed.

Lemma prefix_cons a p b s :
  String.prefix (String a p) (String b s) =
    if Ascii.eqb a b then String.prefix p s else false.
Proof.
  simpl. destruct (ascii_dec a b) as [->|Hne].
  - now rewrite Ascii.eqb_refl.
  - apply Ascii.eqb_neq in Hne. now rewrite Hne.
Qed.

Lemma substring_of_cons sub c s :
  substring_of sub (String c s) = String.prefix sub (String c s) || substring_of sub s.
Proof. reflexivity. Qed.

Lemma no_comment_app w c r :
  substring_of "//" w = false -> c <> "/"%char ->
  substring_of "//" r = false ->
  substring_of "//" (w +:+ String c r) = false.
Proof.
  intros Hw Hc Hr. induction w as [|x w IH].
  - rewrite sapp_empty_l, substring_of_cons, Hr, orb_false_r, prefix_cons.
    apply Ascii.eqb_neq in Hc. rewrite Ascii.eqb_sym in Hc. now rewrite Hc.
  - rewrite sapp_cons, substring_of_cons.
    rewrite substring_of_cons in Hw. apply orb_false_elim in Hw as [Hp Hw].
    rewrite (IH Hw), orb_false_r. rewrite prefix_cons in *.
    destruct (Ascii.eqb "/" x); [|done].
    destruct w as [|y w].
    + rewrite sapp_empty_l, prefix_cons.
      apply Ascii.eqb_neq in Hc. rewrite Ascii.eqb_sym in Hc. now rewrite Hc.
    + rewrite sapp_cons, prefix_cons. rewrite prefix_cons in Hp.
      destruct (Ascii.eqb "/" y); [destruct w; discriminate|done].
Qed.

Lemma layout_char_cases c :
  layout_char c = true ->
  c = " "%char \/ c = TAB \/ c = LF \/ c = ";"%char \/ c = "{"%char \/ c = "}"%char.
Proof.
  unfold layout_char. simpl. rewrite orb_false_r.
  repeat (intros [H%Ascii.eqb_eq|H]%orb_prop; [tauto|revert H]).
  intros H%Ascii.eqb_eq. tauto.
Qed.

Lemma layout_char_delim c :
  layout_char c = true -> is_delim (if Ascii.eqb c TAB then " "%char else c) = true.
Proof.
  intros H. destruct (layout_char_cases c H) as [->|[->|[->|[->|[->| ->]]]]];
    reflexivity.
Qed.

Lemma render_no_comment atoms :
  Forall atom_ok atoms -> substring_of "//" (render atoms) = false.
Proof.
  induction 1 as [|[w c] atoms [Hw Hc] _ IH]; [reflexivity|].
  simpl in *. apply no_comment_app; [| |assumption].
  - unfold is_piece in Hw. apply andb_prop in Hw as [_ Hw].
    now apply negb_true_iff in Hw.
  - intros ->. discriminate.
Qed.

Lemma substring_of_skip sub c s :
  substring_of sub s = true -> substring_of sub (String c s) = true.
Proof. intros H. now rewrite substring_of_cons, H, orb_true_r. Qed.

Lemma substring_of_prefix sub s :
  String.prefix sub s = true -> substring_of sub s = true.
Proof. intros H. destruct s; simpl in *; now rewrite H. Qed.

Lemma prefix_http s :
  String.prefix "http://" s = true -> substring_of "//" s = true.
Proof.
  destruct s as [|c1 [|c2 [|c3 [|c4 [|c5 [|c6 [|c7 s]]]]]]]; try discriminate;
    rewrite !prefix_cons;
    repeat match goal with
      | |- context [Ascii.eqb ?a ?b] =>
          destruct (Ascii.eqb_spec a b) as [<-|?]; try discriminate
      end.
  intros H. do 5 apply substring_of_skip. apply substring_of_prefix.
  now rewrite !prefix_cons.
Qed.

Lemma remove_http_id s : substring_of "//" s = false -> remove_http s = s.
Proof.
  unfold remove_http. induction s as [|c s IH]; [reflexivity|].
  intros H. cbn [remove_http_from].
  destruct (String.prefix "http://" (String c s)) eqn:E.
  - apply prefix_http in E. congruence.
  - rewrite substring_of_cons in H. apply orb_false_elim in H as [_ H].
    now rewrite IH.
Qed.

Lemma strip_comments_id s : substring_of "//" s = false -> strip_comments s = s.
Proof.
  unfold strip_comments. induction s as [|c s IH]; [reflexivity|].
  intros H. cbn [strip_comments_from].
  rewrite substring_of_cons in H. apply orb_false_elim in H as [Hp H].
  now rewrite Hp, IH.
Qed.

Lemma remove_char_id a s :
  all_chars (fun c => negb (Ascii.eqb c a)) s = true -> remove_char a s = s.
Proof.
  induction s as [|c s IH]; [reflexivity|]. simpl.
  intros [Hc Hs]%andb_prop. apply negb_true_iff in Hc. now rewrite Hc, IH.
Qed.

Lemma all_chars_app p a b :
  all_chars p (a +:+ b) = all_chars p a && all_chars p b.
Proof.
  induction a as [|c a IH]; [reflexivity|].
  rewrite sapp_cons. simpl. now rewrite IH, andb_assoc.
Qed.

Lemma all_chars_impl (p q : ascii -> bool) s :
  (forall c, p c = true -> q c = true) ->
  all_chars p s = true -> all_chars q s = true.
Proof.
  intros Hpq. induction s as [|c s IH]; [done|]. simpl.
  intros [Hc Hs]%andb_prop. now rewrite (Hpq c Hc), IH.
Qed.

Lemma piece_chars w : is_piece w = true ->
  all_chars (fun c => negb (is_delim c)) w = true.
Proof. unfold is_piece. now intros [H _]%andb_prop. Qed.

Lemma render_no_CR atoms :
  Forall atom_ok atoms ->
  all_chars (fun c => negb (Ascii.eqb c CR)) (render atoms) = true.
Proof.
  induction 1 as [|[w c] atoms [Hw Hc] _ IH]; [reflexivity|].
  simpl in *. rewrite all_chars_app. simpl. rewrite IH, andb_true_r.
  apply andb_true_intro. split.
  - eapply all_chars_impl; [|exact (piece_chars _ Hw)].
    intros x Hx. destruct (Ascii.eqb_spec x CR) as [->|]; [discriminate|done].
  - now destruct (layout_char_cases c Hc) as [->|[->|[->|[->|[->| ->]]]]].
Qed.

Lemma replace_char_app a b s t :
  replace_char a b (s +:+ t) = replace_char a b s +:+ replace_char a b t.
Proof.
  induction s as [|c s IH]; [reflexivity|].
  rewrite sapp_cons. simpl. now rewrite IH.
Qed.

Lemma replace_char_id a b s :
  all_chars (fun c => negb (Ascii.eqb c a)) s = true -> replace_char a b s = s.
Proof.
  induction s as [|c s IH]; [reflexivity|]. simpl.
  intros [Hc Hs]%andb_prop. apply negb_true_iff in Hc. now rewrite Hc, IH.
Qed.

Lemma re_split_piece cur w c r :
  all_chars (fun c => negb (is_delim c)) w = true -> is_delim c = true ->
  re_split cur (w +:+ String c r) = (cur +:+ w) :: String c "" :: re_split "" r.
Proof.
  revert cur. induction w as [|x w IH]; intros cur Hw Hc.
  - rewrite sapp_empty_l, sapp_empty_r. simpl. now rewrite Hc.
  - simpl in Hw. apply andb_prop in Hw as [Hx Hw]. apply negb_true_iff in Hx.
    rewrite sapp_cons. cbn [re_split]. rewrite Hx, (IH _ Hw Hc).
    now rewrite sapp_assoc.
Qed.

Lemma piece_not_space w : is_piece w = true -> String.eqb w " " = false.
Proof.
  intros H%piece_chars. apply String.eqb_neq. intros ->. discriminate.
Qed.

(** The tokens of a rendered text: the pieces that are not empty, and the
    separators other than the blank and the tab. *)
Lemma tokenize_render atoms :
  Forall atom_ok atoms ->
  _tokenize_glm (render atoms) = concat (map atom_tokens atoms).
Proof.
  intros Hok. unfold _tokenize_glm.
  rewrite remove_http_id by now apply render_no_comment.
  rewrite strip_comments_id by now apply render_no_comment.
  rewrite remove_char_id by now apply render_no_CR.
  induction Hok as [|[w c] atoms [Hw Hc] _ IH].
  - reflexivity.
  - simpl in *. rewrite replace_char_app. simpl.
    rewrite (replace_char_id TAB).
    2:{ eapply all_chars_impl; [|exact (piece_chars _ Hw)].
        intros x Hx. destruct (Ascii.eqb_spec x TAB) as [->|]; [discriminate|done]. }
    rewrite re_split_piece;
      [|now apply piece_chars|now apply layout_char_delim].
    rewrite sapp_empty_l, !filter_cons, IH. unfold atom_tokens, keep_token. simpl.
    rewrite (piece_not_space w Hw), andb_true_r.
    destruct (String.eqb w ""); simpl;
      destruct (layout_char_cases c Hc) as [->|[->|[->|[->|[->| ->]]]]];
      reflexivity.
Qed.

Lemma split_space_nonempty cur s : split_space cur s <> [].
Proof.
  revert cur. induction s as [|c s IH]; intros cur; simpl; [done|].
  destruct (Ascii.eqb c " "); [done|apply IH].
Qed.

Lemma join_space_cons x l : l <> [] -> join_space (x :: l) = x +:+ " " +:+ join_space l.
Proof. destruct l; [done|reflexivity]. Qed.

Lemma join_split_space cur s : join_space (split_space cur s) = cur +:+ s.
Proof.
  revert cur. induction s as [|c s IH]; intros cur; simpl.
  - now rewrite sapp_empty_r.
  - destruct (Ascii.eqb_spec c " ") as [->|Hne].
    + rewrite join_space_cons by apply split_space_nonempty.
      now rewrite IH.
    + now rewrite IH, sapp_assoc.
Qed.

Lemma join_text_words s : join_space (text_words s) = s.
Proof. apply join_split_space. Qed.

Lemma render_word_atoms ws last r :
  ws <> [] ->
  render (word_atoms ws last ++ r) = join_space ws +:+ String last (render r).
Proof.
  induction ws as [|w ws IH]; [done|]. intros _.
  destruct ws as [|w' ws]; [reflexivity|].
  change (word_atoms (w :: w' :: ws) last) with
    ((w, " "%char) :: word_atoms (w' :: ws) last).
  rewrite join_space_cons by done.
  cbn [app render]. rewrite IH by done. now rewrite !sapp_assoc.
Qed.

Lemma word_piece w : is_word w = true -> is_piece w = true.
Proof.
  unfold is_word. intros [[_ H]%andb_prop _]%andb_prop. exact H.
Qed.

Lemma word_not_empty w : is_word w = true -> String.eqb w "" = false.
Proof.
  unfold is_word. intros [[H _]%andb_prop _]%andb_prop.
  now apply negb_true_iff in H.
Qed.

Lemma word_not_terminator w : is_word w = true -> is_terminator w = false.
Proof.
  unfold is_word. intros [_ H]%andb_prop. now apply negb_true_iff in H.
Qed.

Lemma word_atoms_ok ws last :
  Forall (fun w => is_word w = true) ws -> layout_char last = true ->
  Forall atom_ok (word_atoms ws last).
Proof.
  intros Hws Hl. induction Hws as [|w ws Hw Hws IH]; [constructor|].
  destruct ws as [|w' ws].
  - constructor; [|constructor]. split; [now apply word_piece|assumption].
  - change (word_atoms (w :: w' :: ws) last) with
      ((w, " "%char) :: word_atoms (w' :: ws) last).
    constructor; [|assumption]. split; [now apply word_piece|reflexivity].
Qed.

Lemma word_atoms_tokens ws last :
  Forall (fun w => is_word w = true) ws -> ws <> [] ->
  concat (map atom_tokens (word_atoms ws last)) = ws ++ sep_tokens last.
Proof.
  intros Hws. induction Hws as [|w ws Hw Hws IH]; [done|]. intros _.
  destruct ws as [|w' ws].
  - simpl. unfold atom_tokens. simpl. rewrite (word_not_empty w Hw).
    now rewrite app_nil_r.
  - change (word_atoms (w :: w' :: ws) last) with
      ((w, " "%char) :: word_atoms (w' :: ws) last).
    cbn [map concat]. rewrite IH by done.
    unfold atom_tokens at 1. simpl. now rewrite (word_not_empty w Hw).
Qed.

Lemma plain_text_words s :
  plain_text s = true ->
  Forall (fun w => is_word w = true) (text_words s) /\ text_words s <> [].
Proof.
  unfold plain_text. intros H. split; [|apply split_space_nonempty].
  apply Forall_forall. intros w Hw%list_elem_of_In.
  rewrite forallb_forall in H. auto.
Qed.

(** ** The loop of the parser, statement by statement *)

Lemma build_tree_enough fuel toks st :
  (length toks <= fuel)%nat -> build_tree fuel toks st = run toks st.
Proof.
  unfold run. remember (length toks) as n eqn:Hn.
  assert (Hle : (length toks <= n)%nat) by lia. rewrite Hn. clear Hn.
  revert toks Hle fuel st.
  induction n as [|n IHn]; intros toks Hle fuel st Hlen.
  { destruct toks; [now destruct fuel|simpl in Hle; lia]. }
  assert (IH : forall toks', (length toks' < length toks)%nat ->
            forall fuel st, (length toks' <= fuel)%nat ->
            build_tree fuel toks' st = build_tree (length toks') toks' st).
  { intros toks' Hlt. apply IHn. lia. }
  clear IHn. destruct toks as [|t toks]; [now destruct fuel|].
  destruct fuel as [|fuel]; [simpl in Hlen; lia|].
  cbn [build_tree length].
  destruct (collect [] (t :: toks)) as [[ft rest]|e] eqn:Hc; [|reflexivity].
  simpl. destruct (dispatch st ft rest) as [[st' rest']|e] eqn:Hd; [|reflexivity].
  simpl. apply collect_shorter in Hc. apply dispatch_shorter in Hd.
  simpl in *. rewrite (IH rest') by (simpl; lia).
  symmetry. apply IH; simpl; lia.
Qed.

Lemma run_nil st : run [] st = Ok (tree st).
Proof. reflexivity. Qed.

Lemma run_step toks ft rest st st' rest' :
  toks <> [] ->
  collect [] toks = Ok (ft, rest) ->
  dispatch st ft rest = Ok (st', rest') ->
  run toks st = run rest' st'.
Proof.
  intros Hne Hc Hd. unfold run at 1. destruct toks as [|t toks]; [done|].
  cbn [build_tree length]. rewrite Hc. simpl. rewrite Hd. simpl.
  apply build_tree_enough.
  apply collect_shorter in Hc. apply dispatch_shorter in Hd. simpl in *. lia.
Qed.

Lemma collect_words acc ws t rest :
  Forall (fun w => is_terminator w = false) ws -> is_terminator t = true ->
  collect acc (ws ++ t :: rest) = Ok (acc ++ ws ++ [t], rest).
Proof.
  intros Hws Ht. revert acc.
  induction Hws as [|w ws Hw Hws IH]; intros acc; simpl.
  - now rewrite Ht.
  - rewrite Hw, IH. now rewrite <- app_assoc.
Qed.

Lemma last_token_app l x : last_token (l ++ [x]) = x.
Proof. unfold last_token. apply last_last. Qed.

Lemma last_token_cons k l x : last_token (k :: l ++ [x]) = x.
Proof. apply (last_token_app (k :: l)). Qed.

Lemma slice_inner (k : string) ws t : slice 1 1 (k :: ws ++ [t]) = ws.
Proof.
  unfold slice. cbn [length drop]. rewrite length_app. cbn [length].
  replace (S (length ws + 1) - 1 - 1)%nat with (length ws) by lia.
  now rewrite drop_0, take_app_length.
Qed.

Lemma list_to_string_inner k ws t :
  ws <> [] -> list_to_string (k :: ws ++ [t]) = Ok (join_space ws).
Proof.
  intros Hne. unfold list_to_string. rewrite slice_inner. now destruct ws.
Qed.

Lemma not_terminator w :
  is_terminator w = false ->
  String.eqb w "{" = false /\ String.eqb w ";" = false
  /\ String.eqb w "}" = false /\ String.eqb w nl = false
  /\ String.eqb w "shape" = false.
Proof.
  unfold is_terminator. simpl. rewrite orb_false_r.
  intros H. repeat (apply orb_false_elim in H as [? H]). tauto.
Qed.

Lemma words_not_terminators ws :
  Forall (fun w => is_word w = true) ws ->
  Forall (fun w => is_terminator w = false) ws.
Proof.
  intros H. eapply Forall_impl; [exact H|]. intros w. apply word_not_terminator.
Qed.

(** *** The tree while an item is open *)

Lemma dict_set_new k v (d : pydict) :
  k ∉ dict_keys d -> dict_set k v d = d ++ [(k, v)].
Proof.
  unfold dict_keys. induction d as [|[k' v'] d IH]; simpl; [done|].
  intros [Hne Hd]%not_elem_of_cons.
  destruct (decide (k = k')); [done|]. now rewrite IH.
Qed.

Lemma dict_set_last k v old (d : pydict) :
  k ∉ dict_keys d -> dict_set k v (d ++ [(k, old)]) = d ++ [(k, v)].
Proof.
  unfold dict_keys. induction d as [|[k' v'] d IH]; simpl.
  - intros _. now destruct (decide (k = k)).
  - intros [Hne Hd]%not_elem_of_cons.
    destruct (decide (k = k')); [done|]. now rewrite IH.
Qed.

Lemma dict_get_last k v (d : pydict) :
  k ∉ dict_keys d -> dict_get k (d ++ [(k, v)]) = Some v.
Proof.
  unfold dict_keys. induction d as [|[k' v'] d IH]; simpl.
  - intros _. now destruct (decide (k = k)).
  - intros [Hne Hd]%not_elem_of_cons.
    destruct (decide (k = k')); [done|]. now rewrite IH.
Qed.

(** A field statement inside an open item. *)
Lemma run_field k ws rest done g cur n :
  is_word k = true -> String.eqb k "#set" = false ->
  String.eqb k "#include" = false ->
  Forall (fun w => is_word w = true) ws -> ws <> [] ->
  KInt g ∉ dict_keys done ->
  run (k :: ws ++ ";" :: rest) (ParserState (done ++ [(KInt g, VDict cur)]) n [g]) =
  run rest (ParserState
              (done ++ [(KInt g, VDict (dict_set (KStr k) (VStr (join_space ws)) cur))])
              n [g]).
Proof.
  intros Hk Hset Hinc Hws Hne Hg.
  destruct (not_terminator k (word_not_terminator k Hk)) as (_ & _ & _ & _ & Hshape).
  eapply run_step; [done| |].
  - apply (collect_words [] (k :: ws) ";").
    + constructor; [now apply word_not_terminator|now apply words_not_terminators].
    + reflexivity.
  - unfold dispatch. simpl app. unfold first_token. cbn [hd].
    rewrite Hset, Hinc, Hshape.
    rewrite last_token_cons. simpl String.eqb.
    cbn [orb guid_stack tree guid]. rewrite bool_decide_eq_false_2 by done.
    cbn [andb length]. rewrite length_app. cbn [length].
    replace (1 <? S (length ws + 1))%nat with true
      by (symmetry; apply Nat.ltb_lt; destruct ws; [done|simpl; lia]).
    change (k :: ws ++ [";"]) with (k :: ws ++ [";"]).
    rewrite (list_to_string_inner k ws ";" Hne). simpl rbind.
    cbn [current_leaf_add]. rewrite dict_get_last by assumption. simpl.
    now rewrite dict_set_last.
Qed.

Lemma words_spec ws :
  words ws = true -> Forall (fun w => is_word w = true) ws /\ ws <> [].
Proof.
  unfold words. intros [H Hne]%andb_prop. split.
  - apply Forall_forall. intros w Hw%list_elem_of_In.
    rewrite forallb_forall in H. auto.
  - apply negb_true_iff, bool_decide_eq_false in Hne. exact Hne.
Qed.

Lemma collect_one t rest :
  is_terminator t = true -> collect [] (t :: rest) = Ok ([t], rest).
Proof. intros H. simpl. now rewrite H. Qed.

(** A line feed, or a semicolon, on its own is skipped. *)
Lemma run_skip t rest st :
  t = nl \/ t = ";" -> run (t :: rest) st = run rest st.
Proof.
  intros Ht. eapply run_step; [done|apply collect_one; now destruct Ht as [-> | ->]|].
  unfold dispatch.
  destruct Ht as [-> | ->]; simpl;
    rewrite ?andb_false_r; reflexivity.
Qed.

Lemma run_close rest t n g :
  run ("}" :: rest) (ParserState t n [g]) = run rest (ParserState t n []).
Proof. eapply run_step; [done|now apply collect_one|reflexivity]. Qed.

Lemma run_fields fields : forall rest done g cur n,
  forallb valid_field fields = true ->
  KInt g ∉ dict_keys done ->
  run (concat (map field_tokens fields) ++ rest)
      (ParserState (done ++ [(KInt g, VDict cur)]) n [g]) =
  run rest
      (ParserState
         (done ++ [(KInt g, VDict (fold_left
                      (fun cur f => dict_set (fst (field_entry f))
                                      (snd (field_entry f)) cur) fields cur))])
         n [g]).
Proof.
  induction fields as [|[k ws] fields IH]; intros rest done g cur n Hv Hg.
  - reflexivity.
  - simpl in Hv. apply andb_prop in Hv as [Hf Hv].
    unfold valid_field in Hf. simpl in Hf.
    apply andb_prop in Hf as [Hf Hws]. apply andb_prop in Hf as [Hf _].
    apply andb_prop in Hf as [Hf Hinc]. apply andb_prop in Hf as [Hk Hset].
    apply negb_true_iff in Hinc, Hset.
    destruct (words_spec _ Hws) as [Hall Hne].
    cbn [map concat]. unfold field_tokens at 1. cbn [fst snd].
    rewrite <- !app_assoc. cbn [app]. rewrite <- !app_assoc. cbn [app].
    rewrite run_field by assumption.
    rewrite run_skip by now left.
    rewrite IH by assumption. reflexivity.
Qed.

Lemma fold_fields fields : forall cur,
  NoDup (dict_keys cur ++ map (fun f => KStr (fst f)) fields) ->
  fold_left (fun cur f => dict_set (fst (field_entry f)) (snd (field_entry f)) cur)
    fields cur = cur ++ map field_entry fields.
Proof.
  induction fields as [|f fields IH]; intros cur Hnd; simpl.
  - now rewrite app_nil_r.
  - rewrite dict_set_new.
    2:{ apply NoDup_app in Hnd as (_ & Hd & _). intros Hin.
        apply (Hd _ Hin). left. }
    rewrite IH.
    + now rewrite <- app_assoc.
    + unfold dict_keys in *. rewrite map_app, <- app_assoc. exact Hnd.
Qed.

Lemma keys_below_fresh n t : keys_below n t -> KInt n ∉ dict_keys t.
Proof.
  unfold keys_below, dict_keys. intros H Hin.
  apply list_elem_of_fmap in Hin as ([k v] & Hk & Hin).
  rewrite Forall_forall in H. destruct (H _ Hin) as (m & Hm & Hlt).
  simpl in *. rewrite <- Hk in Hm. injection Hm as ->. lia.
Qed.

Lemma keys_below_snoc n t v :
  keys_below n t -> keys_below (n + 1) (t ++ [(KInt n, v)]).
Proof.
  unfold keys_below. intros H. apply Forall_app. split.
  - eapply Forall_impl; [exact H|]. intros kv (m & Hm & Hlt).
    exists m. split; [assumption|lia].
  - constructor; [|constructor]. exists n. split; [reflexivity|lia].
Qed.

(** The opening of a block: a new item under the next key, its first
    field named after the first word of the opening. *)
Lemma run_open opening rest done n :
  words opening = true -> (length opening <= 2)%nat ->
  String.eqb (first_token opening) "#set" = false ->
  String.eqb (first_token opening) "#include" = false ->
  String.eqb (first_token opening) "schedule" = false ->
  KInt n ∉ dict_keys done ->
  run (opening ++ "{" :: rest) (ParserState done n []) =
  run rest
    (ParserState
       (done ++ [(KInt n, VDict [(KStr (first_token opening),
                                  VStr (last_token opening))])])
       (n + 1) [n]).
Proof.
  intros Hw Hlen Hset Hinc Hsched Hn.
  destruct (words_spec _ Hw) as [Hall Hne].
  assert (Hshape : String.eqb (first_token opening) "shape" = false).
  { destruct opening as [|a opening]; [done|].
    apply Forall_cons in Hall as [Ha _].
    now destruct (not_terminator a (word_not_terminator a Ha)) as (_&_&_&_&?). }
  eapply run_step.
  - now destruct opening.
  - apply (collect_words [] opening "{");
      [now apply words_not_terminators|reflexivity].
  - destruct opening as [|a [|b [|c opening]]]; [done| | |simpl in Hlen; lia];
      unfold dispatch, first_token, last_token in *;
      cbn [hd List.last app length] in *;
      rewrite Hset, Hinc, Hshape, Hsched; simpl;
      rewrite !dict_set_new by assumption;
      rewrite dict_get_last by assumption; simpl;
      now rewrite dict_set_last by assumption.
Qed.

(** A statement outside of the blocks. *)
Lemma run_line first arg rest done n :
  is_word first = true -> words arg = true ->
  KInt n ∉ dict_keys done ->
  run (first :: arg ++ ";" :: rest) (ParserState done n []) =
  run rest
    (ParserState
       (done ++ [(KInt n, VDict [(KStr "omftype", VStr first);
                                 (KStr "argument", VStr (join_space arg))])])
       (n + 1) []).
Proof.
  intros Hf Hw Hn. destruct (words_spec _ Hw) as [Hall Hne].
  destruct (not_terminator first (word_not_terminator first Hf))
    as (_ & Hsemi & _ & Hnl & Hshape).
  eapply run_step; [done| |].
  - apply (collect_words [] (first :: arg) ";").
    + constructor; [now apply word_not_terminator|now apply words_not_terminators].
    + reflexivity.
  - unfold dispatch, directive. simpl app. unfold first_token. cbn [hd].
    rewrite last_token_cons, Hshape, (list_to_string_inner first arg ";" Hne).
    simpl String.eqb. cbn [orb guid_stack tree guid rbind].
    rewrite dict_set_new by assumption.
    destruct (String.eqb first "#set"); [reflexivity|].
    destruct (String.eqb first "#include"); [reflexivity|].
    rewrite bool_decide_eq_true_2 by done.
    rewrite !bool_decide_eq_false_2; [reflexivity| |].
    + intros [= -> _]. discriminate.
    + intros [= -> _]. discriminate.
Qed.

(** [#set] and [#include], closed by the end of the line. *)
Lemma run_directive d arg rest done n :
  String.eqb d "#set" || String.eqb d "#include" = true -> words arg = true ->
  KInt n ∉ dict_keys done ->
  run (d :: arg ++ nl :: rest) (ParserState done n []) =
  run rest
    (ParserState (done ++ [(KInt n, VDict [(KStr d, VStr (join_space arg))])])
       (n + 1) []).
Proof.
  intros Hd Hw Hn. destruct (words_spec _ Hw) as [Hall Hne].
  assert (Hterm : is_terminator d = false).
  { apply orb_prop in Hd as [->%String.eqb_eq| ->%String.eqb_eq]; reflexivity. }
  eapply run_step; [done| |].
  - apply (collect_words [] (d :: arg) nl).
    + constructor; [assumption|now apply words_not_terminators].
    + reflexivity.
  - unfold dispatch, directive. simpl app. unfold first_token. cbn [hd].
    rewrite last_token_cons, (list_to_string_inner d arg nl Hne).
    simpl String.eqb. cbn [orb guid_stack tree guid rbind].
    rewrite dict_set_new by assumption.
    apply orb_prop in Hd as [-> | Hd]; [reflexivity|].
    rewrite Hd. now destruct (String.eqb d "#set").
Qed.

Lemma NoDup_map_KStr (l : list string) : NoDup l -> NoDup (map KStr l).
Proof.
  induction 1 as [|x l Hx Hl IH]; simpl; constructor; [|assumption].
  intros Hin. apply list_elem_of_fmap in Hin as (y & [= <-] & Hy). auto.
Qed.

(** The statements of one item, read at the top of the file: a new item
    under the next key. *)
Lemma run_shape s rest done n :
  valid_shape s = true -> keys_below n done ->
  run (shape_tokens s ++ rest) (ParserState done n []) =
  run rest (ParserState (done ++ [(KInt n, VDict (shape_item s))]) (n + 1) []).
Proof.
  intros Hv Hdone. pose proof (keys_below_fresh _ _ Hdone) as Hn.
  destruct s as [first arg|d arg|opening semi fields]; simpl in Hv.
  - apply andb_prop in Hv as [Hf Hw].
    cbn [shape_tokens shape_item app]. rewrite <- ?app_assoc. cbn [app].
    rewrite run_line by assumption. now rewrite run_skip by now left.
  - apply andb_prop in Hv as [Hd Hw].
    cbn [shape_tokens shape_item app]. rewrite <- ?app_assoc. cbn [app].
    now rewrite run_directive by assumption.
  - apply andb_prop in Hv as [Hv Hnd]. apply andb_prop in Hv as [Hv Hfields].
    apply andb_prop in Hv as [Hv Hsched]. apply andb_prop in Hv as [Hv Hinc].
    apply andb_prop in Hv as [Hv Hset]. apply andb_prop in Hv as [Hw Hlen].
    apply negb_true_iff in Hsched, Hinc, Hset.
    apply Nat.leb_le in Hlen. apply bool_decide_eq_true in Hnd.
    cbn [shape_tokens shape_item]. rewrite <- !app_assoc. cbn [app].
    rewrite run_open by assumption.
    rewrite run_skip by now left.
    rewrite run_fields by assumption.
    rewrite run_close.
    rewrite fold_fields.
    2:{ unfold dict_keys. cbn [map app fst].
        rewrite <- (map_map fst KStr).
        apply (NoDup_map_KStr (_ :: _)), Hnd. }
    destruct semi; cbn [app]; rewrite !run_skip by tauto; reflexivity.
Qed.

Lemma run_shapes shapes : forall done n,
  forallb valid_shape shapes = true -> keys_below n done ->
  run (concat (map shape_tokens shapes)) (ParserState done n []) =
  Ok (done ++ renumber n (map shape_item shapes)).
Proof.
  induction shapes as [|s shapes IH]; intros done n Hv Hdone.
  - simpl. now rewrite app_nil_r.
  - simpl in Hv. apply andb_prop in Hv as [Hs Hv].
    cbn [map concat renumber]. rewrite run_shape by assumption.
    rewrite IH; [|assumption|now apply keys_below_snoc].
    now rewrite <- app_assoc.
Qed.

(** The loop of the parser on the statements of a list of items: the
    items, under the keys from zero on. *)
Lemma raw_tree_shapes shapes :
  forallb valid_shape shapes = true ->
  raw_tree (concat (map shape_tokens shapes)) =
    Ok (renumber 0 (map shape_item shapes)).
Proof.
  intros Hv. apply (run_shapes shapes [] 0 Hv). constructor.
Qed.

Lemma field_atoms_ok f : valid_field f = true -> Forall atom_ok (field_atoms f).
Proof.
  unfold valid_field. intros [H Hws]%andb_prop.
  do 3 apply andb_prop in H as [H _].
  destruct (words_spec _ Hws) as [Hall _].
  unfold field_atoms. constructor; [now split|].
  constructor; [split; [now apply word_piece|reflexivity]|].
  apply Forall_app. split; [now apply word_atoms_ok|].
  constructor; [now split|constructor].
Qed.

Lemma field_atoms_tokens f :
  valid_field f = true ->
  concat (map atom_tokens (field_atoms f)) = field_tokens f.
Proof.
  unfold valid_field. intros [H Hws]%andb_prop.
  do 3 apply andb_prop in H as [H _].
  destruct (words_spec _ Hws) as [Hall Hne].
  unfold field_atoms, field_tokens. cbn [map concat].
  rewrite map_app, concat_app, word_atoms_tokens by assumption.
  unfold atom_tokens at 1 2. cbn [fst snd]. rewrite (word_not_empty _ H).
  simpl. now rewrite <- app_assoc.
Qed.

Lemma fields_atoms_ok fields :
  forallb valid_field fields = true ->
  Forall atom_ok (concat (map field_atoms fields)).
Proof.
  induction fields as [|f fields IH]; cbn [map concat forallb]; [constructor|].
  intros [Hf H]%andb_prop. apply Forall_app.
  split; [now apply field_atoms_ok|auto].
Qed.

Lemma fields_atoms_tokens fields :
  forallb valid_field fields = true ->
  concat (map atom_tokens (concat (map field_atoms fields))) =
    concat (map field_tokens fields).
Proof.
  induction fields as [|f fields IH]; cbn [map concat forallb]; [done|].
  intros [Hf H]%andb_prop.
  now rewrite map_app, concat_app, field_atoms_tokens, IH.
Qed.

Lemma shape_atoms_ok s : valid_shape s = true -> Forall atom_ok (shape_atoms s).
Proof.
  destruct s as [first arg|d arg|opening semi fields]; simpl.
  - intros [Hf Hw]%andb_prop. destruct (words_spec _ Hw) as [Hall _].
    constructor; [split; [now apply word_piece|reflexivity]|].
    apply Forall_app. split; [now apply word_atoms_ok|].
    constructor; [now split|constructor].
  - intros [Hd Hw]%andb_prop. destruct (words_spec _ Hw) as [Hall _].
    constructor; [|now apply word_atoms_ok].
    apply orb_prop in Hd as [->%String.eqb_eq| ->%String.eqb_eq]; now split.
  - intros [H _]%andb_prop. apply andb_prop in H as [H Hfields].
    do 4 apply andb_prop in H as [H _].
    destruct (words_spec _ H) as [Hall _].
    apply Forall_app. split; [now apply word_atoms_ok|].
    do 2 (constructor; [now split|]).
    apply Forall_app. split; [now apply fields_atoms_ok|].
    constructor; [now split|].
    destruct semi; repeat (constructor; [now split|]); constructor.
Qed.

Lemma shape_atoms_tokens s :
  valid_shape s = true ->
  concat (map atom_tokens (shape_atoms s)) = shape_tokens s.
Proof.
  destruct s as [first arg|d arg|opening semi fields];
    cbn [valid_shape shape_atoms shape_tokens map concat].
  - intros [Hf Hw]%andb_prop. destruct (words_spec _ Hw) as [Hall Hne].
    rewrite map_app, concat_app, word_atoms_tokens by assumption.
    unfold atom_tokens at 1. cbn [fst snd]. rewrite (word_not_empty _ Hf).
    simpl. now rewrite <- app_assoc.
  - intros [Hd Hw]%andb_prop. destruct (words_spec _ Hw) as [Hall Hne].
    rewrite word_atoms_tokens by assumption.
    apply orb_prop in Hd as [->%String.eqb_eq| ->%String.eqb_eq]; reflexivity.
  - intros [H _]%andb_prop. apply andb_prop in H as [H Hfields].
    do 4 apply andb_prop in H as [H _].
    destruct (words_spec _ H) as [Hall Hne].
    rewrite !map_app, !concat_app, word_atoms_tokens by assumption.
    rewrite fields_atoms_tokens by assumption.
    destruct semi; simpl; now rewrite app_nil_r.
Qed.

(** The tokens of the written statements. *)
Lemma tokenize_shapes shapes :
  forallb valid_shape shapes = true ->
  _tokenize_glm (render (concat (map shape_atoms shapes))) =
    concat (map shape_tokens shapes).
Proof.
  intros Hv. rewrite tokenize_render.
  - induction shapes as [|s shapes IH]; [reflexivity|].
    cbn [map concat forallb] in *. apply andb_prop in Hv as [Hs Hv].
    now rewrite map_app, concat_app, shape_atoms_tokens, IH.
  - induction shapes as [|s shapes IH]; [constructor|].
    cbn [map concat forallb] in *. apply andb_prop in Hv as [Hs Hv].
    apply Forall_app. split; [now apply shape_atoms_ok|auto].
Qed.

(** ** What [sorted_write] writes for an item *)

Lemma gather_eq key d :
  (fix gather (entries : pydict) : result string :=
     match entries with
     | [] => Ok ""
     | (KInt _, v) :: entries' =>
         r <- _dict_to_string v ;;
         s <- not_none r ;;
         more <- gather entries' ;;
         Ok (s +:+ more)
     | (KStr k, v) :: entries' =>
         s <- (if String.eqb k key then Ok "" else field_line k v) ;;
         more <- gather entries' ;;
         Ok (s +:+ more)
     end) d = _gather_key_values d key.
Proof.
  induction d as [|[[n|k] v] d IH]; [reflexivity| |];
    cbn [_gather_key_values]; now rewrite IH.
Qed.

Lemma field_line_atoms k v f :
  field_of k v = Some f -> valid_field f = true ->
  field_line k v = Ok (render (field_atoms f)).
Proof.
  unfold field_of, valid_field, field_line. intros Hf Hv.
  assert (Hc : String.eqb k "comment" = false
               /\ exists s, f = (k, text_words s) /\ py_str v = s
                  /\ (String.eqb k "name" || String.eqb k "parent" = true ->
                      py_len v = Ok (String.length s)
                      /\ (String.length s <=? 62)%nat = true)).
  { destruct (String.eqb k "name" || String.eqb k "parent") eqn:E.
    - destruct v as [s| |]; try discriminate.
      destruct (String.length s <=? 62)%nat eqn:El; [|discriminate].
      injection Hf as <-. simpl in Hv.
      apply andb_prop in Hv as [Hv _]. apply andb_prop in Hv as [_ Hv].
      apply negb_true_iff in Hv. split; [assumption|]. exists s. auto.
    - injection Hf as <-. simpl in Hv.
      apply andb_prop in Hv as [Hv _]. apply andb_prop in Hv as [_ Hv].
      apply negb_true_iff in Hv. split; [assumption|].
      exists (py_str v). split; [reflexivity|]. split; [reflexivity|done]. }
  destruct Hc as (Hc & s & -> & Hs & Hlen). rewrite Hc.
  assert (Hr : render (field_atoms (k, text_words s)) =
               tab +:+ k +:+ " " +:+ s +:+ ";" +:+ nl).
  { unfold field_atoms. cbn [render fst snd].
    rewrite render_word_atoms by apply split_space_nonempty.
    now rewrite join_text_words. }
  rewrite Hr, Hs.
  destruct (String.eqb k "name" || String.eqb k "parent"); [|reflexivity].
  destruct (Hlen eq_refl) as [Hl1 Hl2]. rewrite Hl1. cbn [rbind].
  now rewrite Hl2.
Qed.

Lemma gather_atoms key item fields :
  item_fields key item = Some fields -> forallb valid_field fields = true ->
  _gather_key_values item key = Ok (render (concat (map field_atoms fields))).
Proof.
  revert fields. induction item as [|[[n|k] v] item IH]; intros fields H Hv.
  - now injection H as <-.
  - discriminate.
  - cbn [item_fields] in H. cbn [_gather_key_values].
    destruct (item_fields key item) as [fs|]; [|discriminate]. simpl in H.
    destruct (String.eqb k key).
    + injection H as <-. now rewrite (IH fs eq_refl Hv).
    + destruct (field_of k v) as [f|] eqn:Ef; [|discriminate].
      injection H as <-. cbn [forallb] in Hv. apply andb_prop in Hv as [Hf Hv].
      rewrite (field_line_atoms _ _ _ Ef Hf), (IH fs eq_refl Hv).
      cbn [map concat rbind]. now rewrite render_app.
Qed.

Lemma text_item_of k item s : text_of k item = Some s -> text_item k item = Ok s.
Proof.
  unfold text_of, text_item, dict_item.
  destruct (dict_get (KStr k) item) as [[x| |]|]; try discriminate.
  now intros [= ->].
Qed.

Lemma text_of_object o item :
  text_of "object" item = Some o ->
  is_text "schedule" (default (VStr "") (dict_get (KStr "object") item)) =
    String.eqb o "schedule".
Proof.
  unfold text_of.
  destruct (dict_get (KStr "object") item) as [[x| |]|]; try discriminate.
  now intros [= ->].
Qed.

Lemma clock_line_atoms k item fields :
  clock_field k item = Some fields ->
  clock_line k item = Ok (render (concat (map field_atoms fields))).
Proof.
  unfold clock_field, clock_line, text_item, dict_item, dict_mem.
  destruct (dict_get (KStr k) item) as [[s| |]|]; try discriminate.
  - intros [= <-]. simpl. rewrite app_nil_r.
    rewrite render_word_atoms by apply split_space_nonempty.
    now rewrite join_text_words.
  - now intros [= <-].
Qed.

Ltac option_inv H :=
  repeat match type of H with
    | context [text_of ?k ?item] =>
        let E := fresh "E" in
        destruct (text_of k item) eqn:E; cbn [base.mbind option_bind] in H;
        [|discriminate H]
    | context [item_fields ?k ?item] =>
        let E := fresh "E" in
        destruct (item_fields k item) eqn:E; cbn [base.mbind option_bind] in H;
        [|discriminate H]
    | context [clock_field ?k ?item] =>
        let E := fresh "E" in
        destruct (clock_field k item) eqn:E; cbn [base.mbind option_bind] in H;
        [|discriminate H]
    end.

(** The text [_dict_to_string] gives for an item, with the line feed of
    [sorted_write]. *)
Lemma dict_to_string_shape item s :
  item_shape item = Some s -> valid_shape s = true ->
  exists x, _dict_to_string (VDict item) = Ok (Some x)
            /\ x +:+ nl = render (shape_atoms s).
Proof.
  unfold item_shape. intros H Hv. cbn [_dict_to_string].
  rewrite !gather_eq.
  destruct (dict_mem (KStr "omftype") item).
  { option_inv H. injection H as <-.
    rewrite (text_item_of _ _ _ E), (text_item_of _ _ _ E0). cbn [rbind].
    eexists. split; [reflexivity|].
    cbn [shape_atoms render].
    rewrite render_word_atoms by apply split_space_nonempty.
    rewrite join_text_words. now rewrite !sapp_assoc. }
  destruct (dict_mem (KStr "module") item).
  { option_inv H. injection H as <-.
    cbn [valid_shape] in Hv. apply andb_prop in Hv as [Hv _].
    apply andb_prop in Hv as [_ Hv].
    rewrite (text_item_of _ _ _ E), (gather_atoms _ _ _ E0 Hv). cbn [rbind].
    eexists. split; [reflexivity|].
    cbn [shape_atoms word_atoms render app]. rewrite !render_app.
    cbn [render]. now rewrite !sapp_assoc. }
  destruct (dict_mem (KStr "clock") item).
  { option_inv H. injection H as <-.
    rewrite (clock_line_atoms _ _ _ E), (clock_line_atoms _ _ _ E0),
      (clock_line_atoms _ _ _ E1). cbn [rbind].
    eexists. split; [reflexivity|].
    cbn [shape_atoms word_atoms render app].
    rewrite !map_app, !concat_app, !render_app.
    cbn [render]. now rewrite !sapp_assoc. }
  destruct (dict_mem (KStr "object") item).
  { option_inv H. rewrite (text_of_object _ _ E).
    destruct (String.eqb s0 "schedule"); [discriminate|].
    option_inv H. injection H as <-.
    cbn [valid_shape] in Hv. apply andb_prop in Hv as [Hv _].
    apply andb_prop in Hv as [_ Hv].
    rewrite (text_item_of _ _ _ E), (gather_atoms _ _ _ E0 Hv). cbn [rbind andb].
    eexists. split; [reflexivity|].
    cbn [shape_atoms word_atoms render app]. rewrite !render_app.
    cbn [render]. now rewrite !sapp_assoc. }
  cbn [andb].
  destruct (dict_mem (KStr "omfEmbeddedConfigObject") item); [discriminate|].
  destruct (dict_mem (KStr "#include") item).
  { option_inv H. injection H as <-.
    rewrite (text_item_of _ _ _ E). cbn [rbind].
    eexists. split; [reflexivity|].
    cbn [shape_atoms render].
    rewrite <- (app_nil_r (word_atoms _ _)).
    rewrite render_word_atoms by apply split_space_nonempty.
    rewrite join_text_words. now rewrite !sapp_assoc. }
  destruct (dict_mem (KStr "#define") item); [discriminate|].
  destruct (dict_mem (KStr "#set") item); [|discriminate].
  option_inv H. injection H as <-.
  rewrite (text_item_of _ _ _ E). cbn [rbind].
  eexists. split; [reflexivity|].
  cbn [shape_atoms render].
  rewrite <- (app_nil_r (word_atoms _ _)).
  rewrite render_word_atoms by apply split_space_nonempty.
  rewrite join_text_words. now rewrite !sapp_assoc.
Qed.

Lemma write_items_shapes in_tree sorted_keys : forall shapes,
  shapes_at in_tree sorted_keys = Some shapes ->
  forallb valid_shape shapes = true ->
  write_items in_tree sorted_keys =
    Ok (render (concat (map shape_atoms shapes))).
Proof.
  induction sorted_keys as [|[n k] keys IH]; intros shapes H Hv.
  - now injection H as <-.
  - cbn [shapes_at write_items] in *.
    destruct (dict_get k in_tree) as [[x| |item]|]; try discriminate.
    destruct (item_shape item) as [s|] eqn:Es; [|discriminate].
    destruct (shapes_at in_tree keys) as [ss|]; [|discriminate].
    injection H as <-. cbn [forallb] in Hv. apply andb_prop in Hv as [Hs Hv].
    destruct (dict_to_string_shape _ _ Es Hs) as (x & -> & Hx).
    cbn [rbind not_none]. rewrite (IH ss eq_refl Hv). cbn [rbind map concat].
    now rewrite render_app, <- Hx, sapp_assoc.
Qed.

(** The text of a plain tree, its tokens, and the tree the loop of the
    parser builds from them. *)
Lemma plain_tree_round_trip in_tree :
  plain_tree in_tree = true ->
  exists s, sorted_write in_tree = Ok s
            /\ raw_tree (_tokenize_glm s) = Ok (reparsed in_tree).
Proof.
  unfold plain_tree, reparsed, tree_shapes, sorted_write.
  destruct (sort_keys (dict_keys in_tree)) as [ks|]; [|discriminate].
  destruct (shapes_at in_tree ks) as [shapes|] eqn:E; [|discriminate].
  intros Hv. cbn [rbind]. rewrite (write_items_shapes _ _ _ E Hv).
  eexists. split; [reflexivity|].
  rewrite tokenize_shapes by assumption. now apply raw_tree_shapes.
Qed.

(** ** Items already in the new format *)

Lemma dict_set_same k v (d : pydict) :
  dict_get k d = Some v -> dict_set k v d = d.
Proof.
  induction d as [|[k' v'] d IH]; simpl; [done|].
  destruct (decide (k = k')) as [->|Hne].
  - now intros [= ->].
  - intros H. now rewrite IH.
Qed.

Lemma replace_colons_id item :
  forallb (fun kv => no_colon (snd kv)) item = true ->
  replace_colons item = Ok item.
Proof.
  induction item as [|[k v] item IH]; [reflexivity|].
  simpl. intros [Hv H]%andb_prop. rewrite (IH H).
  destruct v as [s| |]; try discriminate. simpl in *.
  apply negb_true_iff in Hv. now rewrite replace_char_absent.
Qed.

Lemma no_colon_get k v item :
  forallb (fun kv => no_colon (snd kv)) item = true ->
  dict_get k item = Some v -> no_colon v = true.
Proof.
  induction item as [|[k' v'] item IH]; simpl; [done|].
  intros [Hv H]%andb_prop. destruct (decide (k = k')); [|auto].
  now intros [= <-].
Qed.

Lemma replace_hyphens_id k item :
  no_hyphen k item = true -> replace_hyphens k item = Ok item.
Proof.
  unfold no_hyphen, replace_hyphens.
  destruct (dict_get (KStr k) item) as [[s| |]|] eqn:E; try discriminate.
  - intros H%negb_true_iff. simpl. rewrite replace_char_absent by assumption.
    now rewrite dict_set_same.
  - reflexivity.
Qed.

Lemma before_char_absent a s : contains_char a s = false -> before_char a s = s.
Proof.
  induction s as [|c s IH]; simpl; [done|].
  intros [Hc Hs]%orb_false_elim. now rewrite Hc, IH.
Qed.

Lemma legacy_item_new_format item :
  new_format item = true -> legacy_item item = Ok (item, false).
Proof.
  unfold new_format, legacy_item.
  destruct (dict_get (KStr "object") item) as [obj|] eqn:Eo; [|reflexivity].
  replace (dict_mem (KStr "object") item) with true
    by (unfold dict_mem; now rewrite Eo).
  simpl. intros H.
  repeat match type of H with _ && _ = true => apply andb_prop in H as [H ?] end.
  pose proof (no_colon_get _ _ _ H Eo) as Ho.
  destruct obj as [o| |]; try discriminate. simpl in Ho.
  apply negb_true_iff in Ho. rewrite Ho.
  replace (if negb (dict_mem (KStr "name") item) then Ok item else Ok item)
    with (Ok item) by now destruct (dict_mem (KStr "name") item).
  cbn [rbind].
  rewrite before_char_absent, (dict_set_same _ _ _ Eo) by assumption.
  rewrite (replace_colons_id _ H). cbn [rbind]. rewrite Eo.
  cbn [default from_option id].
  match goal with
  | Hr : negb (is_recorder _) = true |- _ =>
      apply negb_true_iff in Hr; cbn [default] in Hr; rewrite Hr
  end.
  match goal with
  | Hf : negb (is_text "fuse" _) || _ = true |- _ =>
      apply orb_prop in Hf as [Hf|Hf];
      [apply negb_true_iff in Hf; cbn [default] in Hf; rewrite Hf
      |rewrite Hf, andb_false_r]
  end; cbn [andb];
    repeat (rewrite replace_hyphens_id by assumption; cbn [rbind]);
    reflexivity.
Qed.

Lemma legacy_pass_new_format t :
  new_format_tree t = true -> legacy_pass t = Ok (t, []).
Proof.
  induction t as [|[k v] t IH]; [reflexivity|].
  simpl. intros [Hv H]%andb_prop. destruct v as [| |item]; try discriminate.
  now rewrite (legacy_item_new_format _ Hv), (IH H).
Qed.

(** The pass over the finished tree leaves a tree in the new format as
    it is. *)
Lemma translate_new_format t :
  new_format_tree t = true -> translate_old_format t = Ok t.
Proof.
  intros H. unfold translate_old_format. now rewrite legacy_pass_new_format.
Qed.

(** X13.  Writing a plain tree and reading the text again.  [sorted_write]
    gives a text; the loop of the parser builds from its tokens the items
    of the tree in the order [sorted_write] writes them (by the integer of
    their keys, keys of the same integer in the order of the dictionary),
    renumbered from zero, each as its statements give it; and when that
    tree is in the new format, [parse] returns it. *)
Theorem written_tree_parses_back (in_tree : pydict) :
  plain_tree in_tree = true ->
  exists s,
    sorted_write in_tree = Ok s
    /\ raw_tree (_tokenize_glm s) = Ok (reparsed in_tree)
    /\ (new_format_tree (reparsed in_tree) = true ->
        parse s = Ok (reparsed in_tree)).
Proof.
  intros Hp. destruct (plain_tree_round_trip _ Hp) as (s & Hs & Hraw).
  exists s. split; [assumption|]. split; [assumption|].
  intros Hn. unfold parse, _parse_token_list. rewrite Hraw. cbn [rbind].
  now apply translate_new_format.
Qed.

Lemma written_tree_parses_back_witness :
  exists s,
    sorted_write plain_model = Ok s
    /\ raw_tree (_tokenize_glm s) = Ok (reparsed plain_model)
    /\ (new_format_tree (reparsed plain_model) = true ->
        parse s = Ok (reparsed plain_model)).
Proof.
  apply (written_tree_parses_back plain_model). vm_compute. reflexivity.
Defined.

(** X14.  The pass over the finished tree changes nothing in a tree that
    is in the new format: the parser returns the tree its loop built. *)
Theorem new_format_is_kept (token_list : list string) (raw : pydict) :
  raw_tree token_list = Ok raw ->
  new_format_tree raw = true ->
  _parse_token_list token_list = Ok raw.
Proof.
  intros Hraw Hn. unfold _parse_token_list. rewrite Hraw. cbn [rbind].
  now apply translate_new_format.
Qed.

Lemma new_format_is_kept_witness :
  _parse_token_list ["object"; "load"; "{"; nl; "name"; "load_1"; ";"; nl;
                     "}"; ";"; nl] =
    Ok [(KInt 0, VDict [(KStr "object", VStr "load"); (KStr "name", VStr "load_1")])].
Proof.
  apply new_format_is_kept; vm_compute; reflexivity.
Defined.

Lemma insert_sorted_elem x n k l :
  x ∈ insert_sorted n k l <-> x = (n, k) \/ x ∈ l.
Proof.
  induction l as [|[m k'] l IH]; simpl.
  - rewrite list_elem_of_singleton. split; [auto|].
    intros [?|H]; [done|inversion H].
  - destruct (n <=? m).
    + now rewrite elem_of_cons.
    + rewrite !elem_of_cons, IH. tauto.
Qed.

Lemma insert_sorted_length n k l :
  length (insert_sorted n k l) = S (length l).
Proof.
  induction l as [|[m k'] l IH]; simpl; [done|].
  destruct (n <=? m); simpl; [done|]. now rewrite IH.
Qed.

Lemma sort_keys_elem keys : forall sorted,
  sort_keys keys = Ok sorted ->
  length sorted = length keys
  /\ forall k, k ∈ keys -> exists n, (n, k) ∈ sorted.
Proof.
  induction keys as [|k keys IH]; intros sorted H; simpl in H.
  - injection H as <-. split; [done|]. intros k Hk. inversion Hk.
  - rbind_inv H as sorted' Hs. rbind_inv H as n Hn. injection H as <-.
    destruct (IH _ Hs) as [Hlen Hin]. split.
    + rewrite insert_sorted_length. simpl. now rewrite Hlen.
    + intros k' [->|Hk]%elem_of_cons.
      * exists n. apply insert_sorted_elem. now left.
      * destruct (Hin _ Hk) as [m Hm]. exists m.
        apply insert_sorted_elem. now right.
Qed.

Lemma shapes_at_elem in_tree sorted : forall shapes,
  shapes_at in_tree sorted = Some shapes ->
  length shapes = length sorted
  /\ forall n k, (n, k) ∈ sorted ->
       exists item s, dict_get k in_tree = Some (VDict item)
                      /\ item_shape item = Some s /\ s ∈ shapes.
Proof.
  induction sorted as [|[m k'] sorted IH]; intros shapes H.
  - injection H as <-. split; [done|]. intros n k Hk. inversion Hk.
  - cbn [shapes_at] in H.
    destruct (dict_get k' in_tree) as [[x| |item]|] eqn:Eg; try discriminate.
    destruct (item_shape item) as [s|] eqn:Es; [|discriminate].
    destruct (shapes_at in_tree sorted) as [ss|]; [|discriminate].
    injection H as <-. destruct (IH _ eq_refl) as [Hlen Hin]. split.
    + simpl. now rewrite Hlen.
    + intros n k [[= -> ->]|Hk]%elem_of_cons.
      * exists item, s. repeat split; [assumption..|left].
      * destruct (Hin _ _ Hk) as (item' & s' & ? & ? & ?).
        exists item', s'. repeat split; [assumption..|now right].
Qed.

Lemma renumber_elem items : forall n x,
  x ∈ items -> exists m, (KInt m, VDict x) ∈ renumber n items.
Proof.
  induction items as [|i items IH]; intros n x Hx; [inversion Hx|].
  apply elem_of_cons in Hx as [->|Hx].
  - exists n. left.
  - destruct (IH (n + 1) x Hx) as [m Hm]. exists m. now right.
Qed.

Lemma renumber_length items : forall n, length (renumber n items) = length items.
Proof. induction items as [|i items IH]; intros n; simpl; [done|]. now rewrite IH. Qed.

Lemma dict_get_NoDup k v (d : pydict) :
  NoDup (dict_keys d) -> (k, v) ∈ d -> dict_get k d = Some v.
Proof.
  unfold dict_keys. induction d as [|[k' v'] d IH]; intros Hnd Hin;
    [inversion Hin|].
  simpl in *. apply NoDup_cons in Hnd as [Hk Hnd].
  apply elem_of_cons in Hin as [[= -> ->]|Hin].
  - now destruct (decide (k' = k')).
  - destruct (decide (k = k')) as [->|Hne]; [|auto].
    destruct Hk. apply list_elem_of_fmap. now exists (k', v).
Qed.

Lemma field_of_entry k v f :
  field_of k v = Some f -> field_entry f = (KStr k, VStr (py_str v)).
Proof.
  unfold field_of, field_entry.
  destruct (String.eqb k "name" || String.eqb k "parent").
  - destruct v as [s| |]; try discriminate.
    destruct (String.length s <=? 62)%nat; [|discriminate].
    intros [= <-]. simpl. now rewrite join_text_words.
  - intros [= <-]. simpl. now rewrite join_text_words.
Qed.

Lemma item_fields_get h item : forall fields k,
  item_fields h item = Some fields -> k <> KStr h ->
  dict_get k (map field_entry fields) =
    (fun v => VStr (py_str v)) <$> dict_get k item.
Proof.
  induction item as [|[[n|k'] v] item IH]; intros fields k H Hk.
  - now injection H as <-.
  - discriminate.
  - cbn [item_fields] in H.
    destruct (item_fields h item) as [fs|]; [|discriminate].
    cbn [base.mbind option_bind] in H.
    destruct (String.eqb_spec k' h) as [->|Hne].
    + injection H as <-. simpl. destruct (decide (k = KStr h)); [done|].
      now apply IH.
    + destruct (field_of k' v) as [f|] eqn:Ef; [|discriminate].
      injection H as <-. cbn [map]. rewrite (field_of_entry _ _ _ Ef).
      simpl. destruct (decide (k = KStr k')); [done|]. now apply IH.
Qed.

Lemma block_item_get h o semi item fields k :
  text_of h item = Some o -> item_fields h item = Some fields ->
  dict_get k (shape_item (Block [h; o] semi fields)) =
    (fun v => VStr (py_str v)) <$> dict_get k item.
Proof.
  intros Ho Hf. cbn [shape_item]. unfold first_token, last_token. simpl.
  destruct (decide (k = KStr h)) as [->|Hne].
  - unfold text_of in Ho.
    destruct (dict_get (KStr h) item) as [[x| |]|]; try discriminate.
    now injection Ho as ->.
  - now apply item_fields_get with (h := h).
Qed.

(** What [reparsed] keeps of a plain tree: the number of items, and the
    fields of the modules and of the objects, each value as text. *)
Lemma reparsed_keeps (in_tree : pydict) :
  plain_tree in_tree = true -> NoDup (dict_keys in_tree) ->
  length (reparsed in_tree) = length in_tree
  /\ forall k item,
       (k, VDict item) ∈ in_tree ->
       dict_mem (KStr "omftype") item = false ->
       dict_mem (KStr "module") item = true
       \/ (dict_mem (KStr "clock") item = false
           /\ dict_mem (KStr "object") item = true) ->
       exists n item',
         (KInt n, VDict item') ∈ reparsed in_tree
         /\ forall f, dict_get f item' =
                        (fun v => VStr (py_str v)) <$> dict_get f item.
Proof.
  unfold plain_tree, reparsed, tree_shapes.
  destruct (sort_keys (dict_keys in_tree)) as [sorted|] eqn:Es; [|discriminate].
  destruct (shapes_at in_tree sorted) as [shapes|] eqn:Eh; [|discriminate].
  intros Hv Hnd.
  destruct (sort_keys_elem _ _ Es) as [Hlen Hin].
  destruct (shapes_at_elem _ _ _ Eh) as [Hlen' Hin']. split.
  - rewrite renumber_length, length_map, Hlen', Hlen.
    unfold dict_keys. now rewrite length_map.
  - intros k item Hitem Ho Hkind.
    destruct (Hin k) as [n Hn].
    { unfold dict_keys. apply list_elem_of_fmap. now exists (k, VDict item). }
    destruct (Hin' _ _ Hn) as (item0 & s & Hget & Hs & Hmem).
    rewrite (dict_get_NoDup _ _ _ Hnd Hitem) in Hget. injection Hget as <-.
    destruct (renumber_elem (map shape_item shapes) 0 (shape_item s))
      as [m Hm].
    { apply list_elem_of_fmap. now exists s. }
    exists m, (shape_item s). split; [assumption|]. intros f.
    unfold item_shape in Hs. rewrite Ho in Hs. revert Hs Hkind.
    destruct (dict_mem (KStr "module") item); intros Hs Hkind.
    + option_inv Hs. injection Hs as <-. now apply block_item_get.
    + destruct Hkind as [?|[Hc Hobj]]; [discriminate|].
      rewrite Hc, Hobj in Hs. option_inv Hs. revert Hs.
      destruct (String.eqb s0 "schedule"); [discriminate|].
      intros Hs. option_inv Hs. injection Hs as <-. now apply block_item_get.
Qed.

(** X15.  What the text keeps of a plain tree.  The tree that [parse]
    returns for the text [sorted_write] gives has as many items as the
    tree written; and every item that [_dict_to_string] writes as a module
    (it has the key [module] and not [omftype]) or as an object (it has
    the key [object] and none of [omftype], [module], [clock]) is in it
    with the same fields, each value as the text [str] gives for it. *)
Theorem round_trip_keeps_modules_and_objects (in_tree : pydict) :
  plain_tree in_tree = true -> NoDup (dict_keys in_tree) ->
  new_format_tree (reparsed in_tree) = true ->
  exists s t,
    sorted_write in_tree = Ok s /\ parse s = Ok t
    /\ length t = length in_tree
    /\ forall k item,
         (k, VDict item) ∈ in_tree ->
         dict_mem (KStr "omftype") item = false ->
         dict_mem (KStr "module") item = true
         \/ (dict_mem (KStr "clock") item = false
             /\ dict_mem (KStr "object") item = true) ->
         exists n item',
           (KInt n, VDict item') ∈ t
           /\ forall f, dict_get f item' =
                          (fun v => VStr (py_str v)) <$> dict_get f item.
Proof.
  intros Hp Hnd Hn. destruct (plain_tree_round_trip _ Hp) as (s & Hs & Hraw).
  destruct (reparsed_keeps _ Hp Hnd) as [Hlen Hfields].
  exists s, (reparsed in_tree). repeat split; try assumption.
  unfold parse, _parse_token_list. rewrite Hraw. cbn [rbind].
  now apply translate_new_format.
Qed.

Lemma round_trip_keeps_modules_and_objects_witness :
  exists s t,
    sorted_write plain_model = Ok s /\ parse s = Ok t
    /\ length t = length plain_model
    /\ forall k item,
         (k, VDict item) ∈ plain_model ->
         dict_mem (KStr "omftype") item = false ->
         dict_mem (KStr "module") item = true
         \/ (dict_mem (KStr "clock") item = false
             /\ dict_mem (KStr "object") item = true) ->
         exists n item',
           (KInt n, VDict item') ∈ t
           /\ forall f, dict_get f item' =
                          (fun v => VStr (py_str v)) <$> dict_get f item.
Proof.
  apply (round_trip_keeps_modules_and_objects plain_model).
  - vm_compute. reflexivity.
  - unfold plain_model, dict_keys. simpl.
    repeat (constructor; [rewrite ?elem_of_cons, elem_of_nil;
                          intuition discriminate|]).
    constructor.
  - vm_compute. reflexivity.
Defined.

Lemma dict_to_string_kind item x :
  _dict_to_string (VDict item) = Ok (Some x) -> has_kind item = true.
Proof.
  unfold has_kind, item_kinds. cbn [_dict_to_string existsb].
  repeat match goal with
    | |- context [dict_mem (KStr ?k) item] =>
        destruct (dict_mem (KStr k) item); [reflexivity|]
    end.
  discriminate.
Qed.

Lemma write_items_kind in_tree sorted s :
  write_items in_tree sorted = Ok s ->
  forall n k, (n, k) ∈ sorted ->
    exists v x, dict_get k in_tree = Some v /\ _dict_to_string v = Ok (Some x).
Proof.
  revert s. induction sorted as [|[m k'] sorted IH]; intros s H n k Hk.
  - inversion Hk.
  - cbn [write_items] in H.
    destruct (dict_get k' in_tree) as [v|] eqn:Eg; [|discriminate].
    rbind_inv H as r Hr. rbind_inv H as x Hx. rbind_inv H as more Hmore.
    apply elem_of_cons in Hk as [[= -> ->]|Hk].
    + destruct r as [x'|]; [|discriminate]. eauto.
    + eapply IH; eauto.
Qed.

(** X16.  [sorted_write] gives a text only for a tree all of whose items
    are of a kind it knows: each holds one of the nine keys
    [_dict_to_string] tests for. *)
Theorem written_items_have_a_kind (in_tree : pydict) (s : string)
    (k : key) (item : pydict) :
  sorted_write in_tree = Ok s ->
  NoDup (dict_keys in_tree) ->
  (k, VDict item) ∈ in_tree ->
  has_kind item = true.
Proof.
  unfold sorted_write. intros H Hnd Hin.
  rbind_inv H as sorted Hs.
  destruct (sort_keys_elem _ _ Hs) as [_ Hall].
  destruct (Hall k) as [n Hn].
  { unfold dict_keys. apply list_elem_of_fmap. now exists (k, VDict item). }
  destruct (write_items_kind _ _ _ H _ _ Hn) as (v & x & Hget & Hx).
  rewrite (dict_get_NoDup _ _ _ Hnd Hin) in Hget. injection Hget as <-.
  eapply dict_to_string_kind, Hx.
Qed.

Lemma written_items_have_a_kind_witness :
  has_kind [(KStr "module", VStr "powerflow"); (KStr "solver_method", VStr "NR")]
    = true.
Proof.
  apply (written_items_have_a_kind plain_model
           ("#set minimum_timestep=60;" +:+ nl +:+ "clock {" +:+ nl
            +:+ tab +:+ "timezone EST+5EDT;" +:+ nl
            +:+ tab +:+ "starttime '2001-01-01 00:00:00';" +:+ nl
            +:+ "}" +:+ nl +:+ nl
            +:+ "module powerflow {" +:+ nl +:+ tab +:+ "solver_method NR;" +:+ nl
            +:+ "}" +:+ nl +:+ nl
            +:+ "object fuse {" +:+ nl +:+ tab +:+ "phases ABCN;" +:+ nl
            +:+ tab +:+ "name f1;" +:+ nl
            +:+ tab +:+ "mean_replacement_time 3600.0;" +:+ nl
            +:+ "};" +:+ nl +:+ nl
            +:+ "object load {" +:+ nl +:+ tab +:+ "name load_1;" +:+ nl
            +:+ tab +:+ "parent meter_1;" +:+ nl
            +:+ tab +:+ "constant_power_A 1000+500j;" +:+ nl
            +:+ "};" +:+ nl +:+ nl)
           (KInt 3)).
  - vm_compute. reflexivity.
  - unfold plain_model, dict_keys. simpl.
    repeat (constructor; [rewrite ?elem_of_cons, elem_of_nil;
                          intuition discriminate|]).
    constructor.
  - unfold plain_model. repeat constructor.
Defined.

(** ** The end of the text *)

Lemma last_token_app_ne pre rest :
  rest <> [] -> last_token (pre ++ rest) = last_token rest.
Proof.
  intros Hne. unfold last_token. induction pre as [|x pre IH]; [reflexivity|].
  simpl. destruct (pre ++ rest) eqn:E; [|assumption].
  apply app_eq_nil in E as [_ ?]. contradiction.
Qed.

Lemma closed_app pre rest : closed pre -> closed rest -> closed (pre ++ rest).
Proof.
  intros Hp [->|Hr].
  - now rewrite app_nil_r.
  - destruct rest as [|t rest]; [now rewrite app_nil_r|].
    right. now rewrite last_token_app_ne.
Qed.

Lemma collect_closed acc toks ft rest :
  collect acc toks = Ok (ft, rest) ->
  exists pre, toks = pre ++ rest /\ closed pre.
Proof.
  revert acc. induction toks as [|t toks IH]; intros acc; simpl; [done|].
  destruct (is_terminator t) eqn:Et.
  - intros [= <- <-]. exists [t]. split; [reflexivity|now right].
  - intros H. destruct (IH _ H) as (pre & -> & Hpre).
    exists (t :: pre). split; [reflexivity|].
    destruct Hpre as [->|Hpre].
    + apply collect_shorter in H. simpl in H. lia.
    + right. destruct pre as [|p pre]; [discriminate|]. exact Hpre.
Qed.

Lemma collect_until_closed stop ft toks ft' rest :
  collect_until stop ft toks = Ok (ft', rest) ->
  exists pre, toks = pre ++ rest /\ ft' = ft ++ pre /\ last_token ft' = stop.
Proof.
  revert ft. induction toks as [|t toks IH]; intros ft; simpl.
  - destruct (String.eqb_spec (last_token ft) stop) as [E|]; [|done].
    intros [= <- <-]. exists []. now rewrite !app_nil_r.
  - destruct (String.eqb_spec (last_token ft) stop) as [E|].
    + intros [= <- <-]. exists []. now rewrite !app_nil_r.
    + intros H. destruct (IH _ H) as (pre & -> & -> & Hl).
      exists (t :: pre). rewrite <- app_assoc in Hl |- *. auto.
Qed.

Lemma collected_closed stop ft pre :
  is_terminator stop = true -> last_token (ft ++ pre) = stop -> closed pre.
Proof.
  intros Hs Hl. destruct pre as [|p pre]; [now left|].
  right. rewrite last_token_app_ne in Hl by done. now rewrite Hl.
Qed.

Lemma dispatch_closed st ft toks st' toks' :
  dispatch st ft toks = Ok (st', toks') ->
  exists pre, toks = pre ++ toks' /\ closed pre.
Proof.
  unfold dispatch, directive. intros H.
  rbind_cases;
    try (exists []; split; [reflexivity|now left]);
    match goal with
    | H : collect_until ?stop _ _ = Ok _ |- _ =>
        apply collect_until_closed in H as (pre & -> & -> & Hl);
        exists pre; split; [reflexivity|];
        apply (collected_closed stop _ _ eq_refl Hl)
    end.
Qed.

Lemma build_tree_closed fuel : forall toks st t,
  build_tree fuel toks st = Ok t -> closed toks.
Proof.
  induction fuel as [|fuel IH]; intros toks st t H.
  - destruct toks; [now left|discriminate].
  - destruct toks as [|tok toks]; [now left|].
    cbn [build_tree] in H. rbind_inv H as r Hc. destruct r as [ft rest].
    rbind_inv H as r Hd. destruct r as [st' rest'].
    destruct (collect_closed _ _ _ _ Hc) as (pre & -> & Hpre).
    destruct (dispatch_closed _ _ _ _ _ Hd) as (pre' & -> & Hpre').
    apply closed_app; [assumption|]. apply closed_app; [assumption|].
    eapply IH, H.
Qed.

(** X17.  The text has to end on a token that closes a statement: when
    the last token is none of the brackets, the semicolon, the line feed
    and [shape], [parse] returns no tree but raises one of Python's
    exceptions (which one depends on the text before the end). *)
Theorem unclosed_text_raises (input_str : string) :
  _tokenize_glm input_str <> [] ->
  is_terminator (last_token (_tokenize_glm input_str)) = false ->
  exists e, parse input_str = Raise e /\ e <> OutOfModel.
Proof.
  intros Hne Hlast. pose proof (parse_in_model input_str) as Hm.
  destruct (parse input_str) as [t|e] eqn:E.
  - exfalso. unfold parse, _parse_token_list, raw_tree in E.
    rbind_inv E as raw Hraw.
    destruct (build_tree_closed _ _ _ _ Hraw) as [?|Hc]; [done|].
    congruence.
  - exists e. split; [reflexivity|]. intros ->. now apply Hm.
Qed.

Lemma unclosed_text_raises_witness :
  exists e, parse "#include other.glm" = Raise e /\ e <> OutOfModel.
Proof.
  apply unclosed_text_raises.
  - vm_compute. discriminate.
  - vm_compute. reflexivity.
Defined.

(** ** The tokens *)

Lemma cleaned_chars data :
  all_chars kept_char (replace_char TAB " " (remove_char CR data)) = true.
Proof.
  induction data as [|c data IH]; [reflexivity|]. simpl.
  destruct (Ascii.eqb_spec c CR) as [->|Hcr]; [assumption|].
  simpl. rewrite IH, andb_true_r. unfold kept_char.
  destruct (Ascii.eqb_spec c TAB) as [->|Htab]; [reflexivity|].
  apply Ascii.eqb_neq in Hcr, Htab. now rewrite Hcr, Htab.
Qed.

Lemma re_split_pieces s : forall cur,
  all_chars (fun c => negb (is_delim c)) cur = true ->
  all_chars kept_char s = true ->
  Forall (fun x => all_chars (fun c => negb (is_delim c)) x = true
                   \/ exists c, x = String c "" /\ is_delim c = true
                                /\ kept_char c = true)
    (re_split cur s).
Proof.
  induction s as [|c s IH]; intros cur Hcur Hs; simpl.
  - constructor; [now left|constructor].
  - simpl in Hs. apply andb_prop in Hs as [Hc Hs].
    destruct (is_delim c) eqn:Ed.
    + constructor; [now left|]. constructor; [right; eauto|].
      now apply IH.
    + apply IH; [|assumption]. rewrite all_chars_app, Hcur. simpl.
      now rewrite Ed.
Qed.

(** X18.  The tokens.  Each token of a text is a single separator, other
    than the blank, or a text without separators that is not empty; no
    token holds a tab or a carriage return. *)
Theorem tokens_are_separators_or_words (input_str x : string) :
  x ∈ _tokenize_glm input_str ->
  (separator_token x \/ word_token x) /\ all_chars kept_char x = true.
Proof.
  unfold _tokenize_glm. intros [Hkeep Hx]%list_elem_of_filter.
  unfold keep_token in Hkeep. apply andb_prop in Hkeep as [He Hb].
  apply negb_true_iff, String.eqb_neq in He, Hb.
  pose proof (re_split_pieces _ "" eq_refl
                (cleaned_chars (strip_comments (remove_http input_str)))) as Hall.
  rewrite Forall_forall in Hall. destruct (Hall _ Hx) as [Hw|(c & -> & Hd & Hk)].
  - split; [right; now split|].
    eapply all_chars_impl; [|exact Hw]. intros c Hc. unfold kept_char.
    destruct (Ascii.eqb_spec c TAB) as [->|]; [discriminate|].
    destruct (Ascii.eqb_spec c CR) as [->|]; [discriminate|reflexivity].
  - split; [left|simpl; now rewrite Hk].
    exists c. repeat split; try assumption. intros ->. now apply Hb.
Qed.

Lemma tokens_are_separators_or_words_witness :
  (separator_token "{" \/ word_token "{") /\ all_chars kept_char "{" = true.
Proof.
  apply (tokens_are_separators_or_words
           ("object load {" +:+ tab +:+ "name a; // one" +:+ nl +:+ "}")).
  vm_compute. repeat constructor.
Defined.

Lemma load_entries t : forall next entries,
  load next t = Ok entries ->
  (forall n d, (KInt n, VDict d) ∈ t <-> exists l, (n, l, d) ∈ entries)
  /\ Forall (fun e => (next <= snd (fst e))%nat) entries
  /\ NoDup (map (fun e => snd (fst e)) entries).
Proof.
  induction t as [|[[n|s] [| |d]] t IH]; intros next entries H;
    simpl in H; try done.
  - injection H as <-. split; [|split; constructor].
    intros n d. split; [intros Hin; inversion Hin|intros [l Hin]; inversion Hin].
  - rbind_inv H as rest Hrest. injection H as <-.
    destruct (IH _ _ Hrest) as (Hin & Hle & Hnd). split; [|split].
    + intros n' d'. rewrite elem_of_cons, Hin. split.
      * intros [[= -> ->]|[l Hl]]; [exists next; left|exists l; now right].
      * intros [l [[= -> -> ->]|Hl]%elem_of_cons]; [now left|right; eauto].
    + constructor; [simpl; lia|].
      eapply Forall_impl; [exact Hle|]. simpl. intros e He. lia.
    + simpl. constructor; [|assumption].
      intros Hmem. apply list_elem_of_fmap in Hmem as (e & He & Hmem).
      rewrite Forall_forall in Hle. specialize (Hle _ Hmem). simpl in *. lia.
Qed.

(** X19.  The manager holds the parsed tree: an entry of the tree that
    [parse] returns for the model is a key of the manager's tree whose
    reference leads to the dictionary of the entry, and the manager's tree
    has nothing else. *)
Theorem manager_holds_parsed_tree (model : string) (t : pydict)
    (m : GLMManager) (n : Z) (d : pydict) :
  parse model = Ok t ->
  __init__ model = Ok m ->
  (KInt n, VDict d) ∈ t <->
  exists l, model_dict m !! n = Some l /\ store m !! l = Some d.
Proof.
  intros Ht H. unfold __init__ in H. rewrite Ht in H. cbn [rbind] in H.
  destruct t as [|entry0 t0] eqn:Htree; [done|]. rewrite <- Htree in *.
  rbind_inv H as keys Hkeys. rbind_inv H as entries Hentries.
  destruct (_map_model_dict _ _) as [[[]|e] m'] eqn:E; [|done].
  injection H as <-.
  apply _map_model_dict_effect in E as [(Hs & Hmd & _ & _) _].
  simpl in Hs, Hmd. rewrite Hs, Hmd.
  destruct (load_entries _ _ _ Hentries) as (Hin & _ & Hlocs).
  destruct (parse_entries _ _ Ht) as [Hnd _].
  rewrite (load_keys _ _ _ Hentries) in Hnd.
  assert (Hnd' : NoDup (map fst (map fst entries))).
  { rewrite map_map. rewrite <- (map_map (fun e => fst (fst e)) KInt) in Hnd.
    clear -Hnd. induction entries as [|e entries IH]; [constructor|].
    simpl in *. apply NoDup_cons in Hnd as [Hx Hnd].
    constructor; [|auto]. intros Hmem. apply Hx.
    apply list_elem_of_fmap. eexists. split; [reflexivity|]. exact Hmem. }
  assert (Hfw : forall n l d, (n, l, d) ∈ entries ->
            list_to_map (M := gmap Z loc) (map fst entries) !! n = Some l
            /\ list_to_map (M := gmap loc pydict)
                 (map (fun e : key_obj * pydict => (e.1.2, e.2)) entries) !! l
               = Some d).
  { intros n0 l0 d0 Hmem. split.
    - apply elem_of_list_to_map_1; [exact Hnd'|].
      apply list_elem_of_fmap. now exists (n0, l0, d0).
    - apply elem_of_list_to_map_1.
      + now rewrite map_map.
      + apply list_elem_of_fmap. now exists (n0, l0, d0). }
  rewrite Hin. split.
  - intros [l Hl]. exists l. now apply Hfw.
  - intros (l & Hl & Hd). exists l.
    apply elem_of_list_to_map_2 in Hl.
    apply list_elem_of_fmap in Hl as ([[n' l'] d'] & [= <- <-] & Hmem).
    destruct (Hfw _ _ _ Hmem) as [_ Hd']. rewrite Hd in Hd'.
    now injection Hd' as ->.
Qed.

Lemma manager_holds_parsed_tree_witness :
  (KInt 0, VDict [(KStr "object", VStr "overhead_line"); (KStr "name", VStr "ol_3");
                  (KStr "phases", VStr "ABC"); (KStr "length", VStr "100");
                  (KStr "from", VStr "n1"); (KStr "to", VStr "n2")])
    ∈ [(KInt 0, VDict [(KStr "object", VStr "overhead_line");
                       (KStr "name", VStr "ol_3"); (KStr "phases", VStr "ABC");
                       (KStr "length", VStr "100"); (KStr "from", VStr "n1");
                       (KStr "to", VStr "n2")])]
  <->
  exists l, model_dict line_manager !! 0 = Some l
            /\ store line_manager !! l =
                 Some [(KStr "object", VStr "overhead_line");
                       (KStr "name", VStr "ol_3"); (KStr "phases", VStr "ABC");
                       (KStr "length", VStr "100"); (KStr "from", VStr "n1");
                       (KStr "to", VStr "n2")].
Proof.
  apply (manager_holds_parsed_tree line_model).
  - vm_compute. reflexivity.
  - vm_compute. reflexivity.
Defined.

(** ** Values that are not text *)

Lemma replace_colons_raises item :
  has_non_text item = true -> replace_colons item = Raise AttributeError.
Proof.
  induction item as [|[k v] item IH]; [discriminate|].
  simpl. destruct v as [s| |]; simpl; try reflexivity.
  intros H. now rewrite (IH H).
Qed.

Lemma has_non_text_set k x item :
  has_non_text item = true ->
  (forall v, dict_get k item = Some v -> not_text v = false) ->
  has_non_text (dict_set k (VStr x) item) = true.
Proof.
  unfold has_non_text. induction item as [|[k' v'] item IH]; [discriminate|].
  simpl. intros H Hk. destruct (decide (k = k')) as [->|Hne].
  - simpl. rewrite (Hk v' eq_refl) in H. exact H.
  - simpl. destruct (not_text v'); [reflexivity|]. simpl in *. auto.
Qed.

Lemma replace_colons_error item e :
  replace_colons item = Raise e -> e = AttributeError.
Proof.
  induction item as [|[k v] item IH]; [discriminate|]. simpl.
  destruct v as [s| |]; simpl; try now intros [= <-].
  destruct (replace_colons item); simpl; [discriminate|].
  intros [= <-]. now apply IH.
Qed.

Lemma replace_hyphens_error k item e :
  replace_hyphens k item = Raise e -> e = AttributeError.
Proof.
  unfold replace_hyphens. destruct (dict_get (KStr k) item) as [[s| |]|];
    simpl; try discriminate; now intros [= <-].
Qed.

Lemma legacy_item_error item e :
  legacy_item item = Raise e -> e = AttributeError.
Proof.
  unfold legacy_item. destruct (dict_get (KStr "object") item) as [obj|];
    [|discriminate].
  destruct obj as [o| |].
  2,3: destruct (negb (dict_mem (KStr "name") item)); simpl; now intros [= <-].
  intros H.
  repeat match type of H with
    | rbind ?r _ = Raise _ =>
        let E := fresh "E" in
        destruct r eqn:E; cbn [rbind] in H;
        [|injection H as <-;
          first [eapply replace_colons_error; eassumption
                |eapply replace_hyphens_error; eassumption
                |destruct (negb _); [destruct (contains_char _ _)|]; discriminate
                |discriminate]]
    end.
  discriminate.
Qed.

Lemma legacy_pass_error t e : legacy_pass t = Raise e -> e = AttributeError.
Proof.
  induction t as [|[k v] t IH]; [discriminate|]. simpl.
  destruct v as [| |item]; try now intros [= <-].
  destruct (legacy_item item) as [[item' delete]|e'] eqn:E; simpl.
  - destruct (legacy_pass t) as [[t' dels]|e']; simpl; [discriminate|].
    intros [= <-]. now apply IH.
  - intros [= <-]. now apply (legacy_item_error item).
Qed.

Lemma legacy_item_non_text item :
  dict_mem (KStr "object") item = true -> has_non_text item = true ->
  exists e, legacy_item item = Raise e.
Proof.
  unfold legacy_item, dict_mem.
  destruct (dict_get (KStr "object") item) as [obj|] eqn:Eo; [|discriminate].
  intros _ Hbad. destruct obj as [o| |].
  2,3: destruct (dict_get (KStr "name") item); simpl; eauto.
  set (item1 := if contains_char COLON o
                then dict_set (KStr "name")
                       (VStr (replace_char COLON UNDERSCORE o)) item
                else item).
  assert (H1 : dict_get (KStr "name") item = None ->
               has_non_text item1 = true
               /\ dict_get (KStr "object") item1 = Some (VStr o)).
  { intros Hn. subst item1. destruct (contains_char COLON o); [|auto]. split.
    - apply has_non_text_set; [assumption|]. intros v. now rewrite Hn.
    - now rewrite dict_get_set_ne. }
  assert (H2 : forall i, has_non_text i = true ->
                 dict_get (KStr "object") i = Some (VStr o) ->
                 replace_colons
                   (dict_set (KStr "object") (VStr (before_char COLON o)) i)
                 = Raise AttributeError).
  { intros i Hi Hobj. apply replace_colons_raises, has_non_text_set; [assumption|].
    intros v. rewrite Hobj. now intros [= <-]. }
  destruct (dict_get (KStr "name") item) eqn:En; simpl.
  - rewrite (H2 item Hbad Eo). simpl. eauto.
  - destruct (H1 eq_refl) as [Hb Ho]. subst item1.
    destruct (contains_char COLON o); simpl; rewrite (H2 _ Hb Ho); simpl; eauto.
Qed.

Lemma legacy_pass_non_text t k item :
  (k, VDict item) ∈ t ->
  dict_mem (KStr "object") item = true -> has_non_text item = true ->
  exists e, legacy_pass t = Raise e.
Proof.
  intros Hin Ho Hbad. induction t as [|[k' v] t IH]; [inversion Hin|].
  simpl. destruct v as [| |item']; eauto.
  apply elem_of_cons in Hin as [[= <- <-]|Hin].
  - destruct (legacy_item_non_text _ Ho Hbad) as [e ->]. simpl. eauto.
  - destruct (legacy_item item') as [[i de]|e]; simpl; eauto.
    destruct (IH Hin) as [e ->]. simpl. eauto.
Qed.

(** X20.  A value that is not text in an item with a type stops the
    parser: when the loop has built such an item (an object with an item
    nested in it is one), the pass over the finished tree calls [replace]
    on the value and raises [AttributeError]. *)
Theorem non_text_in_object_raises (token_list : list string) (raw : pydict)
    (k : key) (item : pydict) :
  raw_tree token_list = Ok raw ->
  (k, VDict item) ∈ raw ->
  dict_mem (KStr "object") item = true ->
  has_non_text item = true ->
  _parse_token_list token_list = Raise AttributeError.
Proof.
  intros Hraw Hin Ho Hbad. unfold _parse_token_list, translate_old_format.
  rewrite Hraw. cbn [rbind].
  destruct (legacy_pass_non_text _ _ _ Hin Ho Hbad) as [e He].
  rewrite He. cbn [rbind]. f_equal. now apply (legacy_pass_error raw).
Qed.

Lemma non_text_in_object_raises_witness :
  _parse_token_list (_tokenize_glm nested_in_object) = Raise AttributeError.
Proof.
  apply (non_text_in_object_raises (_tokenize_glm nested_in_object)
           [(KInt 0, VDict [(KStr "object", VStr "house"); (KStr "name", VStr "h1");
                            (KInt 1, VDict [(KStr "object", VStr "solar");
                                            (KStr "name", VStr "pv1")])])]
           (KInt 0)
           [(KStr "object", VStr "house"); (KStr "name", VStr "h1");
            (KInt 1, VDict [(KStr "object", VStr "solar");
                            (KStr "name", VStr "pv1")])]).
  - vm_compute. reflexivity.
  - left.
  - reflexivity.
  - reflexivity.
Defined.

